(** * Pinecone: wire codec, capture dissector and peer link

    A shallow embedding of the parts of the Pinecone overlay router that
    its specification makes claims about:

    - [Dissector]: the varint reader [varu64] of the Wireshark dissector
      (Lua, [src/unnamed/part_000]), with [coords], the frame length and
      the heuristic;
    - [Types]: the frame codec of package [types].  Its Go source is not
      part of the tree at hand (only [types/frame_test.go] is), so the
      codec is modelled from the specification and from the byte layouts
      the test and the dissector spell out;
    - [Router]: the peer of package [router] ([src/router/simulator.go],
      second half): liveness predicates, announcement bookkeeping, stop,
      and the reader loop with its framing step;
    - [Link]: the rest of the peer: start, the announcement it
      generates, the forwarding of a frame that was read, the writer's
      [send], and the order on peers;
    - [Shell]: the router's read-only views ([src/router/simulator.go],
      first half): [DHTInfo] and [Peers].

    Part II holds the properties the specification claims, Part III
    further properties of the same code.

    Bytes are integers in [0, 256); machine integers are [Z] with their
    wrap-around written out. *)

From Stdlib Require Import String.
From Stdlib Require Import ZArith List Lia Bool Permutation.
Import ListNotations.
Open Scope Z_scope.

(** * Part I: the model *)

(** ** Bytes *)

Definition is_byte (b : Z) : Prop := 0 <= b < 256.

Definition bytes_ok (bs : list Z) : Prop := Forall is_byte bs.

Definition zlen {A} (l : list A) : Z := Z.of_nat (length l).

(** Go's [bytes.Equal]. *)
Fixpoint bytes_equal (a b : list Z) : bool :=
  match a, b with
  | [], [] => true
  | x :: a', y :: b' => (x =? y) && bytes_equal a' b'
  | _, _ => false
  end.

(** [binary.BigEndian.Uint16] on the two bytes [b0 b1], and
    [binary.BigEndian.PutUint16] of a value converted to [uint16]. *)
Definition BigEndian_Uint16 (b0 b1 : Z) : Z := Z.lor b1 (Z.shiftl b0 8).

Definition BigEndian_PutUint16 (v : Z) : list Z :=
  let v := v mod 2 ^ 16 in [Z.shiftr v 8 mod 256; v mod 256].

(** ** Capture dissector ([src/unnamed/part_000], Lua) *)

Module Dissector.

(** Lua 5.2's [bit32] library: operands are reduced to 32 bits and the
    result is a number in [0, 2^32). *)
Definition bit32 (x : Z) : Z := x mod 2 ^ 32.
Definition bit32_lshift (x disp : Z) : Z := bit32 (Z.shiftl (bit32 x) disp).
Definition bit32_bor (x y : Z) : Z := Z.lor (bit32 x) (bit32 y).
Definition bit32_band (x y : Z) : Z := Z.land (bit32 x) (bit32 y).

(** [ByteArray:get_index(i)] raises a Lua error when [i] is outside the
    array; [None] stands for the raised error. *)
Definition get_index (bytes : list Z) (i : Z) : option Z :=
  if i <? 0 then None else nth_error bytes (Z.to_nat i).

(** The loop [while l < 10 do ... end] of [varu64]; [fuel] is [10 - l].
    Leaving the loop because [l] reached 10 returns the accumulated
    number, like leaving it through [break]. *)
Fixpoint varu64_loop (fuel : nat) (bytes : list Z) (n l : Z) : option (Z * Z) :=
  match fuel with
  | O => Some (n, l)
  | S fuel' =>
      match get_index bytes l with
      | None => None
      | Some b =>
          let n := bit32_lshift n 7 in
          let n := bit32_bor n (bit32_band b 0x7f) in
          let l := l + 1 in
          if bit32_band b 0x80 =? 0 then Some (n, l)
          else varu64_loop fuel' bytes n l
      end
  end.

Definition varu64 (bytes : list Z) : option (Z * Z) :=
  varu64_loop 10 bytes 0 0.

(** [ByteArray:subset(offset, length)]; [None] is the Lua error for a
    range that leaves the array. *)
Definition subset (bytes : list Z) (offset len : Z) : option (list Z) :=
  if (offset <? 0) || (len <? 0) || (zlen bytes <? offset + len) then None
  else Some (firstn (Z.to_nat len) (skipn (Z.to_nat offset) bytes)).

(** How a Lua function with a [while] loop ends: it returns, it raises
    an error, or the loop is still running when the turns counted by
    [fuel] are used up. *)
Inductive run (A : Type) : Type :=
| Returns (a : A)
| Raises
| Unfinished.
Arguments Returns {A} a.
Arguments Raises {A}.
Arguments Unfinished {A}.

(** The loop [while o < b:len() do ... end] of [coords], with the table
    [c] as a list in the order of its indices. *)
Fixpoint coords_loop (fuel : nat) (b c : list Z) (o : Z) : run (list Z) :=
  if o <? zlen b then
    match fuel with
    | O => Unfinished
    | S fuel' =>
        match subset b o (zlen b - o) with
        | None => Raises
        | Some bytes =>
            match varu64 bytes with
            | None => Raises
            | Some (n, l) => coords_loop fuel' b (c ++ [n]) (o + l)
            end
        end
    end
  else Returns c.

(** [coords], up to the table [c] that its last line prints between
    brackets, the numbers separated by spaces.  One turn per byte is
    enough fuel. *)
Definition coords (bytes : list Z) : run (list Z) :=
  coords_loop (length bytes) bytes [] 0.

(** [do_pinecone_length]: [buffer(8, 2):uint()], a big-endian number;
    [None] is the Lua error for a range outside the buffer. *)
Definition do_pinecone_length (buffer : list Z) : option Z :=
  match subset buffer 8 2 with
  | Some [b0; b1] => Some (BigEndian_Uint16 b0 b1)
  | _ => None
  end.

Definition header_size : Z := 10.

(** [pinecone_protocol.dissector], the heuristic: [None] is the plain
    [return] that leaves the packet to other dissectors, [Some 1] the
    [return 1] after [dissect_tcp_pdus] was called. *)
Definition dissector (buffer : list Z) : option Z :=
  let length := zlen buffer in
  if length <? header_size then None
  else
    match subset buffer 0 4 with
    | None => None
    | Some magic =>
        if negb (bytes_equal magic [0x70; 0x69; 0x6e; 0x65]) then None
        else Some 1
    end.

End Dissector.

(** ** Frame codec (package [types]) *)

Module Types.

(** Modelled from the spec: the error kinds of the codec contract of
    section 4.1; their Go declarations are missing. *)
Inductive error : Type :=
| BufferTooSmall
| BadMagic
| UnsupportedVersion
| Truncated
| MalformedVarint.

Inductive result (A : Type) : Type :=
| Ok (a : A)
| Err (e : error).
Arguments Ok {A} a.
Arguments Err {A} e.

Definition bind {A B} (r : result A) (k : A -> result B) : result B :=
  match r with
  | Ok a => k a
  | Err e => Err e
  end.

Notation "x <- r ;; k" := (bind r (fun x => k))
  (at level 61, r at next level, right associativity).
Notation "' p <- r ;; k" := (bind r (fun x => let p := x in k))
  (at level 61, p pattern, r at next level, right associativity).

(** *** Varints *)

(** Modelled from the spec: the loop of [Varu64.MarshalBinary], the
    varint writer, whose Go source is missing.  Section 4.1: big-endian
    7-bit groups with the continuation bit in the MSB, most-significant
    group first, at most 10 bytes.  [groups] emits the groups above the
    last one, each with the continuation bit set, in front of [acc]. *)
Fixpoint groups (fuel : nat) (n : Z) (acc : list Z) : list Z :=
  match fuel with
  | O => acc
  | S fuel' =>
      if n =? 0 then acc
      else groups fuel' (Z.shiftr n 7) (Z.lor (Z.land n 0x7f) 0x80 :: acc)
  end.

(** Modelled from the spec: [Varu64.MarshalBinary] itself: the groups
    above the last one, then the low seven bits without continuation
    bit. *)
Definition Varu64_MarshalBinary (n : Z) : list Z :=
  groups 9 (Z.shiftr n 7) [Z.land n 0x7f].

(** Modelled from the spec: the loop of [Varu64.UnmarshalBinary], the
    varint reader of the Go codec, whose source is missing.  It
    accumulates into an unsigned 64-bit integer, stops at the first byte
    without continuation bit, fails with [MalformedVarint] when ten bytes
    did not end the number and with [Truncated] when the input ends
    first.  It returns the number and the unread rest. *)
Fixpoint Varu64_read (fuel : nat) (n : Z) (bs : list Z) : result (Z * list Z) :=
  match fuel with
  | O => Err MalformedVarint
  | S fuel' =>
      match bs with
      | [] => Err Truncated
      | b :: rest =>
          let n := Z.lor (Z.shiftl n 7 mod 2 ^ 64) (Z.land b 0x7f) in
          if Z.land b 0x80 =? 0 then Ok (n, rest)
          else Varu64_read fuel' n rest
      end
  end.

(** Modelled from the spec: [Varu64.UnmarshalBinary] itself, "every
    varint decode MUST terminate within 10 bytes". *)
Definition Varu64_UnmarshalBinary (bs : list Z) : result (Z * list Z) :=
  Varu64_read 10 0 bs.

(** *** Frames *)

(** Modelled from the spec: the constants of the frame header.  Section 3
    and 6 give the magic bytes "pine" and the 10-byte header
    [magic(4) | version(1) | type(1) | extra(2) | frame_len(2)]; the type
    codes are those of the table of section 3, which are also the ones
    the dissector lists in [frame_types]. *)
Definition FrameMagicBytes : list Z := [0x70; 0x69; 0x6e; 0x65].
Definition FrameHeaderLength : Z := 10.
Definition PublicKeySize : Z := 32.

Definition Version0 : Z := 0.

Definition TypeKeepalive : Z := 0.
Definition TypeTreeAnnouncement : Z := 1.
Definition TypeTreeRouted : Z := 2.
Definition TypeVirtualSnakeBootstrap : Z := 3.
Definition TypeVirtualSnakeRouted : Z := 4.
Definition TypeVirtualSnakePing : Z := 5.
Definition TypeVirtualSnakePong : Z := 6.
Definition TypeTreePing : Z := 7.
Definition TypeTreePong : Z := 8.

(** Modelled from the spec: the types of section 3, whose Go
    declarations are missing.  A public key is 32 bytes, coordinates are
    a sequence of ports (unsigned 64-bit integers), a watermark is a key
    and a sequence number. *)
Definition PublicKey : Type := list Z.
Definition Coordinates : Type := list Z.

Record VirtualSnakeWatermark : Type := {
  WatermarkPublicKey : PublicKey;
  Sequence : Z
}.

(** Modelled from the spec: [Frame], whose Go declaration is missing, by
    the fields the tests of [types/frame_test.go] set and compare, and
    the two extra bytes of the header of section 3. *)
Record Frame : Type := {
  Version : Z;
  Type_ : Z;
  Extra : list Z;
  Destination : Coordinates;
  DestinationKey : PublicKey;
  Source : Coordinates;
  SourceKey : PublicKey;
  Watermark : VirtualSnakeWatermark;
  Payload : list Z
}.

(** The zero values a Go [Frame{}] starts from. *)
Definition zero_key : PublicKey := repeat 0 (Z.to_nat PublicKeySize).
Definition zero_watermark : VirtualSnakeWatermark :=
  {| WatermarkPublicKey := zero_key; Sequence := 0 |}.

(** Modelled from the spec: the four wire layouts of the table of
    section 3, told apart by the type byte the way the dissector's
    [if ftype == 0 ... elseif ftype == 3 ... elseif ftype == 4 or 5 or 6
    ... else] does. *)
Inductive layout : Type :=
| LayoutEmpty       (* header only *)
| LayoutBootstrap   (* plen, dst key, watermark, payload *)
| LayoutSnake       (* plen, dst key, src key, watermark, payload *)
| LayoutTree.       (* plen, dst coords, src coords, payload *)

(** Modelled from the spec: the layout of a frame type. *)
Definition layout_of (t : Z) : layout :=
  if t =? TypeKeepalive then LayoutEmpty
  else if t =? TypeVirtualSnakeBootstrap then LayoutBootstrap
  else if (t =? TypeVirtualSnakeRouted) || (t =? TypeVirtualSnakePing)
          || (t =? TypeVirtualSnakePong) then LayoutSnake
  else LayoutTree.

(** Modelled from the spec: [Coordinates.MarshalBinary], missing from the
    tree.  Scenario S1 shows the layout: a 16-bit big-endian count of the
    bytes that follow, then one varint per port ([00 06 01 02 03 04 a7 08]
    for [1,2,3,4,5000]). *)
Definition Coordinates_MarshalBinary (c : Coordinates) : list Z :=
  let ports := flat_map Varu64_MarshalBinary c in
  BigEndian_PutUint16 (zlen ports) ++ ports.

(** Modelled from the spec: the watermark on the wire, its key followed by
    its sequence number as a varint (scenario S2). *)
Definition Watermark_MarshalBinary (w : VirtualSnakeWatermark) : list Z :=
  WatermarkPublicKey w ++ Varu64_MarshalBinary (Sequence w).

(** Modelled from the spec: the bytes after the 10-byte header, by
    layout: the payload length, then the keys and watermark or the
    coordinates, then the payload (scenarios S1 and S2; the SNEK layout is
    the one [TestMarshalUnmarshalSNEKFrame] expects). *)
Definition frame_body (f : Frame) : list Z :=
  match layout_of (Type_ f) with
  | LayoutEmpty => []
  | LayoutBootstrap =>
      BigEndian_PutUint16 (zlen (Payload f)) ++ DestinationKey f
        ++ Watermark_MarshalBinary (Watermark f) ++ Payload f
  | LayoutSnake =>
      BigEndian_PutUint16 (zlen (Payload f)) ++ DestinationKey f
        ++ SourceKey f ++ Watermark_MarshalBinary (Watermark f) ++ Payload f
  | LayoutTree =>
      BigEndian_PutUint16 (zlen (Payload f))
        ++ Coordinates_MarshalBinary (Destination f)
        ++ Coordinates_MarshalBinary (Source f) ++ Payload f
  end.

(** Modelled from the spec: [Frame.MarshalBinary], missing from the tree.
    Section 4.1: [marshal(frame, buf)] writes the frame into [buf] and
    returns the bytes written, or fails with [BufferTooSmall]; [cap] is
    the length of [buf] and the result is [buf[:n]].  The layouts are
    those of scenarios S1 and S2 and of the expected bytes in
    [types/frame_test.go]; there the length field at offset 8 counts the
    whole frame, header included (33 for S1, 82 for S2). *)
Definition MarshalBinary (f : Frame) (cap : Z) : result (list Z) :=
  let body := frame_body f in
  let n := FrameHeaderLength + zlen body in
  if cap <? n then Err BufferTooSmall
  else Ok (FrameMagicBytes ++ [Version f; Type_ f] ++ Extra f
             ++ BigEndian_PutUint16 n ++ body).

(** Modelled from the spec: the readers of the missing
    [UnmarshalBinary] methods.  They take the unread bytes and return what
    they read with the rest; running out of bytes is [Truncated]. *)
Definition take_bytes (n : Z) (bs : list Z) : result (list Z * list Z) :=
  if zlen bs <? n then Err Truncated
  else Ok (firstn (Z.to_nat n) bs, skipn (Z.to_nat n) bs).

(** Modelled from the spec: a 16-bit big-endian length field. *)
Definition read_uint16 (bs : list Z) : result (Z * list Z) :=
  match bs with
  | b0 :: b1 :: rest => Ok (BigEndian_Uint16 b0 b1, rest)
  | _ => Err Truncated
  end.

(** Modelled from the spec: the ports of [Coordinates.UnmarshalBinary],
    varints until the input is used up; [fuel] bounds the number of
    varints by the number of bytes. *)
Fixpoint read_ports (fuel : nat) (bs : list Z) : result Coordinates :=
  match bs with
  | [] => Ok []
  | _ :: _ =>
      match fuel with
      | O => Err Truncated
      | S fuel' =>
          ' (n, rest) <- Varu64_UnmarshalBinary bs ;;
          ports <- read_ports fuel' rest ;;
          Ok (n :: ports)
      end
  end.

(** Modelled from the spec: [Coordinates.UnmarshalBinary], missing from
    the tree: the byte count, then that many bytes of varints. *)
Definition Coordinates_UnmarshalBinary (bs : list Z)
  : result (Coordinates * list Z) :=
  ' (l, rest) <- read_uint16 bs ;;
  ' (ports, rest) <- take_bytes l rest ;;
  c <- read_ports (length ports) ports ;;
  Ok (c, rest).

(** Modelled from the spec: the watermark read back, key then
    sequence number. *)
Definition Watermark_UnmarshalBinary (bs : list Z)
  : result (VirtualSnakeWatermark * list Z) :=
  ' (key, rest) <- take_bytes PublicKeySize bs ;;
  ' (seq, rest) <- Varu64_UnmarshalBinary rest ;;
  Ok ({| WatermarkPublicKey := key; Sequence := seq |}, rest).

(** Modelled from the spec: the body of [Frame.UnmarshalBinary] by
    layout, the mirror image of [frame_body]. *)
Definition read_body (version type : Z) (extra body : list Z)
  : result (Frame * list Z) :=
  match layout_of type with
  | LayoutEmpty =>
      Ok ({| Version := version; Type_ := type; Extra := extra;
             Destination := []; DestinationKey := zero_key;
             Source := []; SourceKey := zero_key;
             Watermark := zero_watermark; Payload := [] |}, body)
  | LayoutBootstrap =>
      ' (plen, rest) <- read_uint16 body ;;
      ' (dk, rest) <- take_bytes PublicKeySize rest ;;
      ' (wm, rest) <- Watermark_UnmarshalBinary rest ;;
      ' (payload, rest) <- take_bytes plen rest ;;
      Ok ({| Version := version; Type_ := type; Extra := extra;
             Destination := []; DestinationKey := dk;
             Source := []; SourceKey := zero_key;
             Watermark := wm; Payload := payload |}, rest)
  | LayoutSnake =>
      ' (plen, rest) <- read_uint16 body ;;
      ' (dk, rest) <- take_bytes PublicKeySize rest ;;
      ' (sk, rest) <- take_bytes PublicKeySize rest ;;
      ' (wm, rest) <- Watermark_UnmarshalBinary rest ;;
      ' (payload, rest) <- take_bytes plen rest ;;
      Ok ({| Version := version; Type_ := type; Extra := extra;
             Destination := []; DestinationKey := dk;
             Source := []; SourceKey := sk;
             Watermark := wm; Payload := payload |}, rest)
  | LayoutTree =>
      ' (plen, rest) <- read_uint16 body ;;
      ' (dst, rest) <- Coordinates_UnmarshalBinary rest ;;
      ' (src, rest) <- Coordinates_UnmarshalBinary rest ;;
      ' (payload, rest) <- take_bytes plen rest ;;
      Ok ({| Version := version; Type_ := type; Extra := extra;
             Destination := dst; DestinationKey := zero_key;
             Source := src; SourceKey := zero_key;
             Watermark := zero_watermark; Payload := payload |}, rest)
  end.

(** Modelled from the spec: [Frame.UnmarshalBinary], missing from the
    tree.  Section 4.1: [unmarshal(bytes)] parses one frame and returns it
    with the consumed length; it fails with [BadMagic],
    [UnsupportedVersion], [Truncated] or [MalformedVarint].  It starts
    from a zero frame, as the tests do, so the fields a layout does not
    carry keep their zero values. *)
Definition UnmarshalBinary (bs : list Z) : result (Frame * Z) :=
  match bs with
  | m0 :: m1 :: m2 :: m3 :: version :: type :: e0 :: e1 :: _ :: _ :: body =>
      if negb (bytes_equal [m0; m1; m2; m3] FrameMagicBytes) then Err BadMagic
      else if negb (version =? Version0) then Err UnsupportedVersion
      else
        ' (f, rest) <- read_body version type [e0; e1] body ;;
        Ok (f, zlen bs - zlen rest)
  | _ => Err Truncated
  end.

(** The sizes of the Go types: ports and sequence numbers are [uint64],
    keys are [[32]byte], and the bytes of a frame's coordinates are
    counted by a [uint16]. *)
Definition is_uint64 (n : Z) : Prop := 0 <= n < 2 ^ 64.

Definition key_ok (k : PublicKey) : Prop := zlen k = PublicKeySize.

Definition coords_ok (c : Coordinates) : Prop :=
  Forall is_uint64 c /\ zlen (flat_map Varu64_MarshalBinary c) < 2 ^ 16.

Definition watermark_ok (w : VirtualSnakeWatermark) : Prop :=
  key_ok (WatermarkPublicKey w) /\ is_uint64 (Sequence w).

(** The frames [UnmarshalBinary] can give back: version 0, fields of the
    sizes of their Go types, a payload a [uint16] can count, and zero
    values in the fields the frame's layout does not carry. *)
Definition well_formed (f : Frame) : Prop :=
  Version f = Version0 /\ is_byte (Type_ f) /\ zlen (Extra f) = 2 /\
  zlen (Payload f) < 2 ^ 16 /\
  match layout_of (Type_ f) with
  | LayoutEmpty =>
      Payload f = [] /\ Destination f = [] /\ Source f = [] /\
      DestinationKey f = zero_key /\ SourceKey f = zero_key /\
      Watermark f = zero_watermark
  | LayoutBootstrap =>
      key_ok (DestinationKey f) /\ watermark_ok (Watermark f) /\
      Destination f = [] /\ Source f = [] /\ SourceKey f = zero_key
  | LayoutSnake =>
      key_ok (DestinationKey f) /\ key_ok (SourceKey f) /\
      watermark_ok (Watermark f) /\ Destination f = [] /\ Source f = []
  | LayoutTree =>
      coords_ok (Destination f) /\ coords_ok (Source f) /\
      DestinationKey f = zero_key /\ SourceKey f = zero_key /\
      Watermark f = zero_watermark
  end.

End Types.

(** ** Peers (package [router], [src/router/simulator.go]) *)

Module Router.

(** [time.Time] and [time.Duration], both in nanoseconds. *)
Definition Time : Type := Z.
Definition Duration : Type := Z.
Definition Second : Duration := 1000000000.
Definition time_Since (now t : Time) : Duration := now - t.

(** Modelled from the spec: [announcementTimeout], a constant of the
    package that is declared outside the files at hand.  Sections 4.2 and 5
    give its value, 45 seconds. *)
Definition announcementTimeout : Duration := 45 * Second.

(** Go [error] values: [errors.New] and wrapping by [fmt.Errorf("...: %w")];
    errors made elsewhere are [errors_New] of their text. *)
Inductive error : Type :=
| errors_New (text : string)
| fmt_Errorf (prefix : string) (wrapped : error).

(** Modelled from the spec: [types.SwitchAnnouncement], declared outside
    the files at hand.  Section 3 gives the root announcement as root key,
    root sequence and signatures, and a signature entry as port, key and
    signature; the field names are those the router code uses. *)
Record SignatureWithHop : Type := {
  Hop : Z;
  SignerPublicKey : Types.PublicKey;
  Signature : list Z
}.

Record SwitchAnnouncement : Type := {
  RootPublicKey : Types.PublicKey;
  Sequence : Z;
  Signatures : list SignatureWithHop
}.

Record rootAnnouncementWithTime : Type := {
  announced : SwitchAnnouncement;
  at_ : Time
}.

(** A Go slice of ports; [None] is the nil slice. *)
Definition SwitchPorts : Type := option (list Z).

Record peerStatistics : Type := {
  txProtoSuccessful : Z;
  txProtoDropped : Z;
  txTrafficSuccessful : Z;
  txTrafficDropped : Z;
  rxDroppedNoDestination : Z
}.

(** [Peer], by the fields its methods below read or write.  [cancelled]
    and [closed] record that the context was cancelled and the connection
    closed. *)
Record Peer : Type := {
  port : Z;
  started : bool;
  alive : bool;
  cancelled : bool;
  closed : bool;
  public : Types.PublicKey;
  coords : SwitchPorts;
  announcement : option rootAnnouncementWithTime;
  statistics : peerStatistics
}.

(** The router a peer points back to: its own key and the root
    announcement its state holds, [r.state._rootAnnouncement()]. *)
Record Router : Type := {
  router_public : Types.PublicKey;
  state_rootAnnouncement : option rootAnnouncementWithTime
}.

Definition reset (s : peerStatistics) : peerStatistics :=
  {| txProtoSuccessful := 0;
     txProtoDropped := 0;
     txTrafficSuccessful := 0;
     txTrafficDropped := 0;
     rxDroppedNoDestination := 0 |}.

(** [Router.RootPublicKey], first half of [src/router/simulator.go]. *)
Definition Router_RootPublicKey (r : Router) : Types.PublicKey :=
  match state_rootAnnouncement r with
  | Some a => RootPublicKey (announced a)
  | None => router_public r
  end.

(** [Peer.lastAnnouncement]; [now] is the clock [time.Since] reads. *)
Definition lastAnnouncement (now : Time) (p : Peer)
  : option rootAnnouncementWithTime :=
  if negb (started p) then None
  else
    match announcement p with
    | Some a =>
        if time_Since now (at_ a) >=? announcementTimeout then None
        else announcement p
    | None => announcement p
    end.

Definition SeenRecently (now : Time) (p : Peer) : bool :=
  match lastAnnouncement now p with
  | Some _ => true
  | None => false
  end.

Definition SeenCommonRootRecently (now : Time) (r : Router) (p : Peer) : bool :=
  if negb (alive p) then false
  else
    match lastAnnouncement now p with
    | None => false
    | Some last =>
        let lpk := RootPublicKey (announced last) in
        let rpk := Router_RootPublicKey r in
        bytes_equal lpk rpk
    end.

Section UpdateAnnouncement.

(** [SwitchAnnouncement.PeerCoords] is declared in package [types],
    outside the files at hand; it returns coordinates and an error. *)
Variable PeerCoords :
  SwitchAnnouncement -> Types.PublicKey -> SwitchPorts * option error.

Definition updateAnnouncement (now : Time) (p : Peer) (new : SwitchAnnouncement)
  : Peer * option error :=
  let '(c, err) := PeerCoords new (public p) in
  match err with
  | Some e =>
      ({| port := port p; started := started p;
          alive := false;
          cancelled := cancelled p; closed := closed p; public := public p;
          coords := None;
          announcement := None;
          statistics := statistics p |},
       Some (fmt_Errorf "new.PeerCoords" e))
  | None =>
      ({| port := port p; started := started p;
          alive := true;
          cancelled := cancelled p; closed := closed p; public := public p;
          coords := c;
          announcement := Some {| announced := new; at_ := now |};
          statistics := statistics p |},
       None)
  end.

End UpdateAnnouncement.

(** [Peer.stop]: the compare-and-swap on [started], then [alive], the
    context and the connection. *)
Definition stop (p : Peer) : Peer * option error :=
  if negb (started p) then
    (p, Some (errors_New "switch peer is already stopped"))
  else
    ({| port := port p;
        started := false;
        alive := false;
        cancelled := true;
        closed := true;
        public := public p; coords := coords p;
        announcement := announcement p;
        statistics := statistics p |},
     None).

(** *** The reader loop *)

(** The frame types [Peer.reader] switches on.  Their numeric values are
    constants of package [types] that the files at hand do not show. *)
Record frameTypes : Type := {
  TypeVirtualSnakeBootstrap : Z;
  TypeVirtualSnakeBootstrapACK : Z;
  TypeVirtualSnakeSetup : Z;
  TypeVirtualSnakeTeardown : Z;
  TypeVirtualSnake : Z;
  TypeVirtualSnakePathfind : Z
}.

(** What one turn of the [for] loop comes to, when the context is not
    done. *)
Inductive outcome : Type :=
| Disconnect (reason : string)               (* p.r.Disconnect(...); return *)
| Resync (rest : list Z)                     (* Discard(1); continue *)
| Forward (frame : Types.Frame) (rest : list Z) (* frame handed on; continue *)
| Return_ (rest : list Z)                    (* frame.Done(); return *)
| Panic.                                     (* buf[:expecting] out of range *)

(** The bytes of one turn, before unmarshalling. *)
Inductive readResult : Type :=
| PeekFailed
| NoMagic (rest : list Z)
| SliceOutOfRange
| ReadFailed
| FrameRead (buf rest : list Z).

Section Reader.

Variable types : frameTypes.

(** [MaxFrameSize], the length of the reader's buffer, and
    [Frame.UnmarshalBinary] come from outside the files at hand. *)
Variable MaxFrameSize : Z.
Variable UnmarshalBinary : list Z -> Types.result (Types.Frame * Z).

Definition ed25519_PublicKeySize : Z := 32.

(** The [switch] over [header[1]], on [header = header[4:]]. *)
Definition expecting (header : list Z) : Z :=
  let h (i : nat) := nth i header 0 in
  let t := h 1%nat in
  if t =? TypeVirtualSnakeBootstrap types then
    let payloadLen := BigEndian_Uint16 (h 2%nat) (h 3%nat) in
    let coordsLen := BigEndian_Uint16 (h 4%nat) (h 5%nat) in
    10 + coordsLen + payloadLen + ed25519_PublicKeySize
  else if t =? TypeVirtualSnakeBootstrapACK types then
    let payloadLen := BigEndian_Uint16 (h 2%nat) (h 3%nat) in
    let dstLen := BigEndian_Uint16 (h 4%nat) (h 5%nat) in
    let srcLen := BigEndian_Uint16 (h 6%nat) (h 7%nat) in
    12 + dstLen + srcLen + payloadLen + (ed25519_PublicKeySize * 2)
  else if t =? TypeVirtualSnakeSetup types then
    let payloadLen := BigEndian_Uint16 (h 2%nat) (h 3%nat) in
    let coordsLen := BigEndian_Uint16 (h 4%nat) (h 5%nat) in
    10 + coordsLen + (ed25519_PublicKeySize * 2) + payloadLen
  else if t =? TypeVirtualSnakeTeardown types then
    let payloadLen := BigEndian_Uint16 (h 2%nat) (h 3%nat) in
    8 + payloadLen + ed25519_PublicKeySize
  else if (t =? TypeVirtualSnake types) || (t =? TypeVirtualSnakePathfind types) then
    let payloadLen := BigEndian_Uint16 (h 2%nat) (h 3%nat) in
    8 + payloadLen + (ed25519_PublicKeySize * 2)
  else
    let dstLen := BigEndian_Uint16 (h 2%nat) (h 3%nat) in
    let srcLen := BigEndian_Uint16 (h 4%nat) (h 5%nat) in
    let payloadLen := BigEndian_Uint16 (h 6%nat) (h 7%nat) in
    12 + dstLen + srcLen + payloadLen.

(** [p.conn.Peek(12)], the magic test and [io.ReadFull(p.conn,
    buf[:expecting])].  The connection is the finite list of bytes still
    to come, ending in EOF: [Peek] fails when fewer than 12 are left and
    [ReadFull] fails with an (unexpected) EOF when fewer than [expecting]
    are; reads fail in no other way, so the [continue] branches after
    [ReadFull] are not taken. *)
Definition reader_read (stream : list Z) : readResult :=
  if zlen stream <? 12 then PeekFailed
  else
    let header := firstn 12 stream in
    if negb (bytes_equal (firstn 4 header) Types.FrameMagicBytes) then
      NoMagic (skipn 1 stream)
    else
      let header := skipn 4 header in
      let expecting := expecting header in
      if MaxFrameSize <? expecting then SliceOutOfRange
      else if zlen stream <? expecting then ReadFailed
      else FrameRead (firstn (Z.to_nat expecting) stream)
                     (skipn (Z.to_nat expecting) stream).

(** The rest of the turn: unmarshal, the version test, and the closure
    that hands the frame to its next hop. *)
Definition reader_step (stream : list Z) : outcome :=
  match reader_read stream with
  | PeekFailed => Disconnect "p.conn.Peek"
  | NoMagic rest => Resync rest
  | SliceOutOfRange => Panic
  | ReadFailed => Disconnect "io.ReadFull"
  | FrameRead buf rest =>
      match UnmarshalBinary buf with
      | Types.Err _ => Return_ rest
      | Types.Ok (frame, _) =>
          if negb (Types.Version frame =? Types.Version0) then Return_ rest
          else Forward frame rest
      end
  end.

(** The [for] loop of [reader] while the context is not done: the
    frames it hands on, in order, and how it ends.  [None] is a loop
    that has not ended after [fuel] turns. *)
Fixpoint reader (fuel : nat) (stream : list Z)
  : option (list Types.Frame * outcome) :=
  match fuel with
  | O => None
  | S fuel' =>
      match reader_step stream with
      | Resync rest => reader fuel' rest
      | Forward frame rest =>
          match reader fuel' rest with
          | Some (frames, last) => Some (frame :: frames, last)
          | None => None
          end
      | last => Some ([], last)
      end
  end.

End Reader.

End Router.

(** ** The rest of the peer link ([src/router/simulator.go], second half) *)

(** [atomic.Uint64.Inc]. *)
Definition Inc (x : Z) : Z := (x + 1) mod 2 ^ 64.

(** [l[i] = x] on a slice; nothing changes when [i] is out of range (the
    callers below look [l[i]] up first). *)
Fixpoint set_nth {A} (i : nat) (x : A) (l : list A) : list A :=
  match l, i with
  | [], _ => []
  | _ :: l', O => x :: l'
  | y :: l', S i' => y :: set_nth i' x l'
  end.

Module Link.

Import Router.

(** A peer with one field replaced. *)
Definition with_lifecycle (p : Peer) (s a : bool) : Peer :=
  {| port := port p; started := s; alive := a;
     cancelled := cancelled p; closed := closed p; public := public p;
     coords := coords p; announcement := announcement p;
     statistics := statistics p |}.

Definition with_statistics (p : Peer) (s : peerStatistics) : Peer :=
  {| port := port p; started := started p; alive := alive p;
     cancelled := cancelled p; closed := closed p; public := public p;
     coords := coords p; announcement := announcement p;
     statistics := s |}.

Section GenerateAnnouncement.

(** What [generateAnnouncement] takes from the router and from package
    [types], all outside the files at hand: the router's key
    [p.r.public], the root announcement [p.r.tree.Root()],
    [PublicKey.EqualTo], [SwitchAnnouncement.Sign] (which signs in place
    and returns an error) and [SwitchAnnouncement.MarshalBinary] (the
    bytes [payload[:n]] and an error), the frame [types.GetFrame()] hands
    out, and the code of [types.TypeSTP]. *)
Variable r_public : Types.PublicKey.
Variable tree_Root : SwitchAnnouncement.
Variable EqualTo : Types.PublicKey -> Types.PublicKey -> bool.
Variable Sign : SwitchAnnouncement -> Z -> SwitchAnnouncement * option error.
Variable MarshalBinary : SwitchAnnouncement -> list Z * option error.
Variable GetFrame : Types.Frame.
Variable TypeSTP : Z.

Definition generateAnnouncement (p : Peer) : option Types.Frame :=
  if port p =? 0 then None
  else
    let announcement := tree_Root in
    if existsb (fun sig => EqualTo r_public (SignerPublicKey sig))
               (Signatures announcement)
    then None
    else
      match Sign announcement (port p) with
      | (_, Some _) => None
      | (announcement, None) =>
          match MarshalBinary announcement with
          | (_, Some _) => None
          | (payload, None) =>
              Some {| Types.Version := Types.Version0;
                      Types.Type_ := TypeSTP;
                      Types.Extra := Types.Extra GetFrame;
                      Types.Destination := [];
                      Types.DestinationKey := Types.DestinationKey GetFrame;
                      Types.Source := Types.Source GetFrame;
                      Types.SourceKey := Types.SourceKey GetFrame;
                      Types.Watermark := Types.Watermark GetFrame;
                      Types.Payload := payload |}
          end
      end.

(** [Peer.start]: the compare-and-swap on [started], [alive], the three
    goroutines (not represented), and the announcement sent on
    [p.announce], if there is one. *)
Definition start (p : Peer) : Peer * option error * option Types.Frame :=
  if started p then
    (p, Some (errors_New "switch peer is already started"), None)
  else
    let p := with_lifecycle p true false in
    (p, None, generateAnnouncement p).

End GenerateAnnouncement.

(** *** Forwarding a received frame *)

(** The frame types the forwarding [switch] names beyond those of
    [frameTypes]; constants of package [types]. *)
Record forwardTypes : Type := {
  TypePathfind : Z;
  TypeDHTRequest : Z;
  TypeDHTResponse : Z;
  TypeGreedy : Z;
  TypeSource : Z
}.

(** The three [case]s of the [switch frame.Type], and no case at all. *)
Inductive frameCase : Type :=
| CasePathfind
| CaseProto
| CaseTraffic
| CaseNone.

Section Forward.

(** The queues ([lifoQueue], [fifoQueue]) and their [push], which reports
    whether the frame was taken, are outside the files at hand, like
    [Router.signPathfind] and [PublicKey.EqualTo]. *)
Variable Q : Type.
Variable lifo_push : Q -> Types.Frame -> Q * bool.
Variable fifo_push : Q -> Types.Frame -> Q * bool.
Variable signPathfind :
  Types.Frame -> Peer -> Peer -> option Types.Frame * option error.
Variable EqualTo : Types.PublicKey -> Types.PublicKey -> bool.
Variable types : frameTypes.
Variable ftypes : forwardTypes.

(** A slot of [r.ports]: the peer and its two queues. *)
Record portEntry : Type := {
  entry_peer : Peer;
  trafficOut : Q;
  protoOut : Q
}.

Definition frame_case (t : Z) : frameCase :=
  if (t =? TypePathfind ftypes) || (t =? TypeVirtualSnakePathfind types)
  then CasePathfind
  else if (t =? TypeDHTRequest ftypes) || (t =? TypeDHTResponse ftypes)
          || (t =? TypeVirtualSnakeBootstrap types)
          || (t =? TypeVirtualSnakeBootstrapACK types)
          || (t =? TypeVirtualSnakeSetup types)
          || (t =? TypeVirtualSnakeTeardown types)
  then CaseProto
  else if (t =? TypeGreedy ftypes) || (t =? TypeSource ftypes)
          || (t =? TypeVirtualSnake types)
  then CaseTraffic
  else CaseNone.

(** The two tests that make the loop skip a port. *)
Definition not_ready (dest : Peer) : bool :=
  negb (started dest) || (negb (port dest =? 0) && negb (alive dest)).

Definition same_peer (p dest : Peer) : bool :=
  negb (port p =? 0) && negb (port dest =? 0)
  && ((port p =? port dest) || EqualTo (public p) (public dest)).

Definition count_traffic (ok : bool) (s : peerStatistics) : peerStatistics :=
  {| txProtoSuccessful := txProtoSuccessful s;
     txProtoDropped := txProtoDropped s;
     txTrafficSuccessful :=
       if ok then Inc (txTrafficSuccessful s) else txTrafficSuccessful s;
     txTrafficDropped :=
       if ok then txTrafficDropped s else Inc (txTrafficDropped s);
     rxDroppedNoDestination := rxDroppedNoDestination s |}.

Definition count_proto (ok : bool) (s : peerStatistics) : peerStatistics :=
  {| txProtoSuccessful :=
       if ok then Inc (txProtoSuccessful s) else txProtoSuccessful s;
     txProtoDropped :=
       if ok then txProtoDropped s else Inc (txProtoDropped s);
     txTrafficSuccessful := txTrafficSuccessful s;
     txTrafficDropped := txTrafficDropped s;
     rxDroppedNoDestination := rxDroppedNoDestination s |}.

Definition count_no_destination (s : peerStatistics) : peerStatistics :=
  {| txProtoSuccessful := txProtoSuccessful s;
     txProtoDropped := txProtoDropped s;
     txTrafficSuccessful := txTrafficSuccessful s;
     txTrafficDropped := txTrafficDropped s;
     rxDroppedNoDestination := Inc (rxDroppedNoDestination s) |}.

(** [dest.trafficOut.push(f)] and [dest.protoOut.push(f)] with the
    counter that follows each. *)
Definition push_traffic (de : portEntry) (f : Types.Frame) : portEntry * bool :=
  let '(q, sent) := lifo_push (trafficOut de) f in
  ({| entry_peer :=
        with_statistics (entry_peer de)
                        (count_traffic sent (statistics (entry_peer de)));
      trafficOut := q; protoOut := protoOut de |}, sent).

Definition push_proto (de : portEntry) (f : Types.Frame) : portEntry * bool :=
  let '(q, sent) := fifo_push (protoOut de) f in
  ({| entry_peer :=
        with_statistics (entry_peer de)
                        (count_proto sent (statistics (entry_peer de)));
      trafficOut := trafficOut de; protoOut := q |}, sent).

(** One turn of [for _, port := range p.getNextHops(frame, p.port)], for
    the peer in slot [self]: the ports after it and the value of [sent];
    [None] is the panic of an index outside [r.ports]. *)
Definition try_port (self : nat) (frame : Types.Frame)
           (ports : list portEntry) (hop : Z)
  : option (list portEntry * bool) :=
  match nth_error ports self,
        (if hop <? 0 then None else nth_error ports (Z.to_nat hop)) with
  | Some pe, Some de =>
      let p := entry_peer pe in
      let dest := entry_peer de in
      if not_ready dest then Some (ports, false)
      else if same_peer p dest then Some (ports, false)
      else
        match frame_case (Types.Type_ frame) with
        | CasePathfind =>
            match signPathfind frame p dest with
            | (_, Some _) => Some (ports, false)
            | (None, None) => Some (ports, false)
            | (Some signedframe, None) =>
                let '(de', sent) := push_traffic de signedframe in
                Some (set_nth (Z.to_nat hop) de' ports, sent)
            end
        | CaseProto =>
            let '(de', sent) := push_proto de frame in
            Some (set_nth (Z.to_nat hop) de' ports, sent)
        | CaseTraffic =>
            let '(de', sent) := push_traffic de frame in
            Some (set_nth (Z.to_nat hop) de' ports, sent)
        | CaseNone => Some (ports, false)
        end
  | _, _ => None
  end.

(** The loop: it ends at the first frame a queue takes. *)
Fixpoint forward_loop (self : nat) (frame : Types.Frame) (hops : list Z)
         (ports : list portEntry) : option (list portEntry * bool) :=
  match hops with
  | [] => Some (ports, false)
  | hop :: hops' =>
      match try_port self frame ports hop with
      | None => None
      | Some (ports', true) => Some (ports', true)
      | Some (ports', false) => forward_loop self frame hops' ports'
      end
  end.

(** The closure [func(frame *types.Frame) { ... }(frame)] of the reader,
    with its deferred count of frames that found no destination; [hops]
    is [p.getNextHops(frame, p.port)]. *)
Definition forward (self : nat) (frame : Types.Frame) (hops : list Z)
           (ports : list portEntry) : option (list portEntry * bool) :=
  match forward_loop self frame hops ports with
  | None => None
  | Some (ports', true) => Some (ports', true)
  | Some (ports', false) =>
      match nth_error ports' self with
      | None => None
      | Some pe =>
          let p := with_statistics (entry_peer pe)
                     (count_no_destination (statistics (entry_peer pe))) in
          Some (set_nth self
                  {| entry_peer := p; trafficOut := trafficOut pe;
                     protoOut := protoOut pe |} ports', false)
      end
  end.

End Forward.

Arguments entry_peer {Q} _.
Arguments trafficOut {Q} _.
Arguments protoOut {Q} _.

(** *** Writing a frame *)

(** One answer of [p.conn.Write(remaining)]: the number of bytes taken
    and whether an error came with it. *)
Record writeAnswer : Type := {
  taken : Z;
  failed : bool
}.

(** How [send] ends.  [wire] is what the connection has taken. *)
Inductive sendOutcome : Type :=
| SendNothing                       (* frame == nil *)
| SendMarshalError                  (* MarshalBinary failed; return err *)
| SendPanic                         (* no magic, or remaining[n:] out of range *)
| SendDisconnect (wire : list Z)    (* Write failed; Disconnect; return err *)
| SendFlushed (wire : list Z)       (* all written; Flush; return nil *)
| SendWaiting (wire : list Z).      (* the connection answers no more *)

(** [for len(remaining) > 0 { n, err := p.conn.Write(remaining) ... }];
    the connection is the list of its answers to come. *)
Fixpoint write_loop (answers : list writeAnswer) (remaining wire : list Z)
  : sendOutcome :=
  match remaining with
  | [] => SendFlushed wire
  | _ :: _ =>
      match answers with
      | [] => SendWaiting wire
      | a :: answers' =>
          let wire := wire ++ firstn (Z.to_nat (taken a)) remaining in
          if failed a then SendDisconnect wire
          else if (taken a <? 0) || (zlen remaining <? taken a) then SendPanic
          else write_loop answers' (skipn (Z.to_nat (taken a)) remaining) wire
      end
  end.

Section Send.

(** [Frame.MarshalBinary(buf)], outside the files at hand, gives the
    bytes [buf[:fn]] or an error; [pool_buf] is the buffer [bufPool]
    hands out, whose bytes from [fn] on stay as they were. *)
Variable MarshalBinary : Types.Frame -> Types.result (list Z).
Variable pool_buf : list Z.

Definition send (frame : option Types.Frame) (answers : list writeAnswer)
  : sendOutcome :=
  match frame with
  | None => SendNothing
  | Some frame =>
      match MarshalBinary frame with
      | Types.Err _ => SendMarshalError
      | Types.Ok marshalled =>
          let buf := marshalled ++ skipn (length marshalled) pool_buf in
          if negb (bytes_equal (firstn 4 buf) Types.FrameMagicBytes)
          then SendPanic
          else write_loop answers marshalled []
      end
  end.

End Send.

(** *** Sorting peers *)

(** The fields of [Peer] that [peers.Less] reads, beside the peer of
    [Router.Peer]. *)
Record sortablePeer : Type := {
  the_peer : Peer;
  zone : string;
  peertype : Z
}.

Definition peers : Type := list sortablePeer.

Definition Len (p : peers) : Z := zlen p.

(** [p[i], p[j] = p[j], p[i]]; [None] is the panic of an index out of
    range. *)
Definition Swap (p : peers) (i j : nat) : option peers :=
  match nth_error p i, nth_error p j with
  | Some pi, Some pj => Some (set_nth j pi (set_nth i pj p))
  | _, _ => None
  end.

Definition Less (p : peers) (i j : nat) : option bool :=
  match nth_error p i, nth_error p j with
  | Some pi, Some pj =>
      if peertype pi <? peertype pj then Some true
      else Some (port (the_peer pi) <? port (the_peer pj))
  | _, _ => None
  end.

End Link.

(** ** The router's read-only views ([src/router/simulator.go], first half) *)

(** Go's [int] (64 bits, two's complement): [a + b]. *)
Definition int_add (a b : Z) : Z := (a + b + 2 ^ 63) mod 2 ^ 64 - 2 ^ 63.

Module Shell.

(** The key and the entries of the router's snake table are declared
    outside the files at hand; they are taken with the fields that
    [DHTInfo], [Ascending] and [Descending] read: [k.PublicKey],
    [desc.PublicKey] and [desc.PathID] (the entry embeds its index),
    [v.RootPublicKey] and [v.RootSequence]. *)
Record virtualSnakeIndex : Type := {
  PublicKey : Types.PublicKey;
  PathID : list Z
}.

Record virtualSnakeEntry : Type := {
  Index : virtualSnakeIndex;
  RootPublicKey : Types.PublicKey;
  RootSequence : Z
}.

(** A Go map in one of the orders [range] may go through it. *)
Definition table : Type := list (virtualSnakeIndex * virtualSnakeEntry).

(** [dupes := map[types.PublicKey]int{}], [dupes[k]++] and
    [c, ok := dupes[k]]. *)
Definition counts : Type := list (Types.PublicKey * Z).

Fixpoint increment (dupes : counts) (k : Types.PublicKey) : counts :=
  match dupes with
  | [] => [(k, int_add 0 1)]
  | (k', c) :: dupes' =>
      if bytes_equal k' k then (k', int_add c 1) :: dupes'
      else (k', c) :: increment dupes' k
  end.

Fixpoint lookup (dupes : counts) (k : Types.PublicKey) : option Z :=
  match dupes with
  | [] => None
  | (k', c) :: dupes' => if bytes_equal k' k then Some c else lookup dupes' k
  end.

(** [for k := range r.state._table { dupes[k.PublicKey]++ }]. *)
Definition count_keys (t : table) : counts :=
  fold_left (fun dupes kv => increment dupes (PublicKey (fst kv))) t [].

(** One turn of the second loop on [stale]; [None] is the panic of
    [ann.RootPublicKey] on a nil [ann]. *)
Definition stale_step (ann : option Router.rootAnnouncementWithTime)
           (dupes : counts) (stale : Z)
           (kv : virtualSnakeIndex * virtualSnakeEntry) : option Z :=
  let '(k, v) := kv in
  let stale :=
    match lookup dupes (PublicKey k) with
    | Some c => if c >? 1 then int_add stale 1 else stale
    | None => stale
    end in
  match ann with
  | None => None
  | Some ann =>
      if negb (bytes_equal (RootPublicKey v)
                           (Router.RootPublicKey (Router.announced ann)))
      then Some (int_add stale 1)
      else if negb (RootSequence v =? Router.Sequence (Router.announced ann))
      then Some (int_add stale 1)
      else Some stale
  end.

Fixpoint stale_loop (ann : option Router.rootAnnouncementWithTime)
         (dupes : counts) (t : table) (stale : Z) : option Z :=
  match t with
  | [] => Some stale
  | kv :: t' =>
      match stale_step ann dupes stale kv with
      | None => None
      | Some stale => stale_loop ann dupes t' stale
      end
  end.

(** The router state [DHTInfo] reads; [first] and [second] are the
    orders in which its two loops go through [r.state._table]. *)
Record state : Type := {
  _rootAnnouncement : option Router.rootAnnouncementWithTime;
  _ascending : option virtualSnakeEntry;
  _descending : option virtualSnakeEntry
}.

(** [Router.DHTInfo]: [asc], [desc], the copy of the table and [stale];
    [None] is a panic. *)
Definition DHTInfo (s : state) (first second : table)
  : option (option virtualSnakeEntry * option virtualSnakeEntry * table * Z) :=
  let ann := _rootAnnouncement s in
  let dupes := count_keys first in
  match stale_loop ann dupes second 0 with
  | None => None
  | Some stale => Some (_ascending s, _descending s, second, stale)
  end.

(** [Router.Descending] and [Router.Ascending]. *)
Definition Descending (s : state) (first second : table)
  : option (option (Types.PublicKey * list Z)) :=
  match DHTInfo s first second with
  | None => None
  | Some (_, desc, _, _) =>
      Some (match desc with
            | None => None
            | Some desc => Some (PublicKey (Index desc), PathID (Index desc))
            end)
  end.

Definition Ascending (s : state) (first second : table)
  : option (option (Types.PublicKey * list Z)) :=
  match DHTInfo s first second with
  | None => None
  | Some (asc, _, _, _) =>
      Some (match asc with
            | None => None
            | Some asc => Some (PublicKey (Index asc), PathID (Index asc))
            end)
  end.

(** *** The list of peers *)

(** The [peer] of [r.state._peers], by the fields [Peers] reads, and
    [PeerInfo]. *)
Record peer : Type := {
  started : bool;
  port : Z;
  peertype : Z;
  public : Types.PublicKey;
  zone : string
}.

Record PeerInfo : Type := {
  Port : Z;
  PeerPublicKey : string;
  PeerRootPublicKey : string;
  PeerType : Z;
  Zone : string
}.

Section Peers.

(** [types.PublicKey.String], outside the files at hand. *)
Variable String_ : Types.PublicKey -> string.

(** One slot of [r.state._peers]: [None] is a nil pointer, and a peer
    comes with its entry [r.state._announcements[p]], if it has one. *)
Definition slot : Type :=
  option (peer * option Router.rootAnnouncementWithTime).

Definition Peers (r_public : Types.PublicKey) (_peers : list slot)
  : list PeerInfo :=
  fold_left
    (fun peers (s : slot) =>
       match s with
       | None => peers
       | Some (p, ann) =>
           if negb (started p) then peers
           else
             let root :=
               match ann with
               | Some a => String_ (Router.RootPublicKey (Router.announced a))
               | None => EmptyString
               end in
             let root :=
               if String.eqb root EmptyString then String_ r_public
               else root in
             peers ++ [{| Port := port p;
                          PeerPublicKey := String_ (public p);
                          PeerRootPublicKey := root;
                          PeerType := peertype p;
                          Zone := zone p |}]
       end)
    _peers [].

End Peers.

(** [Router.ParentPublicKey] and [Router.IsRoot]; [parent] is
    [r.state._parent]. *)
Definition ParentPublicKey (r : Router.Router) (parent : option peer)
  : Types.PublicKey :=
  match parent with
  | None => Router.router_public r
  | Some parent => public parent
  end.

Definition IsRoot (r : Router.Router) : bool :=
  bytes_equal (Router.Router_RootPublicKey r) (Router.router_public r).

End Shell.

(** ** Auxiliary notions and the data of the examples *)

(** Two states of a peer that differ at most in the statistics. *)
Definition same_identity (a b : Router.Peer) : Prop :=
  Router.port b = Router.port a /\
  Router.started b = Router.started a /\
  Router.alive b = Router.alive a /\
  Router.public b = Router.public a /\
  Router.coords b = Router.coords a /\
  Router.announcement b = Router.announcement a /\
  Router.cancelled b = Router.cancelled a /\
  Router.closed b = Router.closed a.

(** A slot whose queues and transmit counters are as before. *)
Definition untouched {Q} (e e' : Link.portEntry Q) : Prop :=
  Link.trafficOut e' = Link.trafficOut e /\
  Link.protoOut e' = Link.protoOut e /\
  Router.txTrafficSuccessful (Router.statistics (Link.entry_peer e'))
    = Router.txTrafficSuccessful (Router.statistics (Link.entry_peer e)) /\
  Router.txTrafficDropped (Router.statistics (Link.entry_peer e'))
    = Router.txTrafficDropped (Router.statistics (Link.entry_peer e)) /\
  Router.txProtoSuccessful (Router.statistics (Link.entry_peer e'))
    = Router.txProtoSuccessful (Router.statistics (Link.entry_peer e)) /\
  Router.txProtoDropped (Router.statistics (Link.entry_peer e'))
    = Router.txProtoDropped (Router.statistics (Link.entry_peer e)).

(** The ports the forwarding loop passes over for a frame that came in
    on peer [p]. *)
Definition skipped (EqualTo : Types.PublicKey -> Types.PublicKey -> bool)
           (p dest : Router.Peer) : bool :=
  Link.not_ready dest || Link.same_peer EqualTo p dest.

(** The successes a slot has counted, and the frames it has counted as
    without destination. *)
Definition sent_counters {Q} (e : Link.portEntry Q) : Z * Z :=
  (Router.txTrafficSuccessful (Router.statistics (Link.entry_peer e)),
   Router.txProtoSuccessful (Router.statistics (Link.entry_peer e))).

Definition no_destination_counter {Q} (e : Link.portEntry Q) : Z :=
  Router.rxDroppedNoDestination (Router.statistics (Link.entry_peer e)).

(** What the loop keeps in every slot as long as no queue has taken the
    frame. *)
Definition quiet {Q} (EqualTo : Types.PublicKey -> Types.PublicKey -> bool)
           (p : Router.Peer) (e e' : Link.portEntry Q) : Prop :=
  same_identity (Link.entry_peer e) (Link.entry_peer e') /\
  no_destination_counter e' = no_destination_counter e /\
  sent_counters e' = sent_counters e /\
  (skipped EqualTo p (Link.entry_peer e) = true -> untouched e e').

(** The one success of a frame that was forwarded. *)
Definition one_more (before after : Z * Z) : Prop :=
  after = (Inc (fst before), snd before) \/
  after = (fst before, Inc (snd before)).

(** What a push does to the slot it is made on: one more success if the
    queue took the frame, and the same peer otherwise. *)
Definition pushed {Q} (sent : bool) (de de' : Link.portEntry Q) : Prop :=
  same_identity (Link.entry_peer de) (Link.entry_peer de') /\
  no_destination_counter de' = no_destination_counter de /\
  (if sent then one_more (sent_counters de) (sent_counters de')
   else sent_counters de' = sent_counters de).


(** Every predicate on bytes that computes can be settled by running it
    on the 256 bytes. *)
Definition all_bytes : list Z := map Z.of_nat (seq 0 256).

(** The number a run of groups stands for, most-significant first. *)
Definition group_step (a g : Z) : Z := a * 128 + g mod 128.

(** Bytes with the continuation bit set. *)
Definition is_cont (g : Z) : Prop := 128 <= g < 256.

(** Counters at zero, and a started peer that has seen nothing yet. *)
Definition no_statistics : Router.peerStatistics :=
  {| Router.txProtoSuccessful := 0; Router.txProtoDropped := 0;
     Router.txTrafficSuccessful := 0; Router.txTrafficDropped := 0;
     Router.rxDroppedNoDestination := 0 |}.

Definition fresh_peer : Router.Peer :=
  {| Router.port := 1; Router.started := true; Router.alive := false;
     Router.cancelled := false; Router.closed := false;
     Router.public := Types.zero_key; Router.coords := None;
     Router.announcement := None; Router.statistics := no_statistics |}.

Definition root_announcement : Router.SwitchAnnouncement :=
  {| Router.RootPublicKey := Types.zero_key; Router.Sequence := 1;
     Router.Signatures := [] |}.

(** A [PeerCoords] to run [updateAnnouncement] with: the hops of the
    signatures, and an error when there is none. *)
Definition ports_of_signatures
  (a : Router.SwitchAnnouncement) (_ : Types.PublicKey)
  : Router.SwitchPorts * option Router.error :=
  match Router.Signatures a with
  | [] => (None, Some (Router.errors_New "no signatures"))
  | sigs => (Some (map Router.Hop sigs), None)
  end.

(** A peer that received an announcement at time 0 and was then
    stopped. *)
Definition announced_then_stopped : Router.Peer :=
  fst (Router.stop
         (fst (Router.updateAnnouncement (fun _ _ => (Some [1], None))
                 0 fresh_peer root_announcement))).

(** A started peer with traffic behind it. *)
Definition busy_peer : Router.Peer :=
  {| Router.port := 1; Router.started := true; Router.alive := true;
     Router.cancelled := false; Router.closed := false;
     Router.public := Types.zero_key; Router.coords := Some [1];
     Router.announcement := None;
     Router.statistics :=
       {| Router.txProtoSuccessful := 3; Router.txProtoDropped := 1;
          Router.txTrafficSuccessful := 7; Router.txTrafficDropped := 2;
          Router.rxDroppedNoDestination := 5 |} |}.

Definition signed_announcement : Router.SwitchAnnouncement :=
  {| Router.RootPublicKey := Types.zero_key; Router.Sequence := 1;
     Router.Signatures :=
       [{| Router.Hop := 4; Router.SignerPublicKey := Types.zero_key;
           Router.Signature := [] |}] |}.

(** An assignment of the frame type codes to run the reader on.  3 and 4
    are the codes section 3 gives for Bootstrap and SNEK Routed; the
    sources give no code for the other four, which are put above the
    codes of the table.  [reader_length_needs_bytes_10_11] below does not
    depend on the assignment. *)
Definition example_types : Router.frameTypes :=
  {| Router.TypeVirtualSnakeBootstrap := 3;
     Router.TypeVirtualSnakeBootstrapACK := 9;
     Router.TypeVirtualSnakeSetup := 10;
     Router.TypeVirtualSnakeTeardown := 11;
     Router.TypeVirtualSnake := 4;
     Router.TypeVirtualSnakePathfind := 12 |}.

Definition example_MaxFrameSize : Z := 65535.

(** Two frames of type 2 that differ in the byte at offset 11 only. *)
Definition short_frame : list Z :=
  [0x70; 0x69; 0x6e; 0x65; 0; 2; 0; 0; 0; 0; 0; 0].
Definition long_frame : list Z :=
  [0x70; 0x69; 0x6e; 0x65; 0; 2; 0; 0; 0; 0; 0; 1; 0x41].

(** The codes the [switch] of the reader names. *)
Definition switch_codes (types : Router.frameTypes) : list Z :=
  [Router.TypeVirtualSnakeBootstrap types;
   Router.TypeVirtualSnakeBootstrapACK types;
   Router.TypeVirtualSnakeSetup types;
   Router.TypeVirtualSnakeTeardown types;
   Router.TypeVirtualSnake types;
   Router.TypeVirtualSnakePathfind types].

(** An [UnmarshalBinary] that accepts every version and reports the
    version byte it finds, to run the reader's own version test. *)
Definition unmarshal_any_version (buf : list Z)
  : Types.result (Types.Frame * Z) :=
  Types.Ok ({| Types.Version := nth 4 buf 0; Types.Type_ := nth 5 buf 0;
               Types.Extra := []; Types.Destination := [];
               Types.DestinationKey := Types.zero_key; Types.Source := [];
               Types.SourceKey := Types.zero_key;
               Types.Watermark := Types.zero_watermark;
               Types.Payload := [] |}, zlen buf).

(** Twelve bytes with the magic, version 1, type 2 and all lengths 0,
    followed by the first bytes of a next frame. *)
Definition version_1_frame : list Z :=
  [0x70; 0x69; 0x6e; 0x65; 1; 2; 0; 0; 0; 0; 0; 0].
Definition version_1_stream : list Z :=
  version_1_frame ++ [0x70; 0x69; 0x6e; 0x65].

(** The frame of scenario S1 and of [TestMarshalUnmarshalFrame]. *)
Definition tree_routed_frame : Types.Frame :=
  {| Types.Version := Types.Version0;
     Types.Type_ := Types.TypeTreeRouted;
     Types.Extra := [0; 0];
     Types.Destination := [1; 2; 3; 4; 5000];
     Types.DestinationKey := Types.zero_key;
     Types.Source := [4; 3; 2; 1];
     Types.SourceKey := Types.zero_key;
     Types.Watermark := Types.zero_watermark;
     Types.Payload := [0x41; 0x42; 0x43; 0x44; 0x45; 0x46; 0x47] |}.

(** The frame of scenario S2 and of
    [TestMarshalUnmarshalSNEKBootstrapFrame], for the keys [dk] and [wk]. *)
Definition bootstrap_frame (dk wk : Types.PublicKey) : Types.Frame :=
  {| Types.Version := Types.Version0;
     Types.Type_ := Types.TypeVirtualSnakeBootstrap;
     Types.Extra := [0; 0];
     Types.Destination := [];
     Types.DestinationKey := dk;
     Types.Source := [];
     Types.SourceKey := Types.zero_key;
     Types.Watermark :=
       {| Types.WatermarkPublicKey := wk; Types.Sequence := 100 |};
     Types.Payload := [9; 9; 9; 9; 9] |}.

(** The frame of [TestMarshalUnmarshalSNEKFrame], for the keys [dk],
    [sk] and [wk]. *)
Definition snake_frame (dk sk wk : Types.PublicKey) : Types.Frame :=
  {| Types.Version := Types.Version0;
     Types.Type_ := Types.TypeVirtualSnakeRouted;
     Types.Extra := [0; 0];
     Types.Destination := [];
     Types.DestinationKey := dk;
     Types.Source := [];
     Types.SourceKey := sk;
     Types.Watermark :=
       {| Types.WatermarkPublicKey := wk; Types.Sequence := 100 |};
     Types.Payload := [0x48; 0x45; 0x4c; 0x4c; 0x4f; 0x21] |}.

(** A started peer that stored [signed_announcement] at time 7, and a
    router without a root announcement, whose root key is its own key. *)
Definition live_peer : Router.Peer :=
  fst (Router.updateAnnouncement ports_of_signatures 7 fresh_peer
                                 signed_announcement).

Definition rootless_router : Router.Router :=
  {| Router.router_public := Types.zero_key;
     Router.state_rootAnnouncement := None |}.

(** What [generateAnnouncement] needs, to run [start] on: a tree whose
    root announcement is [root_announcement], a signature that appends a
    hop, and a payload of one byte per signature. *)
Definition sign_hop (a : Router.SwitchAnnouncement) (port : Z)
  : Router.SwitchAnnouncement * option Router.error :=
  ({| Router.RootPublicKey := Router.RootPublicKey a;
      Router.Sequence := Router.Sequence a;
      Router.Signatures :=
        Router.Signatures a
        ++ [{| Router.Hop := port;
               Router.SignerPublicKey := repeat 1 32;
               Router.Signature := [] |}] |}, None).

Definition marshal_hops (a : Router.SwitchAnnouncement)
  : list Z * option Router.error :=
  (map Router.Hop (Router.Signatures a), None).

Definition zero_frame : Types.Frame :=
  {| Types.Version := 0; Types.Type_ := 0; Types.Extra := [0; 0];
     Types.Destination := []; Types.DestinationKey := Types.zero_key;
     Types.Source := []; Types.SourceKey := Types.zero_key;
     Types.Watermark := Types.zero_watermark; Types.Payload := [] |}.

Definition example_generate : Router.Peer -> option Types.Frame :=
  Link.generateAnnouncement (repeat 1 32) root_announcement bytes_equal
                            sign_hop marshal_hops zero_frame 0.

Definition example_start (p : Router.Peer)
  : Router.Peer * option Router.error * option Types.Frame :=
  Link.start (repeat 1 32) root_announcement bytes_equal
             sign_hop marshal_hops zero_frame 0 p.

(** [live_peer] after [stop]. *)
Definition stopped_live_peer : Router.Peer := fst (Router.stop live_peer).

(** A port table to forward on: queues that hold one frame, the local
    port 0, a live peer on port 1 and the sender on port 2. *)
Definition example_ftypes : Link.forwardTypes :=
  {| Link.TypePathfind := 13; Link.TypeDHTRequest := 14;
     Link.TypeDHTResponse := 15; Link.TypeGreedy := 2;
     Link.TypeSource := 1 |}.

Definition push_if_empty (q : list Types.Frame) (f : Types.Frame)
  : list Types.Frame * bool :=
  match q with
  | [] => ([f], true)
  | _ :: _ => (q, false)
  end.

Definition sign_nothing (f : Types.Frame) (_ _ : Router.Peer)
  : option Types.Frame * option Router.error := (Some f, None).

Definition peer_on (port : Z) (key : Types.PublicKey) : Router.Peer :=
  {| Router.port := port; Router.started := true; Router.alive := true;
     Router.cancelled := false; Router.closed := false;
     Router.public := key; Router.coords := None;
     Router.announcement := None; Router.statistics := no_statistics |}.

Definition idle_port (port : Z) (key : Types.PublicKey)
  : Link.portEntry (list Types.Frame) :=
  {| Link.entry_peer := peer_on port key;
     Link.trafficOut := []; Link.protoOut := [] |}.

Definition example_sender : Link.portEntry (list Types.Frame) :=
  idle_port 2 (repeat 3 32).

Definition example_ports : list (Link.portEntry (list Types.Frame)) :=
  [idle_port 0 (repeat 1 32); idle_port 1 (repeat 2 32); example_sender].

(** [example_ports] after port 1 has taken the frame of scenario S1. *)
Definition example_ports_sent : list (Link.portEntry (list Types.Frame)) :=
  set_nth 1
    (fst (Link.push_traffic (list Types.Frame) push_if_empty
            (idle_port 1 (repeat 2 32)) tree_routed_frame))
    example_ports.

Definition example_forward :=
  Link.forward (list Types.Frame) push_if_empty push_if_empty sign_nothing
               bytes_equal example_types example_ftypes.

(** Peers to sort: a remote peer on port 1 and a multicast peer on
    port 2 ([PeerTypeMulticast] is 0 and [PeerTypeRemote] is 2). *)
Definition PeerTypeMulticast : Z := 0.
Definition PeerTypeRemote : Z := 2.

Definition two_peers : Link.peers :=
  [ {| Link.the_peer := peer_on 1 (repeat 2 32); Link.zone := "";
       Link.peertype := PeerTypeRemote |};
    {| Link.the_peer := peer_on 2 (repeat 3 32); Link.zone := "";
       Link.peertype := PeerTypeMulticast |} ].

(** *** Notions for [DHTInfo] *)

(** An [int] that started at [c] and was incremented [n] times. *)
Definition incremented (n : nat) (c : Z) : Z :=
  Nat.iter n (fun c => int_add c 1) c.

(** What [c, ok := dupes[k]] finds after [n] more [dupes[k]++]. *)
Definition found (n : nat) (before : option Z) : option Z :=
  match n with
  | O => before
  | S _ => Some (incremented n (match before with Some c => c | None => 0 end))
  end.

(** How many entries of a table have the public key [k]. *)
Definition key_count (t : Shell.table) (k : Types.PublicKey) : nat :=
  length (filter (fun kv => bytes_equal (Shell.PublicKey (fst kv)) k) t).

(** An entry whose root is not that of the announcement. *)
Definition root_mismatch (a : Router.rootAnnouncementWithTime)
           (kv : Shell.virtualSnakeIndex * Shell.virtualSnakeEntry) : bool :=
  negb (bytes_equal (Shell.RootPublicKey (snd kv))
                    (Router.RootPublicKey (Router.announced a)))
  || negb (Shell.RootSequence (snd kv)
           =? Router.Sequence (Router.announced a)).

(** An entry whose public key is that of more than one entry of [t]. *)
Definition shares_key (t : Shell.table)
           (kv : Shell.virtualSnakeIndex * Shell.virtualSnakeEntry) : bool :=
  (1 <? key_count t (Shell.PublicKey (fst kv)))%nat.

(** After the first loop over [first], an entry whose key [dupes] holds
    with a count above 1; and the number of times the second loop
    increments [stale] for an entry. *)
Definition counted_twice (first : Shell.table)
           (kv : Shell.virtualSnakeIndex * Shell.virtualSnakeEntry) : bool :=
  match found (key_count first (Shell.PublicKey (fst kv))) None with
  | Some c => c >? 1
  | None => false
  end.

Definition marks (a : Router.rootAnnouncementWithTime) (first : Shell.table)
           (kv : Shell.virtualSnakeIndex * Shell.virtualSnakeEntry) : nat :=
  ((if counted_twice first kv then 1 else 0)
   + (if root_mismatch a kv then 1 else 0))%nat.

(** The [stale] of a result of [DHTInfo]. *)
Definition stale_of
  (r : option (option Shell.virtualSnakeEntry * option Shell.virtualSnakeEntry
               * Shell.table * Z)) : option Z :=
  match r with
  | Some (_, _, _, stale) => Some stale
  | None => None
  end.

(** A table of three paths, two of them to the same key, under the root
    of [signed_announcement] with sequence 1. *)
Definition path (key : Types.PublicKey) (id : Z) (rootseq : Z)
  : Shell.virtualSnakeIndex * Shell.virtualSnakeEntry :=
  let i := {| Shell.PublicKey := key; Shell.PathID := [id] |} in
  (i, {| Shell.Index := i; Shell.RootPublicKey := Types.zero_key;
         Shell.RootSequence := rootseq |}).

Definition three_paths : Shell.table :=
  [path (repeat 5 32) 1 1; path (repeat 6 32) 2 0; path (repeat 5 32) 3 1].

Definition three_paths_shuffled : Shell.table :=
  [path (repeat 6 32) 2 0; path (repeat 5 32) 1 1; path (repeat 5 32) 3 1].

Definition rooted_state : Shell.state :=
  {| Shell._rootAnnouncement :=
       Some {| Router.announced := signed_announcement; Router.at_ := 7 |};
     Shell._ascending := None; Shell._descending := None |}.

Definition rootless_state : Shell.state :=
  {| Shell._rootAnnouncement := None;
     Shell._ascending := None; Shell._descending := None |}.

(** *** Notions for [Peers], the reader's loop and the dissector *)

(** The peers of the slots that [Peers] does not pass over, with their
    announcements. *)
Definition started_peers (l : list Shell.slot)
  : list (Shell.peer * option Router.rootAnnouncementWithTime) :=
  flat_map (fun s : Shell.slot =>
              match s with
              | Some (p, ann) => if Shell.started p then [(p, ann)] else []
              | None => []
              end) l.

(** The ways a turn of the reader ends the loop. *)
Definition final (o : Router.outcome) : Prop :=
  match o with
  | Router.Disconnect _ | Router.Return_ _ | Router.Panic => True
  | Router.Resync _ | Router.Forward _ _ => False
  end.

(** A header that announces the longest frame: the magic, any version
    and type, and 0xffff in the three length fields. *)
Definition longest_header (v t : Z) : list Z :=
  Types.FrameMagicBytes ++ [v; t; 255; 255; 255; 255; 255; 255].

(** A peer of [Peers] on a port, with a key of 32 equal bytes. *)
Definition shell_peer (on : bool) (port key : Z) : Shell.peer :=
  {| Shell.started := on; Shell.port := port; Shell.peertype := 0;
     Shell.public := repeat key 32; Shell.zone := "" |}.

(** A rendering of keys that is never empty. *)
Definition key_length (k : Types.PublicKey) : string :=
  if (length k <? 32)%nat then "short" else "key".

Definition three_slots : list Shell.slot :=
  [Some (shell_peer true 1 1, None); None;
   Some (shell_peer false 2 2, None);
   Some (shell_peer true 3 3,
         Some {| Router.announced := signed_announcement;
                 Router.at_ := 7 |})].

(** The 33 bytes that [TestMarshalUnmarshalFrame] expects. *)
Definition tree_routed_bytes : list Z :=
  [0x70; 0x69; 0x6e; 0x65; 0; 2; 0; 0; 0; 33; 0; 7;
   0; 6; 1; 2; 3; 4; 167; 8; 0; 4; 4; 3; 2; 1;
   65; 66; 67; 68; 69; 70; 71].

(** * Part II: properties *)

Lemma all_bytes_complete (b : Z) : is_byte b -> In b all_bytes.
Proof.
  intros [Hlo Hhi]. unfold all_bytes.
  apply in_map_iff. exists (Z.to_nat b). split; [lia|].
  apply in_seq. lia.
Qed.

Lemma byte_cases (P : Z -> bool) :
  forallb P all_bytes = true -> forall b, is_byte b -> P b = true.
Proof.
  intros H b Hb. rewrite forallb_forall in H.
  apply H, all_bytes_complete, Hb.
Qed.

(** ** Seven-bit groups *)

Lemma low7_of_byte (b : Z) : Z.land b 0x7f = b mod 128.
Proof.
  change 0x7f with (Z.ones 7). now rewrite Z.land_ones by lia.
Qed.

Lemma cont_bit_of_byte (b : Z) :
  is_byte b -> (Z.land b 0x80 =? 0) = (b <? 128).
Proof.
  intros Hb.
  apply (byte_cases (fun b => Bool.eqb (Z.land b 0x80 =? 0) (b <? 128)))
    in Hb; [|vm_compute; reflexivity].
  now apply Bool.eqb_prop in Hb.
Qed.

Lemma lor_cont_bit (d : Z) : 0 <= d < 128 -> Z.lor d 0x80 = d + 128.
Proof.
  intros Hd.
  assert (Hb : is_byte d) by (unfold is_byte; lia).
  apply (byte_cases (fun d => implb (d <? 128) (Z.lor d 0x80 =? d + 128)))
    in Hb; [|vm_compute; reflexivity].
  replace (d <? 128) with true in Hb by (symmetry; apply Z.ltb_lt; lia).
  simpl in Hb. now apply Z.eqb_eq.
Qed.

(** Shifting left by [k] bits and or-ing a [k]-bit value in is
    multiplication by [2^k] followed by addition. *)
Lemma lor_shiftl (k a d : Z) :
  0 <= k -> 0 <= a -> 0 <= d < 2 ^ k ->
  Z.lor (Z.shiftl a k) d = a * 2 ^ k + d.
Proof.
  intros Hk Ha Hd.
  rewrite Z.shiftl_mul_pow2 by lia.
  assert (Hland : Z.land (a * 2 ^ k) d = 0).
  { apply Z.bits_inj'. intros i Hi.
    rewrite Z.land_spec, Z.bits_0.
    destruct (Z.lt_ge_cases i k) as [Hlt|Hge].
    - rewrite Z.mul_pow2_bits_low by lia. reflexivity.
    - destruct (Z.eq_dec d 0) as [->|Hnz].
      + rewrite Z.bits_0. apply andb_false_r.
      + rewrite (Z.bits_above_log2 d i); [apply andb_false_r|lia|].
        assert (Z.log2 d < k) by (apply Z.log2_lt_pow2; lia). lia. }
  rewrite <- Z.lxor_lor by assumption.
  symmetry. now apply Z.add_nocarry_lxor.
Qed.

Lemma lor_shiftl7 (a d : Z) :
  0 <= a -> 0 <= d < 128 -> Z.lor (Z.shiftl a 7) d = a * 128 + d.
Proof. intros Ha Hd. now rewrite lor_shiftl by (simpl; lia). Qed.

(** The same step on a [w]-bit register, [7 <= w]. *)
Lemma lor_shiftl7_wrap (w a d : Z) :
  7 <= w -> 0 <= a -> 0 <= d < 128 ->
  Z.lor (Z.shiftl a 7 mod 2 ^ w) d = (a * 128 + d) mod 2 ^ w.
Proof.
  intros Hw Ha Hd.
  assert (Hpow : 2 ^ w = 128 * 2 ^ (w - 7)).
  { change 128 with (2 ^ 7). rewrite <- Z.pow_add_r by lia. f_equal. lia. }
  assert (Hpos : 0 < 2 ^ (w - 7)) by (apply Z.pow_pos_nonneg; lia).
  rewrite Z.shiftl_mul_pow2 by lia. change (2 ^ 7) with 128.
  rewrite Hpow.
  replace (a * 128) with (128 * a) by lia.
  rewrite Z.mul_mod_distr_l by lia.
  pose proof (Z.mod_pos_bound a (2 ^ (w - 7)) Hpos) as Hr.
  replace (128 * (a mod 2 ^ (w - 7))) with (Z.shiftl (a mod 2 ^ (w - 7)) 7)
    by (rewrite Z.shiftl_mul_pow2 by lia; change (2 ^ 7) with 128; lia).
  rewrite lor_shiftl7 by lia.
  apply Z.mod_unique_pos with (q := a / 2 ^ (w - 7)); [lia|].
  pose proof (Z.div_mod a (2 ^ (w - 7)) ltac:(lia)). nia.
Qed.

(** ** Varints *)

Section Varints.

Import Types.

Lemma groups_app (fuel : nat) : forall n acc,
  groups fuel n acc = groups fuel n [] ++ acc.
Proof.
  induction fuel as [|fuel IH]; intros n acc; simpl; [reflexivity|].
  destruct (n =? 0); [reflexivity|].
  rewrite (IH _ (_ :: acc)), (IH _ [_]), <- app_assoc. reflexivity.
Qed.

Lemma group_of (n : Z) :
  0 <= n ->
  is_cont (Z.lor (Z.land n 0x7f) 0x80) /\
  Z.lor (Z.land n 0x7f) 0x80 mod 128 = n mod 128.
Proof.
  intros Hn. change 0x7f with (Z.ones 7). rewrite Z.land_ones by lia.
  change (2 ^ 7) with 128.
  pose proof (Z.mod_pos_bound n 128 ltac:(lia)) as Hm.
  rewrite lor_cont_bit by lia. unfold is_cont. split; [lia|].
  replace (n mod 128 + 128) with (n mod 128 + 1 * 128) by lia.
  rewrite Z.mod_add by lia. apply Z.mod_mod. lia.
Qed.

Lemma groups_cont (fuel : nat) : forall n,
  0 <= n -> Forall is_cont (groups fuel n []).
Proof.
  induction fuel as [|fuel IH]; intros n Hn; simpl; [constructor|].
  destruct (n =? 0); [constructor|].
  rewrite groups_app. apply Forall_app. split.
  - apply IH. apply Z.shiftr_nonneg. lia.
  - constructor; [|constructor]. now apply group_of.
Qed.

Lemma groups_length (fuel : nat) : forall n,
  (length (groups fuel n []) <= fuel)%nat.
Proof.
  induction fuel as [|fuel IH]; intros n; simpl; [lia|].
  destruct (n =? 0); simpl; [lia|].
  rewrite groups_app, length_app. simpl. specialize (IH (Z.shiftr n 7)). lia.
Qed.

Lemma groups_value (fuel : nat) : forall n,
  0 <= n < 128 ^ Z.of_nat fuel ->
  fold_left group_step (groups fuel n []) 0 = n.
Proof.
  induction fuel as [|fuel IH]; intros n Hn.
  - simpl in *. lia.
  - simpl groups. destruct (Z.eqb_spec n 0) as [->|Hnz]; [reflexivity|].
    rewrite groups_app, fold_left_app. simpl.
    rewrite Z.shiftr_div_pow2 by lia. change (2 ^ 7) with 128.
    rewrite IH.
    + unfold group_step. destruct (group_of n) as [_ ->]; [lia|].
      pose proof (Z.div_mod n 128 ltac:(lia)). lia.
    + rewrite Nat2Z.inj_succ, Z.pow_succ_r in Hn by lia.
      split; [apply Z.div_pos; lia|].
      apply Z.div_lt_upper_bound; lia.
Qed.

(** One turn of a varint reader on a [w]-bit register holding
    [n mod 2^w]. *)
Lemma accumulate_wrap (w n b : Z) :
  7 <= w -> 0 <= n -> is_byte b ->
  Z.lor (Z.shiftl (n mod 2 ^ w) 7 mod 2 ^ w) (Z.land b 0x7f)
  = group_step n b mod 2 ^ w.
Proof.
  intros Hw Hn Hb. unfold group_step.
  assert (0 < 2 ^ w) by (apply Z.pow_pos_nonneg; lia).
  pose proof (Z.mod_pos_bound n (2 ^ w) ltac:(lia)).
  pose proof (Z.mod_pos_bound b 128 ltac:(lia)).
  rewrite low7_of_byte.
  rewrite lor_shiftl7_wrap by lia.
  rewrite Z.add_mod, Z.mul_mod_idemp_l, <- Z.add_mod by lia.
  reflexivity.
Qed.

(** *** The dissector's reader *)

Lemma get_index_app (pre suf : list Z) (b : Z) :
  Dissector.get_index (pre ++ b :: suf) (zlen pre) = Some b.
Proof.
  unfold Dissector.get_index, zlen.
  destruct (Z.ltb_spec (Z.of_nat (length pre)) 0); [lia|].
  rewrite Nat2Z.id, nth_error_app2 by lia.
  now rewrite Nat.sub_diag.
Qed.

Lemma bit32_small (x : Z) : 0 <= x < 2 ^ 32 -> Dissector.bit32 x = x.
Proof. intros H. unfold Dissector.bit32. now apply Z.mod_small. Qed.

(** One turn of the loop on a register holding [n mod 2^32]. *)
Lemma lua_accumulate (n b : Z) :
  0 <= n -> is_byte b ->
  Dissector.bit32_bor (Dissector.bit32_lshift (n mod 2 ^ 32) 7)
                      (Dissector.bit32_band b 0x7f)
  = group_step n b mod 2 ^ 32.
Proof.
  intros Hn Hb. unfold Dissector.bit32_bor, Dissector.bit32_lshift,
    Dissector.bit32_band.
  pose proof (Z.mod_pos_bound n (2 ^ 32) ltac:(lia)) as Hr.
  pose proof (Z.mod_pos_bound b 128 ltac:(lia)) as Hd.
  assert (Hb32 : 0 <= b < 2 ^ 32) by (unfold is_byte in Hb; lia).
  rewrite (bit32_small (n mod 2 ^ 32)) by lia.
  rewrite (bit32_small b) by lia.
  rewrite (bit32_small 0x7f) by lia.
  rewrite (bit32_small (Z.land b 0x7f)) by (rewrite low7_of_byte; lia).
  unfold Dissector.bit32. rewrite Z.mod_mod by lia.
  apply accumulate_wrap; [lia|assumption|assumption].
Qed.

Lemma lua_cont_bit (b : Z) :
  is_byte b -> (Dissector.bit32_band b 0x80 =? 0) = (b <? 128).
Proof.
  intros Hb. unfold Dissector.bit32_band.
  rewrite (bit32_small b) by (unfold is_byte in Hb; lia).
  rewrite (bit32_small 0x80) by lia.
  now apply cont_bit_of_byte.
Qed.

Lemma is_cont_byte (g : Z) : is_cont g -> is_byte g.
Proof. unfold is_cont, is_byte. lia. Qed.

(** Reading across a run of groups that all carry the continuation bit. *)
Lemma varu64_loop_cont (gs : list Z) : forall pre rest fuel n,
  Forall is_cont gs -> 0 <= n ->
  Dissector.varu64_loop (length gs + fuel) (pre ++ gs ++ rest)
                        (n mod 2 ^ 32) (zlen pre)
  = Dissector.varu64_loop fuel (pre ++ gs ++ rest)
                          (fold_left group_step gs n mod 2 ^ 32)
                          (zlen pre + zlen gs).
Proof.
  induction gs as [|g gs IH]; intros pre rest fuel n Hgs Hn.
  - simpl. unfold zlen at 3. simpl. now rewrite Z.add_0_r.
  - inversion Hgs as [|? ? Hg Hgs']; subst.
    cbn [length Nat.add Dissector.varu64_loop app].
    rewrite get_index_app.
    rewrite lua_cont_bit by now apply is_cont_byte.
    replace (g <? 128) with false
      by (symmetry; apply Z.ltb_ge; unfold is_cont in Hg; lia).
    rewrite lua_accumulate; [|assumption|now apply is_cont_byte].
    replace (pre ++ g :: gs ++ rest) with ((pre ++ [g]) ++ gs ++ rest)
      by (rewrite <- app_assoc; reflexivity).
    replace (zlen pre + 1) with (zlen (pre ++ [g]))
      by (unfold zlen; rewrite length_app; simpl; lia).
    rewrite IH; [|assumption|].
    + f_equal. unfold zlen. rewrite length_app. simpl. lia.
    + unfold group_step. pose proof (Z.mod_pos_bound g 128 ltac:(lia)). lia.
Qed.

Lemma Varu64_MarshalBinary_split (n : Z) :
  Varu64_MarshalBinary n = groups 9 (Z.shiftr n 7) [] ++ [Z.land n 0x7f].
Proof. unfold Varu64_MarshalBinary. apply groups_app. Qed.

Lemma Varu64_MarshalBinary_length (n : Z) :
  1 <= zlen (Varu64_MarshalBinary n) <= 10.
Proof.
  rewrite Varu64_MarshalBinary_split. unfold zlen. rewrite length_app.
  cbn [length]. pose proof (groups_length 9 (Z.shiftr n 7)). lia.
Qed.

(** What the dissector reads back from an encoded number: the number
    reduced to 32 bits, and the length of the encoding. *)
Lemma varu64_of_encoding (n : Z) (rest : list Z) :
  0 <= n < 2 ^ 64 ->
  Dissector.varu64 (Varu64_MarshalBinary n ++ rest)
  = Some (n mod 2 ^ 32, zlen (Varu64_MarshalBinary n)).
Proof.
  intros Hn. rewrite Varu64_MarshalBinary_split.
  set (gs := groups 9 (Z.shiftr n 7) []).
  assert (Hlen : (length gs <= 9)%nat) by apply groups_length.
  assert (Hhi : 0 <= Z.shiftr n 7) by (apply Z.shiftr_nonneg; lia).
  assert (Hval : fold_left group_step gs 0 = n / 128).
  { unfold gs. rewrite groups_value.
    - rewrite Z.shiftr_div_pow2 by lia. reflexivity.
    - split; [assumption|]. rewrite Z.shiftr_div_pow2 by lia.
      apply Z.div_lt_upper_bound; [lia|].
      change (2 ^ 7 * 128 ^ Z.of_nat 9) with (2 ^ 70). lia. }
  unfold Dissector.varu64.
  replace 10%nat with (length gs + S (9 - length gs))%nat by lia.
  rewrite <- app_assoc.
  change 0 with (0 mod 2 ^ 32) at 1.
  change 0 with (zlen (@nil Z)) at 2.
  change (gs ++ [Z.land n 0x7f] ++ rest)
    with ([] ++ gs ++ [Z.land n 0x7f] ++ rest).
  rewrite varu64_loop_cont by (try apply groups_cont; lia).
  rewrite Hval. cbn [Dissector.varu64_loop app].
  change (zlen (@nil Z)) with 0. rewrite Z.add_0_l.
  change (gs ++ Z.land n 0x7f :: rest) with (gs ++ Z.land n 0x7f :: rest).
  rewrite get_index_app.
  change 0x7f with (Z.ones 7). rewrite Z.land_ones by lia.
  change (2 ^ 7) with 128.
  pose proof (Z.mod_pos_bound n 128 ltac:(lia)) as Hd.
  assert (Hb : is_byte (n mod 128)) by (unfold is_byte; lia).
  rewrite lua_cont_bit by assumption.
  replace (n mod 128 <? 128) with true by (symmetry; apply Z.ltb_lt; lia).
  change (Z.ones 7) with 0x7f.
  rewrite lua_accumulate; [|apply Z.div_pos; lia|assumption].
  unfold group_step. rewrite Z.mod_mod by lia.
  f_equal. f_equal.
  - f_equal. pose proof (Z.div_mod n 128 ltac:(lia)). lia.
  - unfold zlen. rewrite length_app. cbn [length]. lia.
Qed.

(** The loop never runs past ten bytes and, given ten bytes to look at,
    never fails. *)
Lemma varu64_loop_total (fuel : nat) : forall bytes n l,
  0 <= l -> l + Z.of_nat fuel <= zlen bytes ->
  exists n' l', Dissector.varu64_loop fuel bytes n l = Some (n', l') /\
                l <= l' <= l + Z.of_nat fuel /\
                (fuel <> 0%nat -> l < l').
Proof.
  induction fuel as [|fuel IH]; intros bytes n l Hl Hlen.
  - exists n, l. simpl. repeat split; try lia; try congruence.
  - cbn [Dissector.varu64_loop]. unfold Dissector.get_index.
    destruct (Z.ltb_spec l 0); [lia|].
    destruct (nth_error bytes (Z.to_nat l)) as [b|] eqn:Hb.
    2:{ apply nth_error_None in Hb. unfold zlen in Hlen. lia. }
    destruct (Dissector.bit32_band b 0x80 =? 0).
    + eexists _, _. split; [reflexivity|]. lia.
    + edestruct (IH bytes) as (n' & l' & Heq & Hbound & _);
        [| |rewrite Heq; exists n', l'; split; [reflexivity|]]; lia.
Qed.

(** When the loop returns, it has read at least one byte (if it ran at
    all), at most [fuel], and none beyond the end of the input. *)
Lemma varu64_loop_bound (fuel : nat) : forall bytes n l n' l',
  0 <= l ->
  Dissector.varu64_loop fuel bytes n l = Some (n', l') ->
  l <= l' <= l + Z.of_nat fuel /\
  (fuel <> 0%nat -> l < l' <= zlen bytes).
Proof.
  induction fuel as [|fuel IH]; intros bytes n l n' l' Hl Hrun.
  - simpl in Hrun. injection Hrun as <- <-. split; [simpl; lia|congruence].
  - cbn [Dissector.varu64_loop] in Hrun. unfold Dissector.get_index in Hrun.
    destruct (Z.ltb_spec l 0); [lia|].
    destruct (nth_error bytes (Z.to_nat l)) as [b|] eqn:Hb; [|discriminate].
    assert (Hin : l < zlen bytes).
    { assert (Hsome : nth_error bytes (Z.to_nat l) <> None) by congruence.
      apply nth_error_Some in Hsome. unfold zlen. lia. }
    destruct (Dissector.bit32_band b 0x80 =? 0).
    + injection Hrun as <- <-. lia.
    + apply IH in Hrun as [Hb1 Hb2]; [|lia].
      split; [lia|]. intros _.
      destruct fuel as [|fuel]; [simpl in Hb1; lia|].
      specialize (Hb2 ltac:(discriminate)). lia.
Qed.

End Varints.

(** C2.  The dissector's [varu64] does not read back every varint below
    2^63, and it has no failure for a number that ten bytes do not end.
    On the encoding of any n below 2^64, whatever bytes follow, it returns
    n reduced modulo 2^32 with the length of the encoding, so for every n
    from 2^32 on it returns another number than n; on ten bytes that all
    carry the continuation bit it returns the number of their seventy
    low bits, reduced modulo 2^32, with length 10.  What it keeps of the
    claim: whenever it returns, it has read between one and ten bytes,
    none beyond the end of its input. *)
Theorem varu64_wraps_at_32_bits :
  (forall n rest, 0 <= n < 2 ^ 64 ->
     Dissector.varu64 (Types.Varu64_MarshalBinary n ++ rest)
       = Some (n mod 2 ^ 32, zlen (Types.Varu64_MarshalBinary n))) /\
  (forall n rest l, 2 ^ 32 <= n < 2 ^ 63 ->
     Dissector.varu64 (Types.Varu64_MarshalBinary n ++ rest)
       <> Some (n, l)) /\
  (forall gs rest, length gs = 10%nat -> Forall is_cont gs ->
     Dissector.varu64 (gs ++ rest)
       = Some (fold_left group_step gs 0 mod 2 ^ 32, 10)) /\
  (forall bytes n l, Dissector.varu64 bytes = Some (n, l) ->
     1 <= l <= 10 /\ l <= zlen bytes).
Proof.
  split; [|split; [|split]].
  - intros n rest Hn. now apply varu64_of_encoding.
  - intros n rest l Hn Hrun.
    rewrite varu64_of_encoding in Hrun by lia.
    injection Hrun as Hval _.
    pose proof (Z.mod_pos_bound n (2 ^ 32) ltac:(lia)). lia.
  - intros gs rest Hlen Hcont. unfold Dissector.varu64.
    pose proof (varu64_loop_cont gs [] rest 0 0 Hcont ltac:(lia)) as Hrun.
    rewrite Hlen in Hrun. cbn [app Nat.add] in Hrun.
    change (0 mod 2 ^ 32) with 0 in Hrun.
    change (zlen (@nil Z)) with 0 in Hrun.
    rewrite Hrun. cbn [Dissector.varu64_loop].
    unfold zlen. rewrite Hlen. reflexivity.
  - intros bytes n l Hrun.
    apply varu64_loop_bound in Hrun as [Hb1 Hb2]; [|lia].
    specialize (Hb2 ltac:(discriminate)). simpl in Hb1. lia.
Qed.

(** The two inputs at which [varu64] leaves the claim: the five bytes
    [90 80 80 80 00] that encode 2^32 are read as 0, and ten bytes [80]
    before a byte [01] are read as 0 with length 10. *)
Lemma varu64_wraps_at_32_bits_witness :
  Dissector.varu64 ([0x90; 0x80; 0x80; 0x80; 0x00] ++ []) = Some (0, 5) /\
  Dissector.varu64 ([0x80; 0x80; 0x80; 0x80; 0x80;
                     0x80; 0x80; 0x80; 0x80; 0x80] ++ [0x01])
    = Some (0, 10).
Proof.
  split.
  - apply (proj1 varu64_wraps_at_32_bits (2 ^ 32) []). lia.
  - apply (proj1 (proj2 (proj2 varu64_wraps_at_32_bits))
             [0x80; 0x80; 0x80; 0x80; 0x80; 0x80; 0x80; 0x80; 0x80; 0x80]
             [0x01]).
    + reflexivity.
    + repeat (constructor; [unfold is_cont; lia|]). constructor.
Defined.

(** ** Peers *)

Lemma bytes_equal_spec (a : list Z) : forall b,
  bytes_equal a b = true <-> a = b.
Proof.
  induction a as [|x a IH]; intros [|y b]; simpl;
    try (split; [discriminate|congruence]); [tauto|].
  rewrite andb_true_iff, Z.eqb_eq, IH. split.
  - intros [-> ->]. reflexivity.
  - intros H. inversion H. auto.
Qed.

(** [lastAnnouncement] hands an announcement out exactly when the peer is
    started and the stored one is younger than the timeout. *)
Lemma lastAnnouncement_Some (now : Router.Time) (p : Router.Peer)
      (a : Router.rootAnnouncementWithTime) :
  Router.lastAnnouncement now p = Some a <->
  Router.started p = true /\ Router.announcement p = Some a /\
  Router.time_Since now (Router.at_ a) < Router.announcementTimeout.
Proof.
  unfold Router.lastAnnouncement.
  destruct (Router.started p); simpl.
  2:{ split; [discriminate|]. intros [H _]. discriminate. }
  destruct (Router.announcement p) as [a'|].
  2:{ split; [discriminate|]. intros (_ & H & _). discriminate. }
  destruct (Z.geb_spec (Router.time_Since now (Router.at_ a'))
                       Router.announcementTimeout) as [Hge|Hlt].
  - split; [discriminate|]. intros (_ & H & Hlt). inversion H; subst. lia.
  - split.
    + intros H. inversion H; subst. auto.
    + intros (_ & H & _). exact H.
Qed.

(** C7 (as amended).  [SeenRecently] is true if and only if the peer is
    started, holds a stored announcement, and the time elapsed since that
    announcement was received is strictly less than [announcementTimeout]
    (45 seconds). *)
Theorem SeenRecently_iff (now : Router.Time) (p : Router.Peer) :
  Router.SeenRecently now p = true <->
  Router.started p = true /\
  exists a, Router.announcement p = Some a /\
            now - Router.at_ a < 45 * Router.Second.
Proof.
  unfold Router.SeenRecently.
  destruct (Router.lastAnnouncement now p) as [a|] eqn:Hlast.
  - apply lastAnnouncement_Some in Hlast as (Hs & Ha & Hlt).
    split; [|reflexivity]. intros _. split; [exact Hs|].
    exists a. split; [exact Ha|exact Hlt].
  - split; [discriminate|]. intros (Hs & a & Ha & Hlt).
    assert (H : Router.lastAnnouncement now p = Some a)
      by (apply lastAnnouncement_Some; auto).
    congruence.
Qed.

(** C7 fails as stated: one nanosecond after the announcement was
    received the stopped peer still stores it, yet [SeenRecently] is
    false. *)
Lemma SeenRecently_false_when_stopped :
  (exists a, Router.announcement announced_then_stopped = Some a /\
             Router.time_Since 1 (Router.at_ a) < Router.announcementTimeout) /\
  Router.SeenRecently 1 announced_then_stopped = false.
Proof.
  split; [|reflexivity].
  eexists. split; [reflexivity|]. vm_compute. reflexivity.
Qed.

(** C10.  [SeenCommonRootRecently] is true if and only if the peer is
    alive, is started and holds an announcement younger than
    [announcementTimeout], and that announcement's root public key equals
    the router's current root public key. *)
Theorem SeenCommonRootRecently_iff
        (now : Router.Time) (r : Router.Router) (p : Router.Peer) :
  Router.SeenCommonRootRecently now r p = true <->
  Router.alive p = true /\ Router.started p = true /\
  exists a, Router.announcement p = Some a /\
            Router.time_Since now (Router.at_ a) < Router.announcementTimeout /\
            Router.RootPublicKey (Router.announced a)
              = Router.Router_RootPublicKey r.
Proof.
  unfold Router.SeenCommonRootRecently.
  destruct (Router.alive p); simpl.
  2:{ split; [discriminate|]. intros [H _]. discriminate. }
  destruct (Router.lastAnnouncement now p) as [a|] eqn:Hlast.
  - apply lastAnnouncement_Some in Hlast as (Hs & Ha & Hlt).
    rewrite bytes_equal_spec. split.
    + intros Heq. repeat split; try assumption. exists a. auto.
    + intros (_ & _ & a' & Ha' & _ & Heq). congruence.
  - split; [discriminate|]. intros (_ & Hs & a & Ha & Hlt & _).
    assert (H : Router.lastAnnouncement now p = Some a)
      by (apply lastAnnouncement_Some; auto).
    congruence.
Qed.

(** C8 (as amended).  [peerStatistics.reset] sets the five counters to
    zero.  [Peer.stop] does not call it: stopping a started peer clears
    [started] and [alive], cancels the context, closes the connection and
    returns no error, and it leaves the statistics as they were; stopping
    a peer that is not started returns an error and changes nothing. *)
Theorem stop_keeps_statistics (p : Router.Peer) :
  (forall s, Router.reset s = no_statistics) /\
  Router.statistics (fst (Router.stop p)) = Router.statistics p /\
  (Router.started p = true ->
     snd (Router.stop p) = None /\
     Router.started (fst (Router.stop p)) = false /\
     Router.alive (fst (Router.stop p)) = false /\
     Router.cancelled (fst (Router.stop p)) = true /\
     Router.closed (fst (Router.stop p)) = true) /\
  (Router.started p = false ->
     snd (Router.stop p) <> None /\ fst (Router.stop p) = p).
Proof.
  unfold Router.stop. split; [reflexivity|].
  destruct (Router.started p); simpl; repeat split;
    try reflexivity; try discriminate.
Qed.

Lemma stop_keeps_statistics_witness :
  snd (Router.stop busy_peer) = None /\
  Router.started (fst (Router.stop busy_peer)) = false /\
  Router.alive (fst (Router.stop busy_peer)) = false /\
  Router.cancelled (fst (Router.stop busy_peer)) = true /\
  Router.closed (fst (Router.stop busy_peer)) = true.
Proof.
  apply (proj1 (proj2 (proj2 (stop_keeps_statistics busy_peer)))).
  reflexivity.
Defined.

(** C8 fails as stated: a started peer that sent three protocol frames
    is stopped without error and still counts three. *)
Lemma stop_does_not_reset :
  Router.started busy_peer = true /\
  snd (Router.stop busy_peer) = None /\
  Router.txProtoSuccessful (Router.statistics (fst (Router.stop busy_peer)))
    = 3 /\
  Router.statistics (fst (Router.stop busy_peer)) <> no_statistics.
Proof.
  repeat split. discriminate.
Qed.

(** C9.  When [PeerCoords] fails on the incoming announcement,
    [updateAnnouncement] returns an error and leaves the peer with
    [alive = false], no stored announcement and no coordinates; when it
    succeeds, [updateAnnouncement] returns no error, sets [alive = true]
    and stores the announcement with the receipt time and the computed
    coordinates.  The other fields of the peer are untouched. *)
Theorem updateAnnouncement_spec
        (PeerCoords : Router.SwitchAnnouncement -> Types.PublicKey ->
                      Router.SwitchPorts * option Router.error)
        (now : Router.Time) (p : Router.Peer)
        (new : Router.SwitchAnnouncement) :
  let p' := fst (Router.updateAnnouncement PeerCoords now p new) in
  let err := snd (Router.updateAnnouncement PeerCoords now p new) in
  (forall c e, PeerCoords new (Router.public p) = (c, Some e) ->
     err = Some (Router.fmt_Errorf "new.PeerCoords" e) /\
     Router.alive p' = false /\
     Router.announcement p' = None /\
     Router.coords p' = None) /\
  (forall c, PeerCoords new (Router.public p) = (c, None) ->
     err = None /\
     Router.alive p' = true /\
     Router.announcement p'
       = Some {| Router.announced := new; Router.at_ := now |} /\
     Router.coords p' = c) /\
  Router.port p' = Router.port p /\
  Router.started p' = Router.started p /\
  Router.public p' = Router.public p /\
  Router.statistics p' = Router.statistics p.
Proof.
  unfold Router.updateAnnouncement.
  destruct (PeerCoords new (Router.public p)) as [c [e|]]; simpl.
  - split; [|split; [discriminate|auto]].
    intros c' e' H. inversion H; subst. auto.
  - split; [discriminate|]. split; [|auto].
    intros c' H. inversion H; subst. auto.
Qed.

Lemma updateAnnouncement_spec_witness :
  (snd (Router.updateAnnouncement ports_of_signatures 7 fresh_peer
                                  root_announcement)
     = Some (Router.fmt_Errorf "new.PeerCoords"
                               (Router.errors_New "no signatures")) /\
   Router.alive (fst (Router.updateAnnouncement ports_of_signatures 7
                        fresh_peer root_announcement)) = false /\
   Router.announcement (fst (Router.updateAnnouncement ports_of_signatures 7
                               fresh_peer root_announcement)) = None /\
   Router.coords (fst (Router.updateAnnouncement ports_of_signatures 7
                         fresh_peer root_announcement)) = None) /\
  (snd (Router.updateAnnouncement ports_of_signatures 7 fresh_peer
                                  signed_announcement) = None /\
   Router.alive (fst (Router.updateAnnouncement ports_of_signatures 7
                        fresh_peer signed_announcement)) = true /\
   Router.announcement (fst (Router.updateAnnouncement ports_of_signatures 7
                               fresh_peer signed_announcement))
     = Some {| Router.announced := signed_announcement; Router.at_ := 7 |} /\
   Router.coords (fst (Router.updateAnnouncement ports_of_signatures 7
                         fresh_peer signed_announcement)) = Some [4]).
Proof.
  split.
  - apply (proj1 (updateAnnouncement_spec ports_of_signatures 7 fresh_peer
                    root_announcement) None).
    reflexivity.
  - apply (proj1 (proj2 (updateAnnouncement_spec ports_of_signatures 7
                           fresh_peer signed_announcement))).
    reflexivity.
Defined.

(** ** The reader loop *)

Lemma BigEndian_Uint16_nonneg (b0 b1 : Z) :
  is_byte b0 -> is_byte b1 -> 0 <= BigEndian_Uint16 b0 b1.
Proof.
  intros H0 H1. unfold BigEndian_Uint16, is_byte in *.
  apply Z.lor_nonneg. split; [lia|]. apply Z.shiftl_nonneg. lia.
Qed.

Lemma nth_byte (bs : list Z) (i : nat) : bytes_ok bs -> is_byte (nth i bs 0).
Proof.
  intros H. destruct (Nat.lt_ge_cases i (length bs)) as [Hlt|Hge].
  - unfold bytes_ok in H. rewrite Forall_forall in H. apply H, nth_In, Hlt.
  - rewrite nth_overflow by assumption. unfold is_byte. lia.
Qed.

Lemma bytes_ok_split (n : nat) (bs : list Z) :
  bytes_ok bs -> bytes_ok (firstn n bs) /\ bytes_ok (skipn n bs).
Proof.
  unfold bytes_ok. intros H. apply Forall_app. now rewrite firstn_skipn.
Qed.

Lemma bytes_ok_firstn (n : nat) (bs : list Z) :
  bytes_ok bs -> bytes_ok (firstn n bs).
Proof. intros H. now apply bytes_ok_split. Qed.

Lemma bytes_ok_skipn (n : nat) (bs : list Z) :
  bytes_ok bs -> bytes_ok (skipn n bs).
Proof. intros H. now apply bytes_ok_split. Qed.

Lemma expecting_nonneg (types : Router.frameTypes) (header : list Z) :
  bytes_ok header -> 0 <= Router.expecting types header.
Proof.
  intros H. unfold Router.expecting, Router.ed25519_PublicKeySize.
  pose proof (BigEndian_Uint16_nonneg _ _ (nth_byte header 2 H) (nth_byte header 3 H)).
  pose proof (BigEndian_Uint16_nonneg _ _ (nth_byte header 4 H) (nth_byte header 5 H)).
  pose proof (BigEndian_Uint16_nonneg _ _ (nth_byte header 6 H) (nth_byte header 7 H)).
  repeat match goal with |- context [if ?c then _ else _] => destruct c end; lia.
Qed.

Lemma reader_read_FrameRead (types : Router.frameTypes) (MaxFrameSize : Z)
      (stream buf rest : list Z) :
  Router.reader_read types MaxFrameSize stream = Router.FrameRead buf rest ->
  let n := Router.expecting types (skipn 4 (firstn 12 stream)) in
  12 <= zlen stream /\ firstn 4 stream = Types.FrameMagicBytes /\
  n <= MaxFrameSize /\ n <= zlen stream /\
  buf = firstn (Z.to_nat n) stream /\ rest = skipn (Z.to_nat n) stream.
Proof.
  unfold Router.reader_read.
  destruct (Z.ltb_spec (zlen stream) 12); [discriminate|].
  rewrite firstn_firstn. change (Nat.min 4 12) with 4%nat.
  destruct (bytes_equal (firstn 4 stream) Types.FrameMagicBytes) eqn:Hmagic;
    [|discriminate].
  apply bytes_equal_spec in Hmagic. simpl negb. cbv iota.
  destruct (Z.ltb_spec MaxFrameSize
              (Router.expecting types (skipn 4 (firstn 12 stream))));
    [discriminate|].
  destruct (Z.ltb_spec (zlen stream)
              (Router.expecting types (skipn 4 (firstn 12 stream))));
    [discriminate|].
  intros Heq. injection Heq as <- <-. cbv zeta. auto 10.
Qed.

(** C3 (as amended).  The reader peeks 12 bytes, not 10: whenever it goes
    on to read a frame from a stream of bytes, the bytes it consumes are
    a prefix of the stream whose length is the number computed from the
    peeked 12 bytes (the type byte at offset 5 and the three 16-bit
    fields at offsets 6 to 11), so any stream with the same first 12
    bytes has the same number of bytes consumed. *)
Theorem reader_length_from_12_bytes
        (types : Router.frameTypes) (MaxFrameSize : Z)
        (stream buf rest : list Z) :
  bytes_ok stream ->
  Router.reader_read types MaxFrameSize stream = Router.FrameRead buf rest ->
  stream = buf ++ rest /\
  zlen buf = Router.expecting types (skipn 4 (firstn 12 stream)) /\
  forall stream' buf' rest',
    bytes_ok stream' ->
    firstn 12 stream' = firstn 12 stream ->
    Router.reader_read types MaxFrameSize stream' = Router.FrameRead buf' rest' ->
    zlen buf' = zlen buf.
Proof.
  intros Hok Hread.
  assert (Hlen : forall s b r, bytes_ok s ->
            Router.reader_read types MaxFrameSize s = Router.FrameRead b r ->
            s = b ++ r /\
            zlen b = Router.expecting types (skipn 4 (firstn 12 s))).
  { intros s b r Hs Hr.
    apply reader_read_FrameRead in Hr as (_ & _ & _ & Hle & -> & ->).
    split; [symmetry; apply firstn_skipn|].
    pose proof (expecting_nonneg types (skipn 4 (firstn 12 s))
                  (bytes_ok_skipn _ _ (bytes_ok_firstn _ _ Hs))) as Hnn.
    unfold zlen in *. rewrite length_firstn. lia. }
  destruct (Hlen _ _ _ Hok Hread) as [Happ Hbuf].
  split; [exact Happ|]. split; [exact Hbuf|].
  intros stream' buf' rest' Hok' Hpre Hread'.
  destruct (Hlen _ _ _ Hok' Hread') as [_ Hbuf'].
  rewrite Hbuf', Hbuf, Hpre. reflexivity.
Qed.

Lemma reader_length_from_12_bytes_witness :
  short_frame = short_frame ++ [] /\
  zlen short_frame
    = Router.expecting example_types (skipn 4 (firstn 12 short_frame)) /\
  forall stream' buf' rest',
    bytes_ok stream' ->
    firstn 12 stream' = firstn 12 short_frame ->
    Router.reader_read example_types example_MaxFrameSize stream'
      = Router.FrameRead buf' rest' ->
    zlen buf' = zlen short_frame.
Proof.
  apply (reader_length_from_12_bytes example_types example_MaxFrameSize
           short_frame short_frame []).
  - unfold bytes_ok, short_frame, is_byte. repeat constructor; lia.
  - vm_compute. reflexivity.
Defined.

(** C3 fails as stated: the two streams agree on their first 10 bytes,
    and the reader consumes 12 bytes of the one and 13 of the other. *)
Lemma reader_length_not_from_10_bytes :
  firstn 10 short_frame = firstn 10 long_frame /\
  Router.reader_read example_types example_MaxFrameSize short_frame
    = Router.FrameRead short_frame [] /\
  Router.reader_read example_types example_MaxFrameSize long_frame
    = Router.FrameRead long_frame [] /\
  zlen short_frame = 12 /\ zlen long_frame = 13.
Proof. repeat split. Qed.

(** Six codes cannot use up seven type bytes. *)
Lemma unused_type (types : Router.frameTypes) :
  exists t, 0 <= t < 7 /\ ~ In t (switch_codes types).
Proof.
  set (candidates := [0; 1; 2; 3; 4; 5; 6]).
  destruct (find (fun t => negb (existsb (Z.eqb t) (switch_codes types)))
                 candidates) as [t|] eqn:Hfind.
  - apply find_some in Hfind as [Hin Hfree]. exists t. split.
    + unfold candidates in Hin. simpl in Hin. lia.
    + intros Hused. apply negb_true_iff in Hfree.
      assert (existsb (Z.eqb t) (switch_codes types) = true); [|congruence].
      apply existsb_exists. exists t. split; [exact Hused|apply Z.eqb_refl].
  - exfalso.
    assert (Hincl : incl candidates (switch_codes types)).
    { intros t Hin. pose proof (find_none _ _ Hfind t Hin) as Hused.
      apply negb_false_iff, existsb_exists in Hused as (c & Hc & Heq).
      apply Z.eqb_eq in Heq. now subst. }
    apply NoDup_incl_length in Hincl.
    + simpl in Hincl. lia.
    + unfold candidates. repeat constructor; simpl; lia.
Qed.

Lemma expecting_default (types : Router.frameTypes) (header : list Z) :
  ~ In (nth 1 header 0) (switch_codes types) ->
  Router.expecting types header
  = 12 + BigEndian_Uint16 (nth 2 header 0) (nth 3 header 0)
       + BigEndian_Uint16 (nth 4 header 0) (nth 5 header 0)
       + BigEndian_Uint16 (nth 6 header 0) (nth 7 header 0).
Proof.
  intros Hfree. unfold Router.expecting.
  assert (Hne : forall c, In c (switch_codes types) ->
                          (nth 1 header 0 =? c) = false).
  { intros c Hc. apply Z.eqb_neq. intros Heq. apply Hfree. now rewrite Heq. }
  unfold switch_codes in Hne.
  rewrite !Hne by (simpl; tauto). reflexivity.
Qed.

(** Whatever the codes of the frame types are, the first 10 bytes do not
    fix the number of bytes the reader consumes. *)
Lemma reader_length_needs_bytes_10_11
      (types : Router.frameTypes) (MaxFrameSize : Z) :
  13 <= MaxFrameSize ->
  exists s1 s2,
    bytes_ok s1 /\ bytes_ok s2 /\ firstn 10 s1 = firstn 10 s2 /\
    Router.reader_read types MaxFrameSize s1 = Router.FrameRead s1 [] /\
    Router.reader_read types MaxFrameSize s2 = Router.FrameRead s2 [] /\
    zlen s1 = 12 /\ zlen s2 = 13.
Proof.
  intros Hmax. destruct (unused_type types) as (t & Ht & Hfree).
  exists [0x70; 0x69; 0x6e; 0x65; 0; t; 0; 0; 0; 0; 0; 0],
         [0x70; 0x69; 0x6e; 0x65; 0; t; 0; 0; 0; 0; 0; 1; 0x41].
  assert (Hb : is_byte t) by (unfold is_byte; lia).
  split; [|split].
  - unfold bytes_ok. repeat constructor; unfold is_byte; lia.
  - unfold bytes_ok. repeat constructor; unfold is_byte; lia.
  - split; [reflexivity|].
    unfold Router.reader_read. cbn [firstn skipn zlen length Z.of_nat].
    change (bytes_equal [112; 105; 110; 101] Types.FrameMagicBytes) with true.
    cbn [negb Z.ltb Z.compare Pos.compare Pos.compare_cont Pos.of_succ_nat
         Pos.succ].
    rewrite !expecting_default by exact Hfree.
    cbn [nth]. change (BigEndian_Uint16 0 0) with 0.
    change (BigEndian_Uint16 0 1) with 1.
    change (12 + 0 + 0 + 0) with 12. change (12 + 0 + 0 + 1) with 13.
    destruct (Z.ltb_spec MaxFrameSize 12); [lia|].
    destruct (Z.ltb_spec MaxFrameSize 13); [lia|].
    repeat split.
Qed.

(** After the bytes of a frame are read, no path of the step
    disconnects: a failed unmarshal and a wrong version both end the
    reader with a bare [return]. *)
Lemma reader_step_after_read
      (types : Router.frameTypes) (MaxFrameSize : Z)
      (UnmarshalBinary : list Z -> Types.result (Types.Frame * Z))
      (stream buf rest : list Z) :
  Router.reader_read types MaxFrameSize stream = Router.FrameRead buf rest ->
  (forall e, UnmarshalBinary buf = Types.Err e ->
     Router.reader_step types MaxFrameSize UnmarshalBinary stream
       = Router.Return_ rest) /\
  (forall f n, UnmarshalBinary buf = Types.Ok (f, n) ->
     Types.Version f <> Types.Version0 ->
     Router.reader_step types MaxFrameSize UnmarshalBinary stream
       = Router.Return_ rest) /\
  (forall f n, UnmarshalBinary buf = Types.Ok (f, n) ->
     Types.Version f = Types.Version0 ->
     Router.reader_step types MaxFrameSize UnmarshalBinary stream
       = Router.Forward f rest).
Proof.
  intros Hread. unfold Router.reader_step. rewrite Hread.
  repeat split.
  - intros e ->. reflexivity.
  - intros f n -> Hv. apply Z.eqb_neq in Hv. now rewrite Hv.
  - intros f n -> Hv. apply Z.eqb_eq in Hv. now rewrite Hv.
Qed.

(** C4, at a frame of version 1.  The reader consumes the 12 bytes of
    the frame; the codec of section 4.1 fails on them with
    [UnsupportedVersion], and a codec that accepts them returns a frame of
    version 1; either way the step is the bare [return], not a
    disconnect.  The sibling paths do what the claim says: a stream too
    short to peek disconnects, and a stream without the magic is resynced
    by one byte. *)
Theorem reader_version_1_not_disconnected :
  Router.reader_read example_types example_MaxFrameSize version_1_stream
    = Router.FrameRead version_1_frame [0x70; 0x69; 0x6e; 0x65] /\
  Types.UnmarshalBinary version_1_frame = Types.Err Types.UnsupportedVersion /\
  Router.reader_step example_types example_MaxFrameSize
                     Types.UnmarshalBinary version_1_stream
    = Router.Return_ [0x70; 0x69; 0x6e; 0x65] /\
  Router.reader_step example_types example_MaxFrameSize
                     unmarshal_any_version version_1_stream
    = Router.Return_ [0x70; 0x69; 0x6e; 0x65] /\
  Router.reader_step example_types example_MaxFrameSize
                     Types.UnmarshalBinary (firstn 11 version_1_stream)
    = Router.Disconnect "p.conn.Peek" /\
  Router.reader_step example_types example_MaxFrameSize
                     Types.UnmarshalBinary (0x00 :: version_1_stream)
    = Router.Resync version_1_stream.
Proof. repeat split. Qed.

(** The part of C4 the reader does keep: when the 12 peeked bytes do not
    begin with the magic, exactly one byte is dropped and the loop goes
    on. *)
Lemma reader_step_resync
      (types : Router.frameTypes) (MaxFrameSize : Z)
      (UnmarshalBinary : list Z -> Types.result (Types.Frame * Z))
      (stream : list Z) :
  12 <= zlen stream ->
  firstn 4 stream <> Types.FrameMagicBytes ->
  Router.reader_step types MaxFrameSize UnmarshalBinary stream
    = Router.Resync (skipn 1 stream).
Proof.
  intros Hlen Hmagic. unfold Router.reader_step, Router.reader_read.
  destruct (Z.ltb_spec (zlen stream) 12); [lia|].
  rewrite firstn_firstn. change (Nat.min 4 12) with 4%nat.
  destruct (bytes_equal (firstn 4 stream) Types.FrameMagicBytes) eqn:Heq.
  - apply bytes_equal_spec in Heq. contradiction.
  - reflexivity.
Qed.

(** ** The frame codec *)

Section Codec.

Import Types.

(** *** Readers undo writers *)

Lemma Varu64_read_cont (gs : list Z) : forall fuel n rest,
  Forall is_cont gs -> 0 <= n ->
  Varu64_read (length gs + fuel) (n mod 2 ^ 64) (gs ++ rest)
  = Varu64_read fuel (fold_left group_step gs n mod 2 ^ 64) rest.
Proof.
  induction gs as [|g gs IH]; intros fuel n rest Hgs Hn; [reflexivity|].
  inversion Hgs as [|? ? Hg Hgs']; subst.
  cbn [length Nat.add app Varu64_read fold_left].
  rewrite cont_bit_of_byte by now apply is_cont_byte.
  replace (g <? 128) with false
    by (symmetry; apply Z.ltb_ge; unfold is_cont in Hg; lia).
  rewrite accumulate_wrap; [|lia|assumption|now apply is_cont_byte].
  apply IH; [assumption|].
  unfold group_step. pose proof (Z.mod_pos_bound g 128 ltac:(lia)). lia.
Qed.

Lemma Varu64_roundtrip (n : Z) (rest : list Z) :
  is_uint64 n ->
  Varu64_UnmarshalBinary (Varu64_MarshalBinary n ++ rest) = Ok (n, rest).
Proof.
  unfold is_uint64. intros Hn. rewrite Varu64_MarshalBinary_split.
  set (gs := groups 9 (Z.shiftr n 7) []).
  assert (Hlen : (length gs <= 9)%nat) by apply groups_length.
  assert (Hhi : 0 <= Z.shiftr n 7) by (apply Z.shiftr_nonneg; lia).
  assert (Hval : fold_left group_step gs 0 = n / 128).
  { unfold gs. rewrite groups_value.
    - rewrite Z.shiftr_div_pow2 by lia. reflexivity.
    - split; [assumption|]. rewrite Z.shiftr_div_pow2 by lia.
      apply Z.div_lt_upper_bound; [lia|].
      change (2 ^ 7 * 128 ^ Z.of_nat 9) with (2 ^ 70). lia. }
  unfold Varu64_UnmarshalBinary.
  replace 10%nat with (length gs + S (9 - length gs))%nat by lia.
  rewrite <- app_assoc. change 0 with (0 mod 2 ^ 64) at 1.
  rewrite Varu64_read_cont by (try apply groups_cont; lia).
  rewrite Hval. cbn [Varu64_read app].
  pose proof (Z.mod_pos_bound n 128 ltac:(lia)) as Hd.
  assert (Hlow : Z.land n 0x7f = n mod 128).
  { change 0x7f with (Z.ones 7). now rewrite Z.land_ones by lia. }
  rewrite Hlow.
  assert (Hb : is_byte (n mod 128)) by (unfold is_byte; lia).
  rewrite cont_bit_of_byte by assumption.
  replace (n mod 128 <? 128) with true by (symmetry; apply Z.ltb_lt; lia).
  rewrite accumulate_wrap; [|lia|apply Z.div_pos; lia|assumption].
  unfold group_step. rewrite Z.mod_mod by lia.
  replace (n / 128 * 128 + n mod 128) with n
    by (pose proof (Z.div_mod n 128 ltac:(lia)); lia).
  now rewrite Z.mod_small by lia.
Qed.

Lemma lor_shiftl8 (a d : Z) :
  0 <= a -> 0 <= d < 256 -> Z.lor d (Z.shiftl a 8) = a * 256 + d.
Proof.
  intros Ha Hd. rewrite Z.lor_comm. now rewrite lor_shiftl by (simpl; lia).
Qed.

Lemma uint16_roundtrip (n : Z) (rest : list Z) :
  0 <= n < 2 ^ 16 ->
  read_uint16 (BigEndian_PutUint16 n ++ rest) = Ok (n, rest).
Proof.
  intros Hn. unfold BigEndian_PutUint16, read_uint16, BigEndian_Uint16.
  cbn [app]. rewrite (Z.mod_small n) by lia.
  rewrite Z.shiftr_div_pow2 by lia. change (2 ^ 8) with 256.
  assert (Hq : 0 <= n / 256 < 256).
  { split; [apply Z.div_pos; lia|apply Z.div_lt_upper_bound; lia]. }
  rewrite (Z.mod_small (n / 256)) by lia.
  pose proof (Z.mod_pos_bound n 256 ltac:(lia)).
  rewrite lor_shiftl8 by lia.
  do 2 f_equal. pose proof (Z.div_mod n 256 ltac:(lia)). lia.
Qed.

Lemma take_bytes_app (n : Z) (x rest : list Z) :
  zlen x = n -> take_bytes n (x ++ rest) = Ok (x, rest).
Proof.
  unfold take_bytes, zlen. intros <-. rewrite length_app, Nat2Z.id.
  destruct (Z.ltb_spec (Z.of_nat (length x + length rest))
                       (Z.of_nat (length x))); [lia|].
  rewrite firstn_app, Nat.sub_diag, firstn_0, firstn_all, app_nil_r.
  rewrite skipn_app, Nat.sub_diag, skipn_0, skipn_all. reflexivity.
Qed.

Lemma Varu64_MarshalBinary_nonempty (n : Z) :
  exists b bs, Varu64_MarshalBinary n = b :: bs.
Proof.
  pose proof (Varu64_MarshalBinary_length n) as H. unfold zlen in H.
  destruct (Varu64_MarshalBinary n) as [|b bs]; [simpl in H; lia|eauto].
Qed.

Lemma read_ports_roundtrip (c : Coordinates) : forall fuel,
  Forall is_uint64 c ->
  (length (flat_map Varu64_MarshalBinary c) <= fuel)%nat ->
  read_ports fuel (flat_map Varu64_MarshalBinary c) = Ok c.
Proof.
  induction c as [|p c IH]; intros fuel Hc Hfuel.
  - destruct fuel; reflexivity.
  - inversion Hc as [|? ? Hp Hc']; subst.
    cbn [flat_map] in *. rewrite length_app in Hfuel.
    pose proof (Varu64_MarshalBinary_length p) as Hlen. unfold zlen in Hlen.
    destruct fuel as [|fuel]; [lia|].
    destruct (Varu64_MarshalBinary_nonempty p) as (b & bs & Henc).
    cbn [read_ports]. rewrite Henc at 1. cbn [app].
    rewrite Varu64_roundtrip by assumption. cbn [bind].
    rewrite IH by (try assumption; lia). reflexivity.
Qed.

Lemma Coordinates_roundtrip (c : Coordinates) (rest : list Z) :
  coords_ok c ->
  Coordinates_UnmarshalBinary (Coordinates_MarshalBinary c ++ rest)
  = Ok (c, rest).
Proof.
  intros [Hc Hlen].
  unfold Coordinates_UnmarshalBinary, Coordinates_MarshalBinary.
  cbv zeta. rewrite <- app_assoc.
  rewrite uint16_roundtrip by (unfold zlen in *; lia). cbn [bind].
  rewrite take_bytes_app by reflexivity. cbn [bind].
  rewrite read_ports_roundtrip by (try assumption; lia). reflexivity.
Qed.

Lemma Watermark_roundtrip (w : VirtualSnakeWatermark) (rest : list Z) :
  watermark_ok w ->
  Watermark_UnmarshalBinary (Watermark_MarshalBinary w ++ rest) = Ok (w, rest).
Proof.
  intros [Hk Hs]. unfold Watermark_UnmarshalBinary, Watermark_MarshalBinary.
  rewrite <- app_assoc.
  rewrite take_bytes_app by exact Hk. cbn [bind].
  rewrite Varu64_roundtrip by assumption. cbn [bind].
  destruct w; reflexivity.
Qed.

Lemma read_body_roundtrip (f : Frame) (rest : list Z) :
  well_formed f ->
  read_body (Version f) (Type_ f) (Extra f) (frame_body f ++ rest)
  = Ok (f, rest).
Proof.
  intros (Hv & Ht & He & Hp & Hlayout).
  assert (Hplen : 0 <= zlen (Payload f) < 2 ^ 16) by (unfold zlen in *; lia).
  unfold read_body, frame_body.
  destruct (layout_of (Type_ f)).
  - destruct Hlayout as (Hpl & Hd & Hs & Hdk & Hsk & Hw).
    destruct f; simpl in *; subst; reflexivity.
  - destruct Hlayout as (Hdk & Hw & Hd & Hs & Hsk).
    rewrite <- !app_assoc.
    rewrite uint16_roundtrip by assumption. cbn [bind].
    rewrite take_bytes_app by exact Hdk. cbn [bind].
    rewrite Watermark_roundtrip by assumption. cbn [bind].
    rewrite take_bytes_app by reflexivity. cbn [bind].
    destruct f; simpl in *; subst; reflexivity.
  - destruct Hlayout as (Hdk & Hsk & Hw & Hd & Hs).
    rewrite <- !app_assoc.
    rewrite uint16_roundtrip by assumption. cbn [bind].
    rewrite take_bytes_app by exact Hdk. cbn [bind].
    rewrite take_bytes_app by exact Hsk. cbn [bind].
    rewrite Watermark_roundtrip by assumption. cbn [bind].
    rewrite take_bytes_app by reflexivity. cbn [bind].
    destruct f; simpl in *; subst; reflexivity.
  - destruct Hlayout as (Hd & Hs & Hdk & Hsk & Hw).
    rewrite <- !app_assoc.
    rewrite uint16_roundtrip by assumption. cbn [bind].
    rewrite Coordinates_roundtrip by assumption. cbn [bind].
    rewrite Coordinates_roundtrip by assumption. cbn [bind].
    rewrite take_bytes_app by reflexivity. cbn [bind].
    destruct f; simpl in *; subst; reflexivity.
Qed.

Lemma MarshalBinary_Ok (f : Frame) (cap : Z) (bs : list Z) :
  MarshalBinary f cap = Ok bs ->
  FrameHeaderLength + zlen (frame_body f) <= cap /\
  bs = FrameMagicBytes ++ [Version f; Type_ f] ++ Extra f
         ++ BigEndian_PutUint16 (FrameHeaderLength + zlen (frame_body f))
         ++ frame_body f.
Proof.
  unfold MarshalBinary. cbv zeta.
  destruct (Z.ltb_spec cap (FrameHeaderLength + zlen (frame_body f)));
    [discriminate|].
  intros Heq. injection Heq as <-. auto.
Qed.

Lemma zlen_app {A} (x y : list A) : zlen (x ++ y) = zlen x + zlen y.
Proof. unfold zlen. rewrite length_app. lia. Qed.

End Codec.

(** C1.  For every well-formed frame F (version 0, fields of the sizes of
    their Go types, zero values in the fields that F's type does not
    carry) and every buffer that can hold it, marshalling F succeeds, and
    unmarshalling the marshalled bytes, whatever bytes follow them, gives
    back F itself, hence the same version, type, coordinates, keys,
    watermark and payload, together with the number of bytes
    marshalled. *)
Theorem UnmarshalBinary_MarshalBinary
        (f : Types.Frame) (cap : Z) (rest : list Z) :
  Types.well_formed f ->
  Types.FrameHeaderLength + zlen (Types.frame_body f) <= cap ->
  exists bs,
    Types.MarshalBinary f cap = Types.Ok bs /\
    Types.UnmarshalBinary (bs ++ rest) = Types.Ok (f, zlen bs).
Proof.
  intros Hwf Hcap.
  destruct (Types.MarshalBinary f cap) as [bs|e] eqn:Hm.
  2:{ unfold Types.MarshalBinary in Hm. cbv zeta in Hm.
      destruct (Z.ltb_spec cap
                  (Types.FrameHeaderLength + zlen (Types.frame_body f)));
        [lia|discriminate]. }
  exists bs. split; [reflexivity|].
  apply MarshalBinary_Ok in Hm as [_ ->].
  pose proof Hwf as (Hv & _ & He & _).
  destruct (Types.Extra f) as [|e0 [|e1 [|e2 extra]]] eqn:Hextra;
    try (unfold zlen in He; simpl in He; lia).
  unfold BigEndian_PutUint16.
  cbv zeta. unfold Types.FrameMagicBytes at 1.
  cbn [app Types.UnmarshalBinary].
  change (bytes_equal [112; 105; 110; 101] Types.FrameMagicBytes) with true.
  replace (Types.Version f =? Types.Version0) with true
    by (symmetry; apply Z.eqb_eq; exact Hv).
  cbn [negb]. rewrite <- Hextra.
  rewrite read_body_roundtrip by exact Hwf.
  cbn [Types.bind]. do 2 f_equal.
  unfold zlen, Types.FrameMagicBytes. cbn [length app].
  rewrite !length_app. lia.
Qed.

Lemma UnmarshalBinary_MarshalBinary_witness :
  exists bs,
    Types.MarshalBinary tree_routed_frame 65535 = Types.Ok bs /\
    Types.UnmarshalBinary (bs ++ [0x70; 0x69])
      = Types.Ok (tree_routed_frame, zlen bs).
Proof.
  apply (UnmarshalBinary_MarshalBinary tree_routed_frame 65535 [0x70; 0x69]).
  - unfold Types.well_formed, Types.coords_ok, Types.is_uint64, is_byte.
    simpl. repeat split; try reflexivity; try discriminate;
      repeat constructor; try discriminate; try reflexivity.
  - vm_compute. discriminate.
Defined.

(** C5.  Marshalling the frame [{version 0, type 2 (Tree Routed), dst
    [1,2,3,4,5000], src [4,3,2,1], payload "ABCDEFG"}] produces exactly
    the 33 bytes [70 69 6e 65 00 02 00 00 00 21 00 07 00 06 01 02 03 04 a7
    08 00 04 04 03 02 01 41 42 43 44 45 46 47], whose length field
    [00 21] is 33. *)
Theorem MarshalBinary_tree_routed_frame :
  Types.MarshalBinary tree_routed_frame 65535
    = Types.Ok [0x70; 0x69; 0x6e; 0x65; 0x00; 0x02; 0x00; 0x00;
                0x00; 0x21; 0x00; 0x07;
                0x00; 0x06; 0x01; 0x02; 0x03; 0x04; 0xa7; 0x08;
                0x00; 0x04; 0x04; 0x03; 0x02; 0x01;
                0x41; 0x42; 0x43; 0x44; 0x45; 0x46; 0x47] /\
  BigEndian_Uint16 0x00 0x21 = 33.
Proof. split; reflexivity. Qed.

(** C6.  For all 32-byte keys DK and WK, marshalling the Bootstrap
    frame with destination key DK, watermark key WK, watermark sequence
    100 and payload [09 09 09 09 09] produces exactly [70 69 6e 65 | 00 03
    00 00 | 00 52 | 00 05 | DK | WK | 64 | 09 09 09 09 09]: the length
    field is 82 and the varint of 100 is the single byte [64]. *)
Theorem MarshalBinary_bootstrap_frame (dk wk : Types.PublicKey) :
  Types.key_ok dk -> Types.key_ok wk ->
  Types.MarshalBinary (bootstrap_frame dk wk) 65535
    = Types.Ok ([0x70; 0x69; 0x6e; 0x65; 0x00; 0x03; 0x00; 0x00;
                 0x00; 0x52; 0x00; 0x05]
                ++ dk ++ wk ++ [0x64] ++ [0x09; 0x09; 0x09; 0x09; 0x09]) /\
  BigEndian_Uint16 0x00 0x52 = 82 /\
  Types.Varu64_MarshalBinary 100 = [0x64].
Proof.
  intros Hdk Hwk. split; [|split; reflexivity].
  unfold Types.key_ok in *.
  unfold Types.MarshalBinary, Types.frame_body, bootstrap_frame.
  cbn [Types.Type_ Types.Payload Types.DestinationKey Types.Watermark
       Types.Version Types.Extra].
  change (Types.layout_of Types.TypeVirtualSnakeBootstrap)
    with Types.LayoutBootstrap.
  unfold Types.Watermark_MarshalBinary.
  cbn [Types.WatermarkPublicKey Types.Sequence].
  change (Types.Varu64_MarshalBinary 100) with [0x64].
  cbv zeta. rewrite !zlen_app, Hdk, Hwk.
  change (zlen (BigEndian_PutUint16 (zlen [9; 9; 9; 9; 9]))) with 2.
  change (zlen [0x64]) with 1. change (zlen [9; 9; 9; 9; 9]) with 5.
  change (Types.FrameHeaderLength + (2 + (Types.PublicKeySize
            + (Types.PublicKeySize + 1 + 5)))) with 82.
  change (65535 <? 82) with false. cbv iota.
  rewrite <- (app_assoc wk). reflexivity.
Qed.

Lemma MarshalBinary_bootstrap_frame_witness :
  Types.MarshalBinary (bootstrap_frame (repeat 0xaa 32) (repeat 0xbb 32)) 65535
    = Types.Ok ([0x70; 0x69; 0x6e; 0x65; 0x00; 0x03; 0x00; 0x00;
                 0x00; 0x52; 0x00; 0x05]
                ++ repeat 0xaa 32 ++ repeat 0xbb 32 ++ [0x64]
                ++ [0x09; 0x09; 0x09; 0x09; 0x09]) /\
  BigEndian_Uint16 0x00 0x52 = 82 /\
  Types.Varu64_MarshalBinary 100 = [0x64].
Proof.
  apply (MarshalBinary_bootstrap_frame (repeat 0xaa 32) (repeat 0xbb 32));
    reflexivity.
Defined.

(** The third test of [types/frame_test.go]: a SNEK Routed frame with
    payload "HELLO!" is the header with length 115, the payload length 6,
    the destination key, the source key, the watermark and the payload. *)
Lemma MarshalBinary_snake_frame (dk sk wk : Types.PublicKey) :
  Types.key_ok dk -> Types.key_ok sk -> Types.key_ok wk ->
  Types.MarshalBinary (snake_frame dk sk wk) 65535
    = Types.Ok ([0x70; 0x69; 0x6e; 0x65; 0; 4; 0; 0; 0; 115; 0; 6]
                ++ dk ++ sk ++ wk ++ [100]
                ++ [0x48; 0x45; 0x4c; 0x4c; 0x4f; 0x21]).
Proof.
  intros Hdk Hsk Hwk. unfold Types.key_ok in *.
  unfold Types.MarshalBinary, Types.frame_body, snake_frame.
  cbn [Types.Type_ Types.Payload Types.DestinationKey Types.SourceKey
       Types.Watermark Types.Version Types.Extra].
  change (Types.layout_of Types.TypeVirtualSnakeRouted)
    with Types.LayoutSnake.
  unfold Types.Watermark_MarshalBinary.
  cbn [Types.WatermarkPublicKey Types.Sequence].
  change (Types.Varu64_MarshalBinary 100) with [100].
  cbv zeta. rewrite !zlen_app, Hdk, Hsk, Hwk.
  change (Types.FrameHeaderLength
          + (zlen (BigEndian_PutUint16 (zlen [72; 69; 76; 76; 79; 33]))
             + (Types.PublicKeySize + (Types.PublicKeySize
                + (Types.PublicKeySize + zlen [100]
                   + zlen [72; 69; 76; 76; 79; 33]))))) with 115.
  change (65535 <? 115) with false. cbv iota.
  rewrite <- (app_assoc wk). reflexivity.
Qed.

(** The reader of the codec does reject a number that ten bytes do not
    end, and a number cut short. *)
Lemma Varu64_UnmarshalBinary_errors (rest : list Z) :
  Types.Varu64_UnmarshalBinary
    ([0x80; 0x80; 0x80; 0x80; 0x80; 0x80; 0x80; 0x80; 0x80; 0x80] ++ rest)
    = Types.Err Types.MalformedVarint /\
  Types.Varu64_UnmarshalBinary [0x80; 0x80] = Types.Err Types.Truncated.
Proof. split; reflexivity. Qed.

(** * Part III: further properties of the code *)

(** ** Liveness of a peer *)

(** X1.  A peer that has recently been seen with the router's root has
    recently been seen: whenever [SeenCommonRootRecently] is true, so is
    [SeenRecently], at the same time and for any router. *)
Theorem SeenCommonRootRecently_implies_SeenRecently
        (now : Router.Time) (r : Router.Router) (p : Router.Peer) :
  Router.SeenCommonRootRecently now r p = true ->
  Router.SeenRecently now p = true.
Proof.
  unfold Router.SeenCommonRootRecently, Router.SeenRecently.
  destruct (Router.alive p); simpl; [|discriminate].
  destruct (Router.lastAnnouncement now p); [reflexivity|discriminate].
Qed.

Lemma SeenCommonRootRecently_implies_SeenRecently_witness :
  Router.SeenRecently 8 live_peer = true.
Proof.
  apply (SeenCommonRootRecently_implies_SeenRecently 8 rootless_router
           live_peer).
  reflexivity.
Defined.

(** X2.  Once [stop] has been called on a peer, whether it succeeded or
    found the peer already stopped, the peer is neither [SeenRecently]
    nor [SeenCommonRootRecently], at any time and for any router, however
    fresh its stored announcement is. *)
Theorem stopped_peer_is_never_seen
        (p : Router.Peer) (now : Router.Time) (r : Router.Router) :
  Router.SeenRecently now (fst (Router.stop p)) = false /\
  Router.SeenCommonRootRecently now r (fst (Router.stop p)) = false.
Proof.
  assert (Hs : Router.started (fst (Router.stop p)) = false).
  { unfold Router.stop. destruct (Router.started p) eqn:E; simpl; auto. }
  unfold Router.SeenCommonRootRecently, Router.SeenRecently,
    Router.lastAnnouncement.
  rewrite Hs. simpl. split; [reflexivity|].
  destruct (Router.alive (fst (Router.stop p))); reflexivity.
Qed.

Lemma lastAnnouncement_earlier
      (now now' : Router.Time) (p : Router.Peer)
      (a : Router.rootAnnouncementWithTime) :
  now' <= now ->
  Router.lastAnnouncement now p = Some a ->
  Router.lastAnnouncement now' p = Some a.
Proof.
  intros Hle Hlast. apply lastAnnouncement_Some in Hlast as (Hs & Ha & Hlt).
  apply lastAnnouncement_Some. repeat split; try assumption.
  unfold Router.time_Since in *. lia.
Qed.

(** X3.  Being seen only ever expires: a peer seen at some time is seen
    at every earlier time, so a peer that is no longer seen stays unseen
    for as long as its state does not change.  The same holds for
    [SeenCommonRootRecently] with a fixed router. *)
Theorem seen_earlier
        (now now' : Router.Time) (r : Router.Router) (p : Router.Peer) :
  now' <= now ->
  (Router.SeenRecently now p = true -> Router.SeenRecently now' p = true) /\
  (Router.SeenCommonRootRecently now r p = true ->
   Router.SeenCommonRootRecently now' r p = true).
Proof.
  intros Hle.
  unfold Router.SeenRecently, Router.SeenCommonRootRecently.
  destruct (Router.lastAnnouncement now p) as [a|] eqn:Hlast.
  - rewrite (lastAnnouncement_earlier now now' p a Hle Hlast). tauto.
  - split; [discriminate|]. destruct (Router.alive p); discriminate.
Qed.

Lemma seen_earlier_witness :
  (Router.SeenRecently 40 live_peer = true ->
   Router.SeenRecently 8 live_peer = true) /\
  (Router.SeenCommonRootRecently 40 rootless_router live_peer = true ->
   Router.SeenCommonRootRecently 8 rootless_router live_peer = true).
Proof.
  apply (seen_earlier 40 8 rootless_router live_peer). lia.
Defined.

Section UpdateThenSeen.

Variable PeerCoords :
  Router.SwitchAnnouncement -> Types.PublicKey ->
  Router.SwitchPorts * option Router.error.

(** X4.  After a started peer has taken in an announcement at time [t]
    ([PeerCoords] succeeded), it is [SeenRecently] at exactly the times
    less than 45 seconds after [t], and [SeenCommonRootRecently] at
    exactly those of these times at which the announcement's root key is
    the router's root key. *)
Theorem seen_after_update
        (t now : Router.Time) (r : Router.Router) (p : Router.Peer)
        (new : Router.SwitchAnnouncement) (c : Router.SwitchPorts) :
  Router.started p = true ->
  PeerCoords new (Router.public p) = (c, None) ->
  let p' := fst (Router.updateAnnouncement PeerCoords t p new) in
  Router.SeenRecently now p' = (now - t <? 45 * Router.Second) /\
  Router.SeenCommonRootRecently now r p'
    = (now - t <? 45 * Router.Second)
      && bytes_equal (Router.RootPublicKey new) (Router.Router_RootPublicKey r).
Proof.
  intros Hs Hc. unfold Router.updateAnnouncement. rewrite Hc. simpl.
  unfold Router.SeenCommonRootRecently, Router.SeenRecently,
    Router.lastAnnouncement. simpl. rewrite Hs. simpl.
  unfold Router.time_Since, Router.announcementTimeout.
  rewrite Z.geb_leb, Z.ltb_antisym.
  change (45 * Router.Second) with 45000000000.
  destruct (45000000000 <=? now - t); split; reflexivity.
Qed.

(** X5.  After an announcement that [PeerCoords] rejects, the peer is
    neither [SeenRecently] nor [SeenCommonRootRecently] at any time: the
    rejected announcement also wipes the one stored before. *)
Theorem unseen_after_failed_update
        (t now : Router.Time) (r : Router.Router) (p : Router.Peer)
        (new : Router.SwitchAnnouncement) (c : Router.SwitchPorts)
        (e : Router.error) :
  PeerCoords new (Router.public p) = (c, Some e) ->
  let p' := fst (Router.updateAnnouncement PeerCoords t p new) in
  Router.SeenRecently now p' = false /\
  Router.SeenCommonRootRecently now r p' = false.
Proof.
  intros Hc. unfold Router.updateAnnouncement. rewrite Hc. simpl.
  unfold Router.SeenCommonRootRecently, Router.SeenRecently,
    Router.lastAnnouncement. simpl.
  destruct (Router.started p); auto.
Qed.

End UpdateThenSeen.

Lemma seen_after_update_witness :
  Router.SeenRecently 8 live_peer = (8 - 7 <? 45 * Router.Second) /\
  Router.SeenCommonRootRecently 8 rootless_router live_peer
    = (8 - 7 <? 45 * Router.Second)
      && bytes_equal (Router.RootPublicKey signed_announcement)
                     (Router.Router_RootPublicKey rootless_router).
Proof.
  apply (seen_after_update ports_of_signatures 7 8 rootless_router fresh_peer
           signed_announcement (Some [4])); reflexivity.
Defined.

Lemma unseen_after_failed_update_witness :
  Router.SeenRecently 8
    (fst (Router.updateAnnouncement ports_of_signatures 7 live_peer
            root_announcement)) = false /\
  Router.SeenCommonRootRecently 8 rootless_router
    (fst (Router.updateAnnouncement ports_of_signatures 7 live_peer
            root_announcement)) = false.
Proof.
  apply (unseen_after_failed_update ports_of_signatures 7 8 rootless_router
           live_peer root_announcement None
           (Router.errors_New "no signatures")).
  reflexivity.
Defined.

(** ** Starting and stopping a peer *)

Section Lifecycle.

Variable r_public : Types.PublicKey.
Variable tree_Root : Router.SwitchAnnouncement.
Variable EqualTo : Types.PublicKey -> Types.PublicKey -> bool.
Variable Sign :
  Router.SwitchAnnouncement -> Z ->
  Router.SwitchAnnouncement * option Router.error.
Variable MarshalBinary : Router.SwitchAnnouncement -> list Z * option Router.error.
Variable GetFrame : Types.Frame.
Variable TypeSTP : Z.

Let start := Link.start r_public tree_Root EqualTo Sign MarshalBinary
                        GetFrame TypeSTP.
Let generateAnnouncement :=
  Link.generateAnnouncement r_public tree_Root EqualTo Sign MarshalBinary
                            GetFrame TypeSTP.

(** X6.  [start] and [stop] alternate.  On a peer that is not started,
    [start] succeeds; a second [start] then fails, queues no
    announcement and leaves the peer as it is; [stop] then succeeds, and
    a second [stop] fails and leaves the peer as it is.  None of them
    touches the stored announcement, the coordinates or the
    statistics. *)
Theorem start_stop_alternate (p : Router.Peer) :
  Router.started p = false ->
  let p1 := fst (fst (start p)) in
  let p2 := fst (Router.stop p1) in
  snd (fst (start p)) = None /\
  Router.started p1 = true /\ Router.alive p1 = false /\
  start p1 = (p1, Some (Router.errors_New "switch peer is already started"),
              None) /\
  snd (Router.stop p1) = None /\
  Router.started p2 = false /\ Router.alive p2 = false /\
  Router.stop p2
    = (p2, Some (Router.errors_New "switch peer is already stopped")) /\
  Router.announcement p2 = Router.announcement p /\
  Router.coords p2 = Router.coords p /\
  Router.statistics p2 = Router.statistics p.
Proof.
  intros Hs. unfold start, Link.start, Router.stop. rewrite Hs. simpl.
  repeat split.
Qed.

(** X7.  Neither [stop] nor [start] clears the stored announcement, and
    [start] clears [alive]: a peer that is started again is
    [SeenRecently] exactly while the announcement of its previous run is
    younger than the timeout, but it is not [SeenCommonRootRecently] at
    any time, for any router, until [updateAnnouncement] succeeds
    again. *)
Theorem restarted_peer_seen_by_old_announcement
        (p : Router.Peer) (a : Router.rootAnnouncementWithTime)
        (now : Router.Time) (r : Router.Router) :
  Router.started p = false ->
  Router.announcement p = Some a ->
  let p1 := fst (fst (start p)) in
  Router.SeenRecently now p1 = (now - Router.at_ a <? 45 * Router.Second) /\
  Router.SeenCommonRootRecently now r p1 = false.
Proof.
  intros Hs Ha. unfold start, Link.start. rewrite Hs. simpl.
  unfold Router.SeenRecently, Router.SeenCommonRootRecently,
    Router.lastAnnouncement. simpl. rewrite Ha. split; [|reflexivity].
  unfold Router.time_Since, Router.announcementTimeout.
  rewrite Z.geb_leb, Z.ltb_antisym.
  change (45 * Router.Second) with 45000000000.
  destruct (45000000000 <=? now - Router.at_ a); reflexivity.
Qed.

(** X8.  [generateAnnouncement] returns a frame only for a port other
    than 0 and a root announcement that none of whose signatures is by
    the router's own key, and only when signing and marshalling both
    succeed; the frame is then of version 0 and type STP, with an empty
    destination and the marshalled signed announcement as its payload.
    In particular no announcement is made on the local port, and none
    that would loop. *)
Theorem generateAnnouncement_Some
        (p : Router.Peer) (f : Types.Frame) :
  generateAnnouncement p = Some f <->
  Router.port p <> 0 /\
  (forall sig, In sig (Router.Signatures tree_Root) ->
               EqualTo r_public (Router.SignerPublicKey sig) = false) /\
  exists signed payload,
    Sign tree_Root (Router.port p) = (signed, None) /\
    MarshalBinary signed = (payload, None) /\
    f = {| Types.Version := Types.Version0;
           Types.Type_ := TypeSTP;
           Types.Extra := Types.Extra GetFrame;
           Types.Destination := [];
           Types.DestinationKey := Types.DestinationKey GetFrame;
           Types.Source := Types.Source GetFrame;
           Types.SourceKey := Types.SourceKey GetFrame;
           Types.Watermark := Types.Watermark GetFrame;
           Types.Payload := payload |}.
Proof.
  unfold generateAnnouncement, Link.generateAnnouncement.
  destruct (Z.eqb_spec (Router.port p) 0) as [Hz|Hnz].
  { split; [discriminate|]. intros [H _]. contradiction. }
  destruct (existsb _ (Router.Signatures tree_Root)) eqn:Hex.
  { split; [discriminate|]. intros (_ & Hall & _).
    apply existsb_exists in Hex as (sig & Hin & Heq).
    rewrite (Hall sig Hin) in Heq. discriminate. }
  assert (Hall : forall sig, In sig (Router.Signatures tree_Root) ->
            EqualTo r_public (Router.SignerPublicKey sig) = false).
  { intros sig Hin.
    destruct (EqualTo r_public (Router.SignerPublicKey sig)) eqn:Heq;
      [|reflexivity].
    assert (existsb (fun sig => EqualTo r_public (Router.SignerPublicKey sig))
                    (Router.Signatures tree_Root) = true)
      by (apply existsb_exists; eauto).
    congruence. }
  destruct (Sign tree_Root (Router.port p)) as [signed [e|]] eqn:HS.
  { split; [discriminate|]. intros (_ & _ & s' & pl & H & _). discriminate. }
  destruct (MarshalBinary signed) as [payload [e|]] eqn:HM.
  { split; [discriminate|].
    intros (_ & _ & s' & pl & H & H' & _). inversion H; subst.
    rewrite HM in H'. discriminate. }
  split.
  - intros H. inversion H; subst. repeat split; try assumption.
    exists signed, payload. auto.
  - intros (_ & _ & s' & pl & H & H' & ->). inversion H; subst.
    rewrite HM in H'. inversion H'; subst. reflexivity.
Qed.

End Lifecycle.

Lemma start_stop_alternate_witness :
  snd (fst (example_start stopped_live_peer)) = None /\
  Router.started (fst (fst (example_start stopped_live_peer))) = true.
Proof.
  pose proof (start_stop_alternate (repeat 1 32) root_announcement
                bytes_equal sign_hop marshal_hops zero_frame 0
                stopped_live_peer eq_refl) as H.
  split; [exact (proj1 H)|exact (proj1 (proj2 H))].
Defined.

Lemma restarted_peer_seen_by_old_announcement_witness :
  Router.SeenRecently 9 (fst (fst (example_start stopped_live_peer)))
    = (9 - 7 <? 45 * Router.Second) /\
  Router.SeenCommonRootRecently 9 rootless_router
    (fst (fst (example_start stopped_live_peer))) = false.
Proof.
  apply (restarted_peer_seen_by_old_announcement (repeat 1 32)
           root_announcement bytes_equal sign_hop marshal_hops zero_frame 0
           stopped_live_peer
           {| Router.announced := signed_announcement; Router.at_ := 7 |}
           9 rootless_router); reflexivity.
Defined.

(** ** Forwarding *)

Lemma length_set_nth {A} (x : A) (l : list A) : forall i,
  length (set_nth i x l) = length l.
Proof.
  induction l as [|y l IH]; intros [|i]; simpl; auto.
Qed.

Lemma nth_error_set_nth_same {A} (x : A) (l : list A) : forall i y,
  nth_error l i = Some y -> nth_error (set_nth i x l) i = Some x.
Proof.
  induction l as [|z l IH]; intros [|i] y; simpl; try discriminate; eauto.
Qed.

Lemma nth_error_set_nth_other {A} (x : A) (l : list A) : forall i j,
  i <> j -> nth_error (set_nth i x l) j = nth_error l j.
Proof.
  induction l as [|z l IH]; intros [|i] [|j] Hne; simpl; auto;
    try contradiction.
Qed.

Lemma Forall2_same {A} (R : A -> A -> Prop) (l : list A) :
  (forall x, R x x) -> Forall2 R l l.
Proof. intros H. induction l; constructor; auto. Qed.

Lemma Forall2_nth_error_l {A B} (R : A -> B -> Prop) (l : list A) :
  forall l' i x, Forall2 R l l' -> nth_error l i = Some x ->
                 exists y, nth_error l' i = Some y /\ R x y.
Proof.
  induction l as [|a l IH]; intros l' i x H Hx.
  - destruct i; discriminate.
  - inversion H as [|? b ? l2 Hab Hrest]; subst.
    destruct i as [|i]; simpl in *.
    + inversion Hx; subst. eauto.
    + eauto.
Qed.

Lemma Forall2_nth_error_r {A B} (R : A -> B -> Prop) (l : list A) :
  forall l' i y, Forall2 R l l' -> nth_error l' i = Some y ->
                 exists x, nth_error l i = Some x /\ R x y.
Proof.
  induction l as [|a l IH]; intros l' i y H Hy.
  - inversion H; subst. destruct i; discriminate.
  - inversion H as [|? b ? l2 Hab Hrest]; subst.
    destruct i as [|i]; simpl in *.
    + inversion Hy; subst. eauto.
    + eauto.
Qed.

(** Replacing one element by one that is related to the same elements. *)
Lemma Forall2_set_nth {A B} (R : A -> B -> Prop) (l : list A) :
  forall l' i y y',
    Forall2 R l l' -> nth_error l' i = Some y ->
    (forall x, nth_error l i = Some x -> R x y -> R x y') ->
    Forall2 R l (set_nth i y' l').
Proof.
  induction l as [|a l IH]; intros l' i y y' H Hy Hstep.
  - inversion H; subst. destruct i; discriminate.
  - inversion H as [|? b ? l2 Hab Hrest]; subst.
    destruct i as [|i]; simpl in *.
    + inversion Hy; subst. constructor; auto.
    + constructor; [assumption|]. eapply IH; eauto.
Qed.

Section ForwardFacts.

Variable Q : Type.
Variable lifo_push : Q -> Types.Frame -> Q * bool.
Variable fifo_push : Q -> Types.Frame -> Q * bool.
Variable signPathfind :
  Types.Frame -> Router.Peer -> Router.Peer ->
  option Types.Frame * option Router.error.
Variable EqualTo : Types.PublicKey -> Types.PublicKey -> bool.
Variable types : Router.frameTypes.
Variable ftypes : Link.forwardTypes.

Let try_port :=
  Link.try_port Q lifo_push fifo_push signPathfind EqualTo types ftypes.
Let forward_loop :=
  Link.forward_loop Q lifo_push fifo_push signPathfind EqualTo types ftypes.
Let forward :=
  Link.forward Q lifo_push fifo_push signPathfind EqualTo types ftypes.

Lemma same_identity_refl (p : Router.Peer) : same_identity p p.
Proof. unfold same_identity. repeat split. Qed.

Lemma same_identity_trans (a b c : Router.Peer) :
  same_identity a b -> same_identity b c -> same_identity a c.
Proof.
  unfold same_identity. intros H1 H2.
  repeat match goal with H : _ /\ _ |- _ => destruct H end.
  repeat split; congruence.
Qed.

Lemma skipped_same_identity (p0 p d0 d : Router.Peer) :
  same_identity p0 p -> same_identity d0 d ->
  skipped EqualTo p d = skipped EqualTo p0 d0.
Proof.
  unfold same_identity, skipped, Link.not_ready, Link.same_peer.
  intros H1 H2.
  repeat match goal with H : _ /\ _ |- _ => destruct H end.
  repeat match goal with H : _ = _ |- _ => rewrite H; clear H end.
  reflexivity.
Qed.

Lemma push_traffic_pushed (de de' : Link.portEntry Q) (f : Types.Frame)
      (sent : bool) :
  Link.push_traffic Q lifo_push de f = (de', sent) -> pushed sent de de'.
Proof.
  unfold Link.push_traffic.
  destruct (lifo_push (Link.trafficOut de) f) as [q ok].
  intros H. inversion H; subst. unfold pushed. split; [|split].
  - unfold same_identity. simpl. repeat split.
  - reflexivity.
  - destruct sent; [left|]; reflexivity.
Qed.

Lemma push_proto_pushed (de de' : Link.portEntry Q) (f : Types.Frame)
      (sent : bool) :
  Link.push_proto Q fifo_push de f = (de', sent) -> pushed sent de de'.
Proof.
  unfold Link.push_proto.
  destruct (fifo_push (Link.protoOut de) f) as [q ok].
  intros H. inversion H; subst. unfold pushed. split; [|split].
  - unfold same_identity. simpl. repeat split.
  - reflexivity.
  - destruct sent; [right|]; reflexivity.
Qed.

(** One turn of the loop either leaves the ports alone or pushes on the
    port of the hop, which is then neither unready nor the sender. *)
Lemma try_port_cases (self : nat) (frame : Types.Frame)
      (cur cur' : list (Link.portEntry Q)) (hop : Z) (sent : bool) :
  try_port self frame cur hop = Some (cur', sent) ->
  exists pe de,
    nth_error cur self = Some pe /\ 0 <= hop /\
    nth_error cur (Z.to_nat hop) = Some de /\
    ((cur' = cur /\ sent = false) \/
     (skipped EqualTo (Link.entry_peer pe) (Link.entry_peer de) = false /\
      Link.frame_case types ftypes (Types.Type_ frame) <> Link.CaseNone /\
      exists de', cur' = set_nth (Z.to_nat hop) de' cur /\ pushed sent de de')).
Proof.
  unfold try_port, Link.try_port.
  destruct (nth_error cur self) as [pe|]; [|discriminate].
  destruct (Z.ltb_spec hop 0); [discriminate|].
  destruct (nth_error cur (Z.to_nat hop)) as [de|]; [|discriminate].
  intros Hstep. exists pe, de. repeat split; try assumption; try lia.
  unfold skipped.
  destruct (Link.not_ready (Link.entry_peer de));
    [inversion Hstep; subst; left; auto|].
  destruct (Link.same_peer EqualTo (Link.entry_peer pe) (Link.entry_peer de));
    [inversion Hstep; subst; left; auto|].
  destruct (Link.frame_case types ftypes (Types.Type_ frame)).
  - destruct (signPathfind frame (Link.entry_peer pe) (Link.entry_peer de))
      as [[signedframe|] [e|]];
      try (inversion Hstep; subst; left; auto; fail).
    destruct (Link.push_traffic Q lifo_push de signedframe) as [de' ok] eqn:Hp.
    inversion Hstep; subst. right. repeat split; try discriminate.
    exists de'. split; [reflexivity|]. eapply push_traffic_pushed; eauto.
  - destruct (Link.push_proto Q fifo_push de frame) as [de' ok] eqn:Hp.
    inversion Hstep; subst. right. repeat split; try discriminate.
    exists de'. split; [reflexivity|]. eapply push_proto_pushed; eauto.
  - destruct (Link.push_traffic Q lifo_push de frame) as [de' ok] eqn:Hp.
    inversion Hstep; subst. right. repeat split; try discriminate.
    exists de'. split; [reflexivity|]. eapply push_traffic_pushed; eauto.
  - inversion Hstep; subst. left. auto.
Qed.

Lemma quiet_refl (p : Router.Peer) (e : Link.portEntry Q) :
  quiet EqualTo p e e.
Proof.
  unfold quiet, untouched, same_identity. repeat split.
Qed.

(** A push that no queue took keeps the ports [quiet]. *)
Lemma try_port_quiet (self : nat) (frame : Types.Frame)
      (ports cur cur' : list (Link.portEntry Q)) (pe0 : Link.portEntry Q)
      (hop : Z) :
  nth_error ports self = Some pe0 ->
  Forall2 (quiet EqualTo (Link.entry_peer pe0)) ports cur ->
  try_port self frame cur hop = Some (cur', false) ->
  Forall2 (quiet EqualTo (Link.entry_peer pe0)) ports cur'.
Proof.
  intros Hself Hinv Hstep.
  apply try_port_cases in Hstep
    as (pe & de & Hpe & Hhop & Hde & [[-> _]|(Hskip & _ & de' & -> & Hpush)]);
    [assumption|].
  destruct (Forall2_nth_error_l _ _ _ _ _ Hinv Hself)
    as (pe' & Hpe' & (Hidp & _)).
  rewrite Hpe in Hpe'. inversion Hpe'; subst pe'.
  eapply Forall2_set_nth; [exact Hinv|exact Hde|].
  intros de0 Hde0 (Hid & Hnd & Hsc & Hskip0).
  destruct Hpush as (Hid' & Hnd' & Hsc').
  unfold quiet. split; [|split; [|split]].
  - eapply same_identity_trans; eauto.
  - congruence.
  - congruence.
  - intros Hs. exfalso.
    rewrite <- (skipped_same_identity _ _ _ _ Hidp Hid) in Hs. congruence.
Qed.

(** The loop as a whole: it stays [quiet] until the one push a queue
    takes, which ends it. *)
Lemma forward_loop_spec (self : nat) (frame : Types.Frame)
      (ports : list (Link.portEntry Q)) (pe0 : Link.portEntry Q)
      (hops : list Z) : forall cur cur' sent,
  nth_error ports self = Some pe0 ->
  Forall2 (quiet EqualTo (Link.entry_peer pe0)) ports cur ->
  forward_loop self frame hops cur = Some (cur', sent) ->
  if sent then
    exists mid hop de0 de de',
      In hop hops /\ 0 <= hop /\
      Forall2 (quiet EqualTo (Link.entry_peer pe0)) ports mid /\
      nth_error ports (Z.to_nat hop) = Some de0 /\
      nth_error mid (Z.to_nat hop) = Some de /\
      cur' = set_nth (Z.to_nat hop) de' mid /\
      skipped EqualTo (Link.entry_peer pe0) (Link.entry_peer de0) = false /\
      Link.frame_case types ftypes (Types.Type_ frame) <> Link.CaseNone /\
      pushed true de de'
  else Forall2 (quiet EqualTo (Link.entry_peer pe0)) ports cur'.
Proof.
  induction hops as [|hop hops IH]; intros cur cur' sent Hself Hinv Hrun.
  - simpl in Hrun. inversion Hrun; subst. exact Hinv.
  - simpl in Hrun. fold forward_loop in Hrun.
    change (Link.try_port Q lifo_push fifo_push signPathfind EqualTo
              types ftypes self frame cur hop)
      with (try_port self frame cur hop) in Hrun.
    destruct (try_port self frame cur hop) as [[mid [|]]|] eqn:Hstep;
      [| |discriminate].
    + inversion Hrun; subst.
      apply try_port_cases in Hstep
        as (pe & de & Hpe & Hhop & Hde
            & [[_ Hf]|(Hskip & Hcase & de' & -> & Hpush)]);
        [discriminate|].
      destruct (Forall2_nth_error_l _ _ _ _ _ Hinv Hself)
        as (pe' & Hpe' & (Hidp & _)).
      rewrite Hpe in Hpe'. inversion Hpe'; subst pe'.
      destruct (Forall2_nth_error_r _ _ _ _ _ Hinv Hde)
        as (de0 & Hde0 & (Hid & _)).
      exists cur, hop, de0, de, de'.
      split; [left; reflexivity|]. split; [assumption|].
      split; [assumption|]. split; [assumption|]. split; [assumption|].
      split; [reflexivity|]. split; [|split; assumption].
      rewrite <- (skipped_same_identity _ _ _ _ Hidp Hid). exact Hskip.
    + pose proof (try_port_quiet _ _ _ _ _ _ _ Hself Hinv Hstep) as Hmid.
      specialize (IH mid cur' sent Hself Hmid Hrun).
      destruct sent; [|exact IH].
      destruct IH as (m & h & d0 & d & d' & Hin & Hrest).
      exists m, h, d0, d, d'. split; [right; exact Hin|exact Hrest].
Qed.

Lemma forward_spec (self : nat) (frame : Types.Frame) (hops : list Z)
      (ports ports' : list (Link.portEntry Q)) (pe0 : Link.portEntry Q)
      (sent : bool) :
  nth_error ports self = Some pe0 ->
  forward self frame hops ports = Some (ports', sent) ->
  exists mid,
    Forall2 (quiet EqualTo (Link.entry_peer pe0)) ports mid /\
    if sent then
      exists hop de0 de de',
        In hop hops /\ 0 <= hop /\
        nth_error ports (Z.to_nat hop) = Some de0 /\
        nth_error mid (Z.to_nat hop) = Some de /\
        ports' = set_nth (Z.to_nat hop) de' mid /\
        skipped EqualTo (Link.entry_peer pe0) (Link.entry_peer de0) = false /\
        Link.frame_case types ftypes (Types.Type_ frame) <> Link.CaseNone /\
        pushed true de de'
    else
      exists pe,
        nth_error mid self = Some pe /\
        ports' =
          set_nth self
            {| Link.entry_peer :=
                 Link.with_statistics (Link.entry_peer pe)
                   (Link.count_no_destination
                      (Router.statistics (Link.entry_peer pe)));
               Link.trafficOut := Link.trafficOut pe;
               Link.protoOut := Link.protoOut pe |} mid.
Proof.
  intros Hself Hrun. unfold forward, Link.forward in Hrun.
  change (Link.forward_loop Q lifo_push fifo_push signPathfind EqualTo
            types ftypes self frame hops ports)
    with (forward_loop self frame hops ports) in Hrun.
  destruct (forward_loop self frame hops ports) as [[cur [|]]|] eqn:Hloop;
    [| |discriminate].
  - inversion Hrun; subst.
    pose proof (forward_loop_spec self frame ports pe0 hops ports ports' true
                  Hself (Forall2_same _ _ (quiet_refl _)) Hloop) as H.
    destruct H as (mid & hop & de0 & de & de' & Hin & Hhop & Hq & Hrest).
    exists mid. split; [exact Hq|]. exists hop, de0, de, de'. auto.
  - pose proof (forward_loop_spec self frame ports pe0 hops ports cur false
                  Hself (Forall2_same _ _ (quiet_refl _)) Hloop) as Hq.
    simpl in Hq. destruct (nth_error cur self) as [pe|] eqn:Hpe;
      [|discriminate].
    inversion Hrun; subst. exists cur. split; [exact Hq|].
    exists pe. auto.
Qed.

(** The slot [j] of a list that was changed in slot [i] only. *)
Lemma nth_error_set_nth_cases {A} (y' : A) (l : list A) (i j : nat) (z : A) :
  nth_error (set_nth i y' l) j = Some z ->
  (j = i /\ z = y') \/ (j <> i /\ nth_error l j = Some z).
Proof.
  intros H. destruct (Nat.eq_dec j i) as [->|Hne].
  - left. split; [reflexivity|].
    destruct (nth_error l i) as [y|] eqn:Hy.
    + rewrite (nth_error_set_nth_same _ _ _ _ Hy) in H. congruence.
    + exfalso. apply nth_error_None in Hy.
      assert (nth_error (set_nth i y' l) i <> None) by congruence.
      apply nth_error_Some in H0. rewrite length_set_nth in H0. lia.
  - right. split; [exact Hne|].
    rewrite nth_error_set_nth_other in H by congruence. exact H.
Qed.

(** X9.  Forwarding a frame counts it as without destination exactly
    when no queue took it: if the frame was not sent, the counter
    [rxDroppedNoDestination] of the peer it came in on goes up by one; in
    every other case, and at every other port, the counter stays as it
    was.  The port table keeps its length. *)
Theorem forward_counts_no_destination
        (self : nat) (frame : Types.Frame) (hops : list Z)
        (ports ports' : list (Link.portEntry Q)) (pe0 : Link.portEntry Q)
        (sent : bool) :
  nth_error ports self = Some pe0 ->
  forward self frame hops ports = Some (ports', sent) ->
  length ports' = length ports /\
  forall i e e',
    nth_error ports i = Some e -> nth_error ports' i = Some e' ->
    no_destination_counter e'
    = if negb sent && (i =? self)%nat then Inc (no_destination_counter e)
      else no_destination_counter e.
Proof.
  intros Hself Hrun.
  destruct (forward_spec _ _ _ _ _ _ _ Hself Hrun) as (mid & Hq & Hend).
  assert (Hmid : forall i e m, nth_error ports i = Some e ->
            nth_error mid i = Some m ->
            no_destination_counter m = no_destination_counter e).
  { intros i e m He Hm.
    destruct (Forall2_nth_error_l _ _ _ _ _ Hq He) as (m' & Hm' & Hr).
    rewrite Hm in Hm'. inversion Hm'; subst. apply Hr. }
  destruct sent.
  - destruct Hend as (hop & de0 & de & de' & _ & _ & Hde0 & Hde & -> & _ & _
                      & Hpush).
    split; [rewrite length_set_nth; symmetry; eapply Forall2_length; exact Hq|].
    intros i e e' He He'. simpl.
    apply nth_error_set_nth_cases in He' as [[-> ->]|[_ He']].
    + destruct Hpush as (_ & -> & _). eapply Hmid; eauto.
    + eapply Hmid; eauto.
  - destruct Hend as (pe & Hpe & ->).
    split; [rewrite length_set_nth; symmetry; eapply Forall2_length; exact Hq|].
    intros i e e' He He'. simpl.
    apply nth_error_set_nth_cases in He' as [[-> ->]|[Hne He']].
    + rewrite Nat.eqb_refl. unfold no_destination_counter at 1. simpl.
      f_equal. eapply Hmid; eauto.
    + replace (i =? self)%nat with false
        by (symmetry; apply Nat.eqb_neq; exact Hne).
      eapply Hmid; eauto.
Qed.

(** X10.  Forwarding never queues a frame on a port that is not started,
    on a port other than 0 that is not alive, or, for a frame that came
    in on a port other than 0, on that same port or on another port other
    than 0 with the sender's public key: such ports keep both queues and
    all four transmit counters.  No port changes anything but its queues
    and statistics. *)
Theorem forward_passes_over
        (self : nat) (frame : Types.Frame) (hops : list Z)
        (ports ports' : list (Link.portEntry Q)) (pe0 : Link.portEntry Q)
        (sent : bool) :
  nth_error ports self = Some pe0 ->
  forward self frame hops ports = Some (ports', sent) ->
  Forall2 (fun e e' =>
             same_identity (Link.entry_peer e) (Link.entry_peer e') /\
             (skipped EqualTo (Link.entry_peer pe0) (Link.entry_peer e) = true ->
              untouched e e'))
          ports ports'.
Proof.
  intros Hself Hrun.
  destruct (forward_spec _ _ _ _ _ _ _ Hself Hrun) as (mid & Hq & Hend).
  assert (Hweak : Forall2 (fun e e' =>
             same_identity (Link.entry_peer e) (Link.entry_peer e') /\
             (skipped EqualTo (Link.entry_peer pe0) (Link.entry_peer e) = true ->
              untouched e e')) ports mid).
  { eapply Forall2_impl; [|exact Hq]. intros e e' (Hid & _ & _ & Hs). auto. }
  destruct sent.
  - destruct Hend as (hop & de0 & de & de' & _ & _ & Hde0 & Hde & -> & Hskip
                      & _ & (Hid' & _)).
    eapply Forall2_set_nth; [exact Hweak|exact Hde|].
    intros x Hx (Hid & Hs). split.
    + eapply same_identity_trans; eauto.
    + intros Hsk. rewrite Hx in Hde0. inversion Hde0; subst. congruence.
  - destruct Hend as (pe & Hpe & ->).
    eapply Forall2_set_nth; [exact Hweak|exact Hpe|].
    intros x Hx (Hid & Hs). split.
    + exact Hid.
    + intros Hsk. specialize (Hs Hsk). unfold untouched in *. simpl. exact Hs.
Qed.

(** X11.  A forwarded frame is taken by exactly one queue: if the frame
    was sent, one port among the next hops, one that the loop does not
    pass over, has counted one more success (traffic or protocol), and no
    other port has counted any; if it was not sent, no port has. *)
Theorem forward_sends_once
        (self : nat) (frame : Types.Frame) (hops : list Z)
        (ports ports' : list (Link.portEntry Q)) (pe0 : Link.portEntry Q)
        (sent : bool) :
  nth_error ports self = Some pe0 ->
  forward self frame hops ports = Some (ports', sent) ->
  if sent then
    exists hop e e',
      In hop hops /\ 0 <= hop /\
      nth_error ports (Z.to_nat hop) = Some e /\
      nth_error ports' (Z.to_nat hop) = Some e' /\
      skipped EqualTo (Link.entry_peer pe0) (Link.entry_peer e) = false /\
      one_more (sent_counters e) (sent_counters e') /\
      forall j f f',
        j <> Z.to_nat hop ->
        nth_error ports j = Some f -> nth_error ports' j = Some f' ->
        sent_counters f' = sent_counters f
  else
    forall j f f',
      nth_error ports j = Some f -> nth_error ports' j = Some f' ->
      sent_counters f' = sent_counters f.
Proof.
  intros Hself Hrun.
  destruct (forward_spec _ _ _ _ _ _ _ Hself Hrun) as (mid & Hq & Hend).
  assert (Hmid : forall i e m, nth_error ports i = Some e ->
            nth_error mid i = Some m -> sent_counters m = sent_counters e).
  { intros i e m He Hm.
    destruct (Forall2_nth_error_l _ _ _ _ _ Hq He) as (m' & Hm' & Hr).
    rewrite Hm in Hm'. inversion Hm'; subst. apply Hr. }
  destruct sent.
  - destruct Hend as (hop & de0 & de & de' & Hin & Hhop & Hde0 & Hde & -> &
                      Hskip & _ & (_ & _ & Hone)).
    exists hop, de0, de'. repeat split; try assumption.
    + eapply nth_error_set_nth_same; eauto.
    + rewrite <- (Hmid _ _ _ Hde0 Hde). exact Hone.
    + intros j f f' Hne Hf Hf'.
      rewrite nth_error_set_nth_other in Hf' by congruence. eauto.
  - destruct Hend as (pe & Hpe & ->).
    intros j f f' Hf Hf'.
    apply nth_error_set_nth_cases in Hf' as [[-> ->]|[_ Hf']].
    + unfold sent_counters at 1. simpl. eapply (Hmid self); eauto.
    + eauto.
Qed.

(** X12.  A frame of a type that the forwarding [switch] names in none of
    its cases is never put on a queue, whatever the next hops are: the
    only change is one more frame without destination at the peer it
    came in on. *)
Theorem forward_unnamed_type
        (self : nat) (frame : Types.Frame) (hops : list Z)
        (ports ports' : list (Link.portEntry Q)) (pe0 : Link.portEntry Q)
        (sent : bool) :
  Link.frame_case types ftypes (Types.Type_ frame) = Link.CaseNone ->
  nth_error ports self = Some pe0 ->
  forward self frame hops ports = Some (ports', sent) ->
  sent = false /\
  ports' =
    set_nth self
      {| Link.entry_peer :=
           Link.with_statistics (Link.entry_peer pe0)
             (Link.count_no_destination
                (Router.statistics (Link.entry_peer pe0)));
         Link.trafficOut := Link.trafficOut pe0;
         Link.protoOut := Link.protoOut pe0 |} ports.
Proof.
  intros Hcase Hself Hrun.
  assert (Hloop : forall cur r,
            forward_loop self frame hops cur = Some r -> r = (cur, false)).
  { clear Hrun. induction hops as [|hop hs IH]; intros cur r Hr.
    - simpl in Hr. congruence.
    - simpl in Hr. fold forward_loop in Hr.
      change (Link.try_port Q lifo_push fifo_push signPathfind EqualTo
                types ftypes self frame cur hop)
        with (try_port self frame cur hop) in Hr.
      destruct (try_port self frame cur hop) as [[mid s]|] eqn:Hstep;
        [|discriminate].
      apply try_port_cases in Hstep
        as (pe & de & _ & _ & _ & [[-> ->]|(_ & Hc & _)]);
        [|congruence].
      apply IH. exact Hr. }
  unfold forward, Link.forward in Hrun.
  change (Link.forward_loop Q lifo_push fifo_push signPathfind EqualTo
            types ftypes self frame hops ports)
    with (forward_loop self frame hops ports) in Hrun.
  destruct (forward_loop self frame hops ports) as [r|] eqn:Hl;
    [|discriminate].
  rewrite (Hloop _ _ Hl) in Hrun. rewrite Hself in Hrun.
  inversion Hrun; subst. auto.
Qed.

End ForwardFacts.

Lemma forward_counts_no_destination_witness :
  length example_ports_sent = length example_ports /\
  forall i e e',
    nth_error example_ports i = Some e ->
    nth_error example_ports_sent i = Some e' ->
    no_destination_counter e'
    = if negb true && (i =? 2)%nat then Inc (no_destination_counter e)
      else no_destination_counter e.
Proof.
  apply (forward_counts_no_destination (list Types.Frame) push_if_empty
           push_if_empty sign_nothing bytes_equal example_types
           example_ftypes 2 tree_routed_frame [2; 1; 0] example_ports
           example_ports_sent example_sender true); reflexivity.
Defined.

Lemma forward_passes_over_witness :
  Forall2 (fun e e' =>
             same_identity (Link.entry_peer e) (Link.entry_peer e') /\
             (skipped bytes_equal (Link.entry_peer example_sender)
                      (Link.entry_peer e) = true -> untouched e e'))
          example_ports example_ports_sent.
Proof.
  apply (forward_passes_over (list Types.Frame) push_if_empty
           push_if_empty sign_nothing bytes_equal example_types
           example_ftypes 2 tree_routed_frame [2; 1; 0] example_ports
           example_ports_sent example_sender true); reflexivity.
Defined.

Lemma forward_sends_once_witness :
  exists hop e e',
    In hop [2; 1; 0] /\ 0 <= hop /\
    nth_error example_ports (Z.to_nat hop) = Some e /\
    nth_error example_ports_sent (Z.to_nat hop) = Some e' /\
    skipped bytes_equal (Link.entry_peer example_sender) (Link.entry_peer e)
      = false /\
    one_more (sent_counters e) (sent_counters e') /\
    forall j f f',
      j <> Z.to_nat hop ->
      nth_error example_ports j = Some f ->
      nth_error example_ports_sent j = Some f' ->
      sent_counters f' = sent_counters f.
Proof.
  apply (forward_sends_once (list Types.Frame) push_if_empty
           push_if_empty sign_nothing bytes_equal example_types
           example_ftypes 2 tree_routed_frame [2; 1; 0] example_ports
           example_ports_sent example_sender true); reflexivity.
Defined.

Lemma forward_unnamed_type_witness :
  false = false /\
  set_nth 2
    {| Link.entry_peer :=
         Link.with_statistics (Link.entry_peer example_sender)
           (Link.count_no_destination
              (Router.statistics (Link.entry_peer example_sender)));
       Link.trafficOut := Link.trafficOut example_sender;
       Link.protoOut := Link.protoOut example_sender |} example_ports
  = set_nth 2
    {| Link.entry_peer :=
         Link.with_statistics (Link.entry_peer example_sender)
           (Link.count_no_destination
              (Router.statistics (Link.entry_peer example_sender)));
       Link.trafficOut := Link.trafficOut example_sender;
       Link.protoOut := Link.protoOut example_sender |} example_ports.
Proof.
  apply (forward_unnamed_type (list Types.Frame) push_if_empty
           push_if_empty sign_nothing bytes_equal example_types
           example_ftypes 2 zero_frame [1; 0] example_ports
           _ example_sender false); reflexivity.
Defined.

(** ** Writing a frame *)

Lemma firstn_add_skipn {A} (n k : nat) : forall l : list A,
  firstn n l ++ firstn k (skipn n l) = firstn (n + k) l.
Proof.
  induction n as [|n IH]; intros l; [reflexivity|].
  destruct l as [|x l]; simpl.
  - now rewrite firstn_nil.
  - now rewrite IH.
Qed.

Lemma write_loop_wire (answers : list Link.writeAnswer) :
  forall remaining wire,
    match Link.write_loop answers remaining wire with
    | Link.SendFlushed w => w = wire ++ remaining
    | Link.SendDisconnect w | Link.SendWaiting w =>
        exists k, w = wire ++ firstn k remaining
    | Link.SendPanic => True
    | Link.SendNothing | Link.SendMarshalError => False
    end.
Proof.
  induction answers as [|a answers IH]; intros remaining wire.
  - destruct remaining; simpl.
    + now rewrite app_nil_r.
    + exists 0%nat. now rewrite app_nil_r.
  - destruct remaining as [|b remaining].
    + simpl. now rewrite app_nil_r.
    + cbn [Link.write_loop].
      set (n := Z.to_nat (Link.taken a)).
      destruct (Link.failed a).
      * exists n. reflexivity.
      * destruct ((Link.taken a <? 0)
                  || (zlen (b :: remaining) <? Link.taken a)); [exact I|].
        specialize (IH (skipn n (b :: remaining))
                       (wire ++ firstn n (b :: remaining))).
        destruct (Link.write_loop answers (skipn n (b :: remaining))
                    (wire ++ firstn n (b :: remaining)));
          try exact I; try contradiction.
        -- destruct IH as [k ->]. exists (n + k)%nat.
           now rewrite <- app_assoc, firstn_add_skipn.
        -- rewrite IH, <- app_assoc, firstn_skipn. reflexivity.
        -- destruct IH as [k ->]. exists (n + k)%nat.
           now rewrite <- app_assoc, firstn_add_skipn.
Qed.

(** X13.  However the connection splits the writes, [send] puts the
    bytes of the marshalled frame on the wire in order and nothing else:
    when it flushes, the wire holds exactly the marshalled frame; when a
    write fails or the connection stalls, it holds a prefix of it; and a
    frame that cannot be marshalled, or no frame, puts nothing on the
    wire. *)
Theorem send_wire
        (MarshalBinary : Types.Frame -> Types.result (list Z))
        (pool_buf : list Z) (frame : option Types.Frame)
        (answers : list Link.writeAnswer) :
  match Link.send MarshalBinary pool_buf frame answers with
  | Link.SendFlushed w =>
      exists f, frame = Some f /\ MarshalBinary f = Types.Ok w
  | Link.SendDisconnect w | Link.SendWaiting w =>
      exists f marshalled k,
        frame = Some f /\ MarshalBinary f = Types.Ok marshalled /\
        w = firstn k marshalled
  | Link.SendMarshalError =>
      exists f e, frame = Some f /\ MarshalBinary f = Types.Err e
  | Link.SendNothing => frame = None
  | Link.SendPanic => True
  end.
Proof.
  unfold Link.send. destruct frame as [f|]; [|reflexivity].
  destruct (MarshalBinary f) as [marshalled|e] eqn:Hm; [|eauto].
  destruct (negb _); [exact I|].
  pose proof (write_loop_wire answers marshalled []) as H.
  destruct (Link.write_loop answers marshalled []); simpl in H;
    try exact I; try contradiction.
  - destruct H as [k ->]. eauto 6.
  - subst. eauto.
  - destruct H as [k ->]. eauto 6.
Qed.

Lemma write_loop_progress (answers : list Link.writeAnswer) :
  forall remaining wire,
    Forall (fun a => Link.failed a = false /\ 1 <= Link.taken a) answers ->
    (length remaining <= length answers)%nat ->
    Link.write_loop answers remaining wire = Link.SendFlushed (wire ++ remaining)
    \/ Link.write_loop answers remaining wire = Link.SendPanic.
Proof.
  induction answers as [|a answers IH]; intros remaining wire Hall Hlen.
  - destruct remaining; [|simpl in Hlen; lia].
    left. simpl. now rewrite app_nil_r.
  - destruct remaining as [|b remaining].
    + left. simpl. now rewrite app_nil_r.
    + inversion Hall as [|? ? [Hok Htaken] Hrest]; subst.
      cbn [Link.write_loop]. rewrite Hok.
      destruct ((Link.taken a <? 0)
                || (zlen (b :: remaining) <? Link.taken a)) eqn:Hrange;
        [right; reflexivity|].
      apply orb_false_iff in Hrange as [_ Hle]. apply Z.ltb_ge in Hle.
      unfold zlen in Hle.
      assert (Hn : (1 <= Z.to_nat (Link.taken a))%nat) by lia.
      set (n := Z.to_nat (Link.taken a)) in *.
      destruct (IH (skipn n (b :: remaining))
                   (wire ++ firstn n (b :: remaining)) Hrest) as [H|H].
      * rewrite length_skipn. cbn [length] in *. lia.
      * left. rewrite H, <- app_assoc, firstn_skipn. reflexivity.
      * right. exact H.
Qed.

(** X14.  Against a connection whose writes do not fail and take at
    least one byte each, [send] is done after at most as many writes as
    the frame has bytes: given that many answers, it flushes the whole
    marshalled frame, unless it panics (on a frame without the magic, or
    on a write that claims more bytes than it was given). *)
Theorem send_progress
        (MarshalBinary : Types.Frame -> Types.result (list Z))
        (pool_buf : list Z) (f : Types.Frame) (marshalled : list Z)
        (answers : list Link.writeAnswer) :
  MarshalBinary f = Types.Ok marshalled ->
  Forall (fun a => Link.failed a = false /\ 1 <= Link.taken a) answers ->
  (length marshalled <= length answers)%nat ->
  Link.send MarshalBinary pool_buf (Some f) answers
    = Link.SendFlushed marshalled
  \/ Link.send MarshalBinary pool_buf (Some f) answers = Link.SendPanic.
Proof.
  intros Hm Hall Hlen. unfold Link.send. rewrite Hm.
  destruct (negb _); [right; reflexivity|].
  apply (write_loop_progress answers marshalled [] Hall Hlen).
Qed.

Lemma send_progress_witness :
  Link.send (fun f => Types.MarshalBinary f 65535) [] (Some tree_routed_frame)
            (repeat {| Link.taken := 1; Link.failed := false |} 33)
    = Link.SendFlushed
        [0x70; 0x69; 0x6e; 0x65; 0x00; 0x02; 0x00; 0x00;
         0x00; 0x21; 0x00; 0x07;
         0x00; 0x06; 0x01; 0x02; 0x03; 0x04; 0xa7; 0x08;
         0x00; 0x04; 0x04; 0x03; 0x02; 0x01;
         0x41; 0x42; 0x43; 0x44; 0x45; 0x46; 0x47]
  \/ Link.send (fun f => Types.MarshalBinary f 65535) [] (Some tree_routed_frame)
               (repeat {| Link.taken := 1; Link.failed := false |} 33)
     = Link.SendPanic.
Proof.
  apply (send_progress (fun f => Types.MarshalBinary f 65535) []
           tree_routed_frame).
  - reflexivity.
  - repeat constructor; simpl; lia.
  - simpl. lia.
Defined.

(** X15.  With the codec of section 4.1 marshalling into a buffer of any
    size, the writer's check [panic("expected magic bytes")] never fires:
    whatever the frame and whatever the pooled buffer held, [send]
    before its first write is either refused by the codec or ready to
    write. *)
Theorem send_magic_never_panics
        (cap : Z) (pool_buf : list Z) (frame : option Types.Frame) :
  Link.send (fun f => Types.MarshalBinary f cap) pool_buf frame []
    <> Link.SendPanic.
Proof.
  unfold Link.send. destruct frame as [f|]; [|discriminate].
  destruct (Types.MarshalBinary f cap) as [bs|e] eqn:Hm; [|discriminate].
  apply MarshalBinary_Ok in Hm as [_ ->].
  unfold Types.FrameMagicBytes at 1. cbn [app firstn].
  change (bytes_equal [112; 105; 110; 101] Types.FrameMagicBytes) with true.
  cbn [negb Link.write_loop]. discriminate.
Qed.

(** ** Sorting peers *)

(** X16.  [peers.Less] is irreflexive and orders any two peers with
    different ports one way or the other, and among peers of one type it
    is the order of their ports; but it is not asymmetric: it holds both
    ways for two peers exactly when their types and their ports are
    ordered in opposite ways. *)
Theorem Less_both_ways
        (p : Link.peers) (i j : nat) (pi pj : Link.sortablePeer) :
  nth_error p i = Some pi -> nth_error p j = Some pj ->
  Link.Less p i i = Some false /\
  (Router.port (Link.the_peer pi) <> Router.port (Link.the_peer pj) ->
   Link.Less p i j = Some true \/ Link.Less p j i = Some true) /\
  (Link.peertype pi = Link.peertype pj ->
   Link.Less p i j
     = Some (Router.port (Link.the_peer pi) <? Router.port (Link.the_peer pj))) /\
  (Link.Less p i j = Some true /\ Link.Less p j i = Some true <->
   (Link.peertype pi < Link.peertype pj /\
    Router.port (Link.the_peer pj) < Router.port (Link.the_peer pi)) \/
   (Link.peertype pj < Link.peertype pi /\
    Router.port (Link.the_peer pi) < Router.port (Link.the_peer pj))).
Proof.
  intros Hi Hj. unfold Link.Less. rewrite Hi, Hj.
  repeat split.
  - rewrite !Z.ltb_irrefl. reflexivity.
  - intros Hne.
    destruct (Z.ltb_spec (Link.peertype pi) (Link.peertype pj)); [auto|].
    destruct (Z.ltb_spec (Link.peertype pj) (Link.peertype pi)); [auto|].
    destruct (Z.ltb_spec (Router.port (Link.the_peer pi))
                         (Router.port (Link.the_peer pj))); [auto|].
    right. f_equal. apply Z.ltb_lt. lia.
  - intros ->. rewrite Z.ltb_irrefl. reflexivity.
  - intros [H1 H2].
    destruct (Z.ltb_spec (Link.peertype pi) (Link.peertype pj));
      destruct (Z.ltb_spec (Link.peertype pj) (Link.peertype pi));
      try lia.
    + left. split; [assumption|]. inversion H2 as [H3]. apply Z.ltb_lt in H3.
      exact H3.
    + right. split; [assumption|]. inversion H1 as [H3]. apply Z.ltb_lt in H3.
      exact H3.
    + inversion H1 as [H3]. inversion H2 as [H4].
      apply Z.ltb_lt in H3. apply Z.ltb_lt in H4. lia.
  - destruct H as [[Ht Hp]|[Ht Hp]].
    + apply Z.ltb_lt in Ht. rewrite Ht. reflexivity.
    + destruct (Z.ltb_spec (Link.peertype pi) (Link.peertype pj)); [lia|].
      f_equal. apply Z.ltb_lt. exact Hp.
  - destruct H as [[Ht Hp]|[Ht Hp]].
    + destruct (Z.ltb_spec (Link.peertype pj) (Link.peertype pi)); [lia|].
      f_equal. apply Z.ltb_lt. exact Hp.
    + apply Z.ltb_lt in Ht. rewrite Ht. reflexivity.
Qed.

Lemma Less_both_ways_witness :
  Link.Less two_peers 0 1 = Some true /\ Link.Less two_peers 1 0 = Some true.
Proof.
  pose proof (Less_both_ways two_peers 0 1 _ _ eq_refl eq_refl)
    as (_ & _ & _ & H).
  apply H. right. simpl. unfold PeerTypeMulticast, PeerTypeRemote. lia.
Defined.

(** ** The stale count of [DHTInfo] *)

Lemma bytes_equal_refl (k : list Z) : bytes_equal k k = true.
Proof. now apply bytes_equal_spec. Qed.

Lemma incremented_succ (n : nat) (c : Z) :
  incremented n (int_add c 1) = incremented (S n) c.
Proof.
  unfold incremented. induction n as [|n IH]; [reflexivity|].
  simpl in *. now rewrite IH.
Qed.

Lemma incremented_add (n m : nat) (c : Z) :
  incremented n (incremented m c) = incremented (n + m) c.
Proof. unfold incremented. now rewrite Nat.iter_add. Qed.

Lemma int_add_small (a b : Z) :
  - 2 ^ 63 <= a + b < 2 ^ 63 -> int_add a b = a + b.
Proof. intros H. unfold int_add. rewrite Z.mod_small; lia. Qed.

Lemma incremented_small (n : nat) (c : Z) :
  - 2 ^ 63 <= c -> c + Z.of_nat n < 2 ^ 63 ->
  incremented n c = c + Z.of_nat n.
Proof.
  induction n as [|n IH]; intros Hlo Hhi.
  - unfold incremented. simpl. lia.
  - unfold incremented in *. simpl Nat.iter. rewrite IH by lia.
    rewrite int_add_small by lia. lia.
Qed.

Lemma lookup_increment (d : Shell.counts) (k0 k : Types.PublicKey) :
  Shell.lookup (Shell.increment d k0) k
  = if bytes_equal k0 k then found 1 (Shell.lookup d k)
    else Shell.lookup d k.
Proof.
  induction d as [|[k' c] d IH]; simpl.
  - destruct (bytes_equal k0 k); reflexivity.
  - destruct (bytes_equal k' k0) eqn:E0; simpl.
    + apply bytes_equal_spec in E0. subst k'.
      destruct (bytes_equal k0 k); reflexivity.
    + destruct (bytes_equal k' k) eqn:E1.
      * apply bytes_equal_spec in E1. subst k'.
        destruct (bytes_equal k0 k) eqn:E2; [|reflexivity].
        apply bytes_equal_spec in E2. subst k0.
        rewrite bytes_equal_refl in E0. discriminate.
      * exact IH.
Qed.

Lemma found_found (n : nat) (o : option Z) :
  found n (found 1 o) = found (S n) o.
Proof.
  destruct n as [|n]; [reflexivity|].
  unfold found. f_equal. rewrite incremented_add. f_equal. lia.
Qed.

Lemma lookup_fold (t : Shell.table) : forall d k,
  Shell.lookup
    (fold_left (fun dupes kv => Shell.increment dupes (Shell.PublicKey (fst kv)))
               t d) k
  = found (key_count t k) (Shell.lookup d k).
Proof.
  induction t as [|kv t IH]; intros d k; [reflexivity|].
  simpl fold_left. rewrite IH, lookup_increment.
  unfold key_count. simpl filter.
  destruct (bytes_equal (Shell.PublicKey (fst kv)) k); [|reflexivity].
  cbn [length]. apply found_found.
Qed.

Lemma lookup_count_keys (t : Shell.table) (k : Types.PublicKey) :
  Shell.lookup (Shell.count_keys t) k = found (key_count t k) None.
Proof. unfold Shell.count_keys. apply lookup_fold. Qed.

Lemma stale_step_Some (a : Router.rootAnnouncementWithTime)
      (first : Shell.table) (stale : Z)
      (kv : Shell.virtualSnakeIndex * Shell.virtualSnakeEntry) :
  Shell.stale_step (Some a) (Shell.count_keys first) stale kv
  = Some (incremented (marks a first kv) stale).
Proof.
  destruct kv as [k v]. unfold Shell.stale_step, marks, counted_twice,
    root_mismatch. rewrite lookup_count_keys. cbn [fst snd].
  destruct (found (key_count first (Shell.PublicKey k)) None) as [c|];
    [destruct (c >? 1)|];
    destruct (negb (bytes_equal _ _)); cbn [orb];
      try destruct (negb (_ =? _)); reflexivity.
Qed.

Lemma stale_loop_Some (a : Router.rootAnnouncementWithTime)
      (first : Shell.table) (second : Shell.table) : forall stale,
  Shell.stale_loop (Some a) (Shell.count_keys first) second stale
  = Some (incremented (list_sum (map (marks a first) second)) stale).
Proof.
  induction second as [|kv second IH]; intros stale; [reflexivity|].
  cbn [Shell.stale_loop]. rewrite stale_step_Some, IH.
  rewrite incremented_add.
  change (list_sum (map (marks a first) (kv :: second)))
    with (marks a first kv + list_sum (map (marks a first) second))%nat.
  now rewrite Nat.add_comm.
Qed.

Lemma stale_loop_None (d : Shell.counts) (second : Shell.table) (stale : Z) :
  Shell.stale_loop None d second stale
  = match second with [] => Some stale | _ :: _ => None end.
Proof.
  destruct second as [|[k v] second]; [reflexivity|].
  cbn [Shell.stale_loop Shell.stale_step].
  destruct (Shell.lookup d (Shell.PublicKey k)) as [c|];
    [destruct (c >? 1)|]; reflexivity.
Qed.

Lemma key_count_Permutation (t t' : Shell.table) (k : Types.PublicKey) :
  Permutation t t' -> key_count t k = key_count t' k.
Proof.
  unfold key_count. induction 1 as [|x l l' _ IH|x y l|l l' l'' _ IH1 _ IH2].
  - reflexivity.
  - simpl. destruct (bytes_equal _ k); simpl; congruence.
  - simpl. destruct (bytes_equal (Shell.PublicKey (fst x)) k);
      destruct (bytes_equal (Shell.PublicKey (fst y)) k); reflexivity.
  - congruence.
Qed.

Lemma list_sum_map_Permutation {A} (f : A -> nat) (l l' : list A) :
  Permutation l l' -> list_sum (map f l) = list_sum (map f l').
Proof.
  induction 1; simpl; lia.
Qed.

Lemma marks_Permutation (a : Router.rootAnnouncementWithTime)
      (first first' : Shell.table)
      (kv : Shell.virtualSnakeIndex * Shell.virtualSnakeEntry) :
  Permutation first first' -> marks a first kv = marks a first' kv.
Proof.
  intros H. unfold marks, counted_twice.
  now rewrite (key_count_Permutation _ _ _ H).
Qed.

(** X17.  The stale count of [DHTInfo] does not depend on the order in
    which Go ranges over the table: two runs on the same state whose
    loops go through the same entries in any orders count the same
    [stale], and panic or not alike. *)
Theorem DHTInfo_stale_any_order
        (s : Shell.state) (first first' second second' : Shell.table) :
  Permutation first first' -> Permutation second second' ->
  stale_of (Shell.DHTInfo s first second)
  = stale_of (Shell.DHTInfo s first' second').
Proof.
  intros Hf Hs. unfold Shell.DHTInfo.
  destruct (Shell._rootAnnouncement s) as [a|].
  - rewrite !stale_loop_Some. simpl. do 2 f_equal.
    rewrite (list_sum_map_Permutation _ _ _ Hs).
    f_equal. apply map_ext. intros kv. now apply marks_Permutation.
  - rewrite !stale_loop_None.
    destruct second as [|kv second].
    + apply Permutation_nil in Hs. subst. reflexivity.
    + destruct second' as [|kv' second']; [|reflexivity].
      symmetry in Hs. apply Permutation_nil in Hs. discriminate.
Qed.

Lemma DHTInfo_stale_any_order_witness :
  stale_of (Shell.DHTInfo rooted_state three_paths three_paths)
  = stale_of (Shell.DHTInfo rooted_state three_paths_shuffled
                            three_paths_shuffled).
Proof.
  apply DHTInfo_stale_any_order; apply perm_swap.
Defined.

Lemma counted_twice_small (t : Shell.table)
      (kv : Shell.virtualSnakeIndex * Shell.virtualSnakeEntry) :
  zlen t < 2 ^ 63 -> counted_twice t kv = shares_key t kv.
Proof.
  intros Hlen. unfold counted_twice, shares_key.
  set (n := key_count t (Shell.PublicKey (fst kv))).
  assert (Hn : (n <= length t)%nat) by apply filter_length_le.
  unfold zlen in Hlen.
  destruct n as [|n]; [reflexivity|]. unfold found.
  rewrite incremented_small by lia.
  destruct (Z.gtb_spec (0 + Z.of_nat (S n)) 1) as [H|H];
    destruct (Nat.ltb_spec 1 (S n)); try reflexivity; lia.
Qed.

Lemma list_sum_marks (a : Router.rootAnnouncementWithTime)
      (t : Shell.table) (l : Shell.table) :
  zlen t < 2 ^ 63 ->
  list_sum (map (marks a t) l)
  = (length (filter (shares_key t) l)
     + length (filter (root_mismatch a) l))%nat.
Proof.
  intros Hlen. induction l as [|kv l IH]; [reflexivity|].
  change (list_sum (map (marks a t) (kv :: l)))
    with (marks a t kv + list_sum (map (marks a t) l))%nat.
  cbn [filter]. rewrite IH. unfold marks.
  rewrite counted_twice_small by assumption.
  destruct (shares_key t kv); destruct (root_mismatch a kv);
    cbn [length]; lia.
Qed.

(** X18.  With a root announcement and a table of fewer than 2^62
    entries, [stale] is the number of entries whose public key is also
    that of another entry plus the number of entries whose root key or
    root sequence is not that of the announcement (an entry that is both
    counts twice).  So [stale] lies between 0 and twice the size of the
    table, and it is 0 exactly when the keys are pairwise different and
    every entry is under the current root. *)
Theorem DHTInfo_stale_value
        (s : Shell.state) (a : Router.rootAnnouncementWithTime)
        (t first second : Shell.table) :
  Shell._rootAnnouncement s = Some a ->
  Permutation t first -> Permutation t second ->
  2 * zlen t < 2 ^ 63 ->
  let stale := zlen (filter (shares_key t) t)
               + zlen (filter (root_mismatch a) t) in
  Shell.DHTInfo s first second
    = Some (Shell._ascending s, Shell._descending s, second, stale) /\
  0 <= stale <= 2 * zlen t /\
  (stale = 0 <->
   forall kv, In kv t -> shares_key t kv = false /\ root_mismatch a kv = false).
Proof.
  intros Ha Hf Hs Hlen. cbv zeta.
  assert (Hsmall : zlen t < 2 ^ 63) by (unfold zlen in *; lia).
  pose proof (filter_length_le (shares_key t) t) as Hd.
  pose proof (filter_length_le (root_mismatch a) t) as Hm.
  split; [|split].
  - unfold Shell.DHTInfo. rewrite Ha, stale_loop_Some.
    rewrite <- (list_sum_map_Permutation _ _ _ Hs).
    rewrite (map_ext _ (marks a t))
      by (intros kv; symmetry; now apply marks_Permutation).
    rewrite list_sum_marks by assumption.
    rewrite incremented_small by (unfold zlen in *; lia).
    do 2 f_equal. unfold zlen. lia.
  - unfold zlen in *. lia.
  - unfold zlen. split.
    + intros Hz kv Hin.
      assert (H1 : filter (shares_key t) t = [])
        by (apply length_zero_iff_nil; lia).
      assert (H2 : filter (root_mismatch a) t = [])
        by (apply length_zero_iff_nil; lia).
      split.
      * destruct (shares_key t kv) eqn:E; [|reflexivity].
        assert (In kv (filter (shares_key t) t)) by (apply filter_In; auto).
        rewrite H1 in H. contradiction.
      * destruct (root_mismatch a kv) eqn:E; [|reflexivity].
        assert (In kv (filter (root_mismatch a) t)) by (apply filter_In; auto).
        rewrite H2 in H. contradiction.
    + intros Hall.
      assert (H1 : filter (shares_key t) t = []).
      { destruct (filter (shares_key t) t) as [|kv l] eqn:E; [reflexivity|].
        assert (Hin : In kv (filter (shares_key t) t)) by (rewrite E; now left).
        apply filter_In in Hin as [Hin Htrue].
        destruct (Hall kv Hin) as [Hfalse _]. congruence. }
      assert (H2 : filter (root_mismatch a) t = []).
      { destruct (filter (root_mismatch a) t) as [|kv l] eqn:E; [reflexivity|].
        assert (Hin : In kv (filter (root_mismatch a) t))
          by (rewrite E; now left).
        apply filter_In in Hin as [Hin Htrue].
        destruct (Hall kv Hin) as [_ Hfalse]. congruence. }
      rewrite H1, H2. reflexivity.
Qed.

Lemma DHTInfo_stale_value_witness :
  Shell.DHTInfo rooted_state three_paths three_paths_shuffled
    = Some (None, None, three_paths_shuffled, 3).
Proof.
  apply (DHTInfo_stale_value rooted_state
           {| Router.announced := signed_announcement; Router.at_ := 7 |}
           three_paths three_paths three_paths_shuffled).
  - reflexivity.
  - apply Permutation_refl.
  - apply perm_swap.
  - vm_compute. reflexivity.
Defined.

(** X19.  [DHTInfo] reads the root announcement without the nil check
    that [RootPublicKey] makes: on a state without root announcement it
    returns a stale count of 0 for an empty table and panics on every
    other table. *)
Theorem DHTInfo_without_root
        (s : Shell.state) (first second : Shell.table) :
  Shell._rootAnnouncement s = None ->
  Shell.DHTInfo s first second
  = match second with
    | [] => Some (Shell._ascending s, Shell._descending s, [], 0)
    | _ :: _ => None
    end.
Proof.
  intros Hnil. unfold Shell.DHTInfo. rewrite Hnil, stale_loop_None.
  destruct second; reflexivity.
Qed.

Lemma DHTInfo_without_root_witness :
  Shell.DHTInfo rootless_state three_paths three_paths = None.
Proof.
  apply (DHTInfo_without_root rootless_state three_paths three_paths).
  reflexivity.
Defined.

Section PeersFacts.

Variable String_ : Types.PublicKey -> string.
Variable r_public : Types.PublicKey.

(** What [Peers] copies from a peer as it is. *)
Let copied (i : Shell.PeerInfo) : Z * string * Z * string :=
  (Shell.Port i, Shell.PeerPublicKey i, Shell.PeerType i, Shell.Zone i).

Let own (pa : Shell.peer * option Router.rootAnnouncementWithTime)
  : Z * string * Z * string :=
  (Shell.port (fst pa), String_ (Shell.public (fst pa)),
   Shell.peertype (fst pa), Shell.zone (fst pa)).

Lemma Peers_fold (l : list Shell.slot) : forall acc,
  exists new,
    fold_left
      (fun peers (s : Shell.slot) =>
         match s with
         | None => peers
         | Some (p, ann) =>
             if negb (Shell.started p) then peers
             else
               let root :=
                 match ann with
                 | Some a =>
                     String_ (Router.RootPublicKey (Router.announced a))
                 | None => EmptyString
                 end in
               let root :=
                 if String.eqb root EmptyString then String_ r_public
                 else root in
               peers ++ [{| Shell.Port := Shell.port p;
                            Shell.PeerPublicKey := String_ (Shell.public p);
                            Shell.PeerRootPublicKey := root;
                            Shell.PeerType := Shell.peertype p;
                            Shell.Zone := Shell.zone p |}]
         end) l acc = acc ++ new /\
    map copied new = map own (started_peers l) /\
    (String_ r_public <> EmptyString ->
     Forall (fun i => Shell.PeerRootPublicKey i <> EmptyString) new) /\
    Forall2 (fun i pa =>
               Shell.PeerRootPublicKey i
               = match snd pa with
                 | Some a =>
                     if String.eqb
                          (String_ (Router.RootPublicKey (Router.announced a)))
                          EmptyString
                     then String_ r_public
                     else String_ (Router.RootPublicKey (Router.announced a))
                 | None => String_ r_public
                 end) new (started_peers l).
Proof.
  induction l as [|s l IH]; intros acc.
  - exists []. simpl. rewrite app_nil_r. repeat split; constructor.
  - cbn [fold_left]. destruct s as [[p ann]|].
    + destruct (Shell.started p) eqn:Hs; cbn [negb].
      * match goal with
        | |- context [fold_left ?f l (acc ++ [?i])] =>
            destruct (IH (acc ++ [i])) as (new & Hnew & Hcopy & Hroot & Hann);
            exists (i :: new)
        end.
        unfold started_peers in *. cbn [flat_map]. rewrite Hs.
        cbn [app map]. repeat split.
        -- rewrite Hnew, <- app_assoc. reflexivity.
        -- rewrite Hcopy. reflexivity.
        -- intros Hpub. constructor; [|now apply Hroot].
           cbn [Shell.PeerRootPublicKey]. destruct ann as [a|]; cbv zeta.
           ++ destruct (String.eqb_spec
                          (String_ (Router.RootPublicKey (Router.announced a)))
                          EmptyString); assumption.
           ++ rewrite String.eqb_refl. assumption.
        -- constructor; [|exact Hann]. cbn [Shell.PeerRootPublicKey snd].
           destruct ann as [a|]; cbv zeta; [reflexivity|].
           now rewrite String.eqb_refl.
      * destruct (IH acc) as (new & Hnew & Hcopy & Hroot & Hann).
        exists new. unfold started_peers in *. cbn [flat_map]. rewrite Hs.
        cbn [app]. auto.
    + destruct (IH acc) as (new & Hnew & Hcopy & Hroot & Hann).
      exists new. unfold started_peers in *. cbn [flat_map app]. auto.
Qed.

(** X20.  [Peers] lists the started peers of the non-nil slots and no
    others, once each and in the order of the slots, each with its own
    port, key, type and zone; the root key shown for a peer is that of
    its announcement, or the router's own key when the peer has no
    announcement or its root key prints as the empty string. *)
Theorem Peers_lists_started (_peers : list Shell.slot) :
  let listed := Shell.Peers String_ r_public _peers in
  map (fun i => (Shell.Port i, Shell.PeerPublicKey i, Shell.PeerType i,
                 Shell.Zone i)) listed
  = map (fun pa => (Shell.port (fst pa), String_ (Shell.public (fst pa)),
                    Shell.peertype (fst pa), Shell.zone (fst pa)))
        (started_peers _peers) /\
  Forall2 (fun i pa =>
             Shell.PeerRootPublicKey i
             = match snd pa with
               | Some a =>
                   if String.eqb
                        (String_ (Router.RootPublicKey (Router.announced a)))
                        EmptyString
                   then String_ r_public
                   else String_ (Router.RootPublicKey (Router.announced a))
               | None => String_ r_public
               end) listed (started_peers _peers) /\
  (length listed <= length _peers)%nat.
Proof.
  destruct (Peers_fold _peers []) as (new & Hnew & Hcopy & _ & Hann).
  change (Shell.Peers String_ r_public _peers = new) in Hnew.
  cbv zeta. rewrite Hnew. split; [exact Hcopy|]. split; [exact Hann|].
  apply Forall2_length in Hann. rewrite Hann. unfold started_peers.
  clear. induction _peers as [|[[p ann]|] l IH]; cbn [flat_map length].
  - lia.
  - rewrite length_app. destruct (Shell.started p); cbn [length]; lia.
  - cbn [app]. lia.
Qed.

(** X21.  When the router's own key does not print as the empty string,
    no entry of [Peers] has an empty root key. *)
Theorem Peers_root_never_empty (_peers : list Shell.slot) :
  String_ r_public <> EmptyString ->
  Forall (fun i => Shell.PeerRootPublicKey i <> EmptyString)
         (Shell.Peers String_ r_public _peers).
Proof.
  intros Hpub.
  destruct (Peers_fold _peers []) as (new & Hnew & _ & Hroot & _).
  change (Shell.Peers String_ r_public _peers = new) in Hnew.
  rewrite Hnew. now apply Hroot.
Qed.

End PeersFacts.

Lemma Peers_root_never_empty_witness :
  Forall (fun i => Shell.PeerRootPublicKey i <> EmptyString)
         (Shell.Peers key_length Types.zero_key three_slots).
Proof.
  apply (Peers_root_never_empty key_length Types.zero_key three_slots).
  vm_compute. discriminate.
Defined.

(** ** The reader's loop *)

Lemma BigEndian_Uint16_bounds (b0 b1 : Z) :
  is_byte b0 -> is_byte b1 -> 0 <= BigEndian_Uint16 b0 b1 <= 65535.
Proof.
  intros H0 H1. split; [now apply BigEndian_Uint16_nonneg|].
  unfold BigEndian_Uint16, is_byte in *.
  pose proof (Z.add_lor_land b1 (Z.shiftl b0 8)) as Hadd.
  assert (0 <= Z.land b1 (Z.shiftl b0 8)) by (apply Z.land_nonneg; lia).
  rewrite Z.shiftl_mul_pow2 in * by lia. lia.
Qed.

Lemma expecting_bounds (types : Router.frameTypes) (header : list Z) :
  bytes_ok header -> 12 <= Router.expecting types header <= 196681.
Proof.
  intros H. unfold Router.expecting, Router.ed25519_PublicKeySize.
  pose proof (BigEndian_Uint16_bounds _ _ (nth_byte header 2 H) (nth_byte header 3 H)).
  pose proof (BigEndian_Uint16_bounds _ _ (nth_byte header 4 H) (nth_byte header 5 H)).
  pose proof (BigEndian_Uint16_bounds _ _ (nth_byte header 6 H) (nth_byte header 7 H)).
  repeat match goal with |- context [if ?c then _ else _] => destruct c end; lia.
Qed.

Lemma reader_read_NoMagic (types : Router.frameTypes) (MaxFrameSize : Z)
      (stream rest : list Z) :
  Router.reader_read types MaxFrameSize stream = Router.NoMagic rest ->
  12 <= zlen stream /\ rest = skipn 1 stream.
Proof.
  unfold Router.reader_read.
  destruct (Z.ltb_spec (zlen stream) 12); [discriminate|].
  destruct (negb (bytes_equal (firstn 4 (firstn 12 stream))
                              Types.FrameMagicBytes)).
  - intros Heq. injection Heq as <-. auto.
  - cbv zeta.
    destruct (MaxFrameSize <? _); [discriminate|].
    destruct (zlen stream <? _); discriminate.
Qed.

Lemma zlen_skipn {A} (n : nat) (l : list A) :
  (n <= length l)%nat -> zlen (skipn n l) = zlen l - Z.of_nat n.
Proof. intros H. unfold zlen. rewrite length_skipn. lia. Qed.

(** A turn that goes on to a next turn has taken bytes off the stream:
    one byte when it found no magic, twelve or more for a frame. *)
Lemma reader_step_consumes
      (types : Router.frameTypes) (MaxFrameSize : Z)
      (UnmarshalBinary : list Z -> Types.result (Types.Frame * Z))
      (stream : list Z) :
  bytes_ok stream ->
  match Router.reader_step types MaxFrameSize UnmarshalBinary stream with
  | Router.Resync rest => zlen rest = zlen stream - 1 /\ bytes_ok rest
  | Router.Forward _ rest => zlen rest + 12 <= zlen stream /\ bytes_ok rest
  | _ => True
  end.
Proof.
  intros Hok. unfold Router.reader_step.
  destruct (Router.reader_read types MaxFrameSize stream)
    as [| rest | | | buf rest] eqn:Hread; try exact I.
  - apply reader_read_NoMagic in Hread as [Hlen ->].
    split; [|now apply bytes_ok_skipn].
    rewrite zlen_skipn by (unfold zlen in Hlen; lia). lia.
  - apply reader_read_FrameRead in Hread. cbv zeta in Hread.
    destruct Hread as (Hlen & _ & _ & Hn & _ & ->).
    pose proof (expecting_bounds types (skipn 4 (firstn 12 stream))
                  (bytes_ok_skipn _ _ (bytes_ok_firstn _ _ Hok))) as Hb.
    assert (zlen (skipn (Z.to_nat (Router.expecting types
                                     (skipn 4 (firstn 12 stream)))) stream)
            + 12 <= zlen stream /\
            bytes_ok (skipn (Z.to_nat (Router.expecting types
                                         (skipn 4 (firstn 12 stream)))) stream))
      as Hgoal.
    { split; [|now apply bytes_ok_skipn].
      rewrite zlen_skipn by (unfold zlen in Hn; lia). lia. }
    destruct (UnmarshalBinary buf) as [[frame n]|e]; [|exact I].
    destruct (negb (Types.Version frame =? Types.Version0)); [exact I|].
    exact Hgoal.
Qed.

Lemma reader_halts_within
      (types : Router.frameTypes) (MaxFrameSize : Z)
      (UnmarshalBinary : list Z -> Types.result (Types.Frame * Z))
      (fuel : nat) : forall stream,
  bytes_ok stream -> (length stream < fuel)%nat ->
  exists frames last,
    Router.reader types MaxFrameSize UnmarshalBinary fuel stream
      = Some (frames, last) /\
    final last /\ 12 * zlen frames <= zlen stream.
Proof.
  induction fuel as [|fuel IH]; intros stream Hok Hfuel; [lia|].
  cbn [Router.reader].
  pose proof (reader_step_consumes types MaxFrameSize UnmarshalBinary
                stream Hok) as Hstep.
  destruct (Router.reader_step types MaxFrameSize UnmarshalBinary stream)
    as [reason | rest | frame rest | rest |] eqn:Hturn.
  - exists [], (Router.Disconnect reason).
    repeat split. unfold zlen. simpl. lia.
  - destruct Hstep as [Hlen Hrest].
    destruct (IH rest Hrest) as (frames & last & Hrun & Hlast & Hcount).
    { unfold zlen in Hlen. lia. }
    exists frames, last. repeat split; try assumption. lia.
  - destruct Hstep as [Hlen Hrest].
    destruct (IH rest Hrest) as (frames & last & Hrun & Hlast & Hcount).
    { unfold zlen in Hlen. lia. }
    exists (frame :: frames), last. rewrite Hrun.
    repeat split; try assumption.
    unfold zlen in *. cbn [length]. lia.
  - exists [], (Router.Return_ rest).
    repeat split. unfold zlen. simpl. lia.
  - exists [], Router.Panic.
    repeat split. unfold zlen. simpl. lia.
Qed.

(** X22.  On a connection that delivers finitely many bytes and then
    EOF, the reader's loop ends, whatever the bytes: after at most one
    turn per byte and one more it has disconnected the peer, returned or
    panicked.  Every frame it handed on before took at least 12 bytes
    off the stream. *)
Theorem reader_halts
        (types : Router.frameTypes) (MaxFrameSize : Z)
        (UnmarshalBinary : list Z -> Types.result (Types.Frame * Z))
        (stream : list Z) :
  bytes_ok stream ->
  exists frames last,
    Router.reader types MaxFrameSize UnmarshalBinary
                  (S (length stream)) stream
      = Some (frames, last) /\
    final last /\ 12 * zlen frames <= zlen stream.
Proof.
  intros Hok. apply reader_halts_within; [assumption|lia].
Qed.

Lemma reader_halts_witness :
  exists frames last,
    Router.reader example_types example_MaxFrameSize unmarshal_any_version
                  (S (length (long_frame ++ version_1_stream)))
                  (long_frame ++ version_1_stream)
      = Some (frames, last) /\
    final last /\ 12 * zlen frames <= zlen (long_frame ++ version_1_stream).
Proof.
  apply (reader_halts example_types example_MaxFrameSize
           unmarshal_any_version (long_frame ++ version_1_stream)).
  unfold bytes_ok. repeat (constructor; [unfold is_byte; lia|]).
  constructor.
Defined.

(** X23.  With a buffer of at least 196681 bytes (12 + 3 * 65535 + 64,
    the longest frame a header can announce) the reader never slices its
    buffer out of range: no turn of the loop panics. *)
Theorem reader_never_overruns
        (types : Router.frameTypes) (MaxFrameSize : Z)
        (UnmarshalBinary : list Z -> Types.result (Types.Frame * Z))
        (stream : list Z) :
  196681 <= MaxFrameSize -> bytes_ok stream ->
  Router.reader_step types MaxFrameSize UnmarshalBinary stream
    <> Router.Panic.
Proof.
  intros Hmax Hok. unfold Router.reader_step, Router.reader_read.
  destruct (zlen stream <? 12); [discriminate|].
  destruct (negb (bytes_equal (firstn 4 (firstn 12 stream))
                              Types.FrameMagicBytes)); [discriminate|].
  cbv zeta.
  pose proof (expecting_bounds types (skipn 4 (firstn 12 stream))
                (bytes_ok_skipn _ _ (bytes_ok_firstn _ _ Hok))) as Hb.
  destruct (Z.ltb_spec MaxFrameSize
              (Router.expecting types (skipn 4 (firstn 12 stream)))); [lia|].
  destruct (zlen stream <? _); [discriminate|].
  destruct (UnmarshalBinary _) as [[frame n]|e]; [|discriminate].
  destruct (negb (Types.Version frame =? Types.Version0)); discriminate.
Qed.

Lemma reader_never_overruns_witness :
  Router.reader_step example_types 196681 unmarshal_any_version long_frame
    <> Router.Panic.
Proof.
  apply (reader_never_overruns example_types 196681 unmarshal_any_version
           long_frame).
  - lia.
  - unfold bytes_ok, long_frame. repeat (constructor; [unfold is_byte; lia|]).
    constructor.
Defined.

(** X24.  With a buffer of fewer than 65575 bytes (8 + 65535 + 32) a
    peer can make the reader panic: twelve bytes with the magic and
    0xffff in the three length fields announce, whatever their version
    and type bytes and whatever the type codes are, a frame longer than
    the buffer, and the reader slices [buf[:expecting]] without
    comparing. *)
Theorem reader_overruns_short_buffer
        (types : Router.frameTypes) (MaxFrameSize : Z)
        (UnmarshalBinary : list Z -> Types.result (Types.Frame * Z))
        (v t : Z) (rest : list Z) :
  MaxFrameSize < 65575 ->
  Router.reader_step types MaxFrameSize UnmarshalBinary
                     (longest_header v t ++ rest)
    = Router.Panic.
Proof.
  intros Hmax. unfold Router.reader_step, Router.reader_read.
  assert (Hlen : 12 <= zlen (longest_header v t ++ rest)).
  { rewrite zlen_app. unfold zlen at 1. simpl length. unfold zlen. lia. }
  destruct (Z.ltb_spec (zlen (longest_header v t ++ rest)) 12); [lia|].
  change (firstn 12 (longest_header v t ++ rest))
    with (longest_header v t).
  change (firstn 4 (longest_header v t)) with Types.FrameMagicBytes.
  change (bytes_equal Types.FrameMagicBytes Types.FrameMagicBytes) with true.
  cbn [negb]. cbv zeta.
  assert (Hexp : 65575 <= Router.expecting types
                            (skipn 4 (longest_header v t))).
  { unfold Router.expecting, Router.ed25519_PublicKeySize.
    change (skipn 4 (longest_header v t))
      with [v; t; 255; 255; 255; 255; 255; 255].
    cbn [nth]. change (BigEndian_Uint16 255 255) with 65535.
    repeat match goal with |- context [if ?c then _ else _] => destruct c end;
      lia. }
  destruct (Z.ltb_spec MaxFrameSize
              (Router.expecting types (skipn 4 (longest_header v t))));
    [reflexivity|lia].
Qed.

Lemma reader_overruns_short_buffer_witness :
  Router.reader_step example_types example_MaxFrameSize unmarshal_any_version
                     (longest_header 0 2 ++ [])
    = Router.Panic.
Proof.
  apply (reader_overruns_short_buffer example_types example_MaxFrameSize
           unmarshal_any_version 0 2 []).
  unfold example_MaxFrameSize. lia.
Defined.

(** ** The dissector's [coords] and its frame length *)

Lemma subset_rest (pre rest : list Z) :
  Dissector.subset (pre ++ rest) (zlen pre) (zlen (pre ++ rest) - zlen pre)
  = Some rest.
Proof.
  unfold Dissector.subset. rewrite zlen_app. unfold zlen.
  destruct (Z.ltb_spec (Z.of_nat (length pre)) 0); [lia|].
  destruct (Z.ltb_spec (Z.of_nat (length pre) + Z.of_nat (length rest)
                        - Z.of_nat (length pre)) 0); [lia|].
  destruct (Z.ltb_spec (Z.of_nat (length pre) + Z.of_nat (length rest))
              (Z.of_nat (length pre)
               + (Z.of_nat (length pre) + Z.of_nat (length rest)
                  - Z.of_nat (length pre)))); [lia|].
  cbn [orb]. rewrite Nat2Z.id.
  rewrite skipn_app, skipn_all, Nat.sub_diag. cbn [app skipn].
  rewrite firstn_all2; [reflexivity|lia].
Qed.

(** [coords] across the encodings of a list of ports. *)
Lemma coords_loop_encoding (ports : list Z) : forall pre tail c fuel,
  Forall (fun n => 0 <= n < 2 ^ 64) ports ->
  (length ports <= fuel)%nat ->
  Dissector.coords_loop
    fuel (pre ++ flat_map Types.Varu64_MarshalBinary ports ++ tail)
    c (zlen pre)
  = Dissector.coords_loop
      (fuel - length ports)
      (pre ++ flat_map Types.Varu64_MarshalBinary ports ++ tail)
      (c ++ map (fun n => n mod 2 ^ 32) ports)
      (zlen pre + zlen (flat_map Types.Varu64_MarshalBinary ports)).
Proof.
  induction ports as [|p ports IH]; intros pre tail c fuel Hports Hfuel.
  - cbn [flat_map map length]. rewrite app_nil_r, Nat.sub_0_r.
    unfold zlen at 3. cbn [length]. now rewrite Z.add_0_r.
  - inversion Hports as [|? ? Hp Hports']; subst.
    destruct fuel as [|fuel]; [cbn [length] in Hfuel; lia|].
    cbn [flat_map map length Nat.sub].
    pose proof (Varu64_MarshalBinary_length p) as Hlen.
    cbn [Dissector.coords_loop].
    destruct (Z.ltb_spec (zlen pre)
                (zlen (pre ++ (Types.Varu64_MarshalBinary p
                               ++ flat_map Types.Varu64_MarshalBinary ports)
                              ++ tail))) as [_|Hge].
    2:{ rewrite !zlen_app in Hge.
        assert (0 <= zlen (flat_map Types.Varu64_MarshalBinary ports))
          by (unfold zlen; lia).
        assert (0 <= zlen tail) by (unfold zlen; lia). lia. }
    rewrite subset_rest, <- app_assoc, varu64_of_encoding by assumption.
    replace (pre ++ Types.Varu64_MarshalBinary p
                 ++ flat_map Types.Varu64_MarshalBinary ports ++ tail)
      with ((pre ++ Types.Varu64_MarshalBinary p)
              ++ flat_map Types.Varu64_MarshalBinary ports ++ tail)
      by now rewrite <- app_assoc.
    rewrite <- zlen_app.
    rewrite IH by (try assumption; cbn [length] in Hfuel; lia).
    f_equal.
    + rewrite <- app_assoc. reflexivity.
    + rewrite !zlen_app. lia.
Qed.

Lemma flat_map_encoding_length (ports : list Z) :
  (length ports
   <= length (flat_map Types.Varu64_MarshalBinary ports))%nat.
Proof.
  induction ports as [|p ports IH]; cbn [flat_map length]; [lia|].
  rewrite length_app.
  pose proof (Varu64_MarshalBinary_length p) as Hlen. unfold zlen in Hlen.
  lia.
Qed.

Lemma coords_loop_at_end (fuel : nat) (b c : list Z) :
  Dissector.coords_loop fuel b c (zlen b) = Dissector.Returns c.
Proof.
  destruct fuel; cbn [Dissector.coords_loop];
    now rewrite Z.ltb_irrefl.
Qed.

(** X25.  [coords] reads back the ports of marshalled coordinates: on
    the varints of a list of ports below 2^32, one after the other (the
    bytes [1 2 3 4 167 8] of the test for [1, 2, 3, 4, 5000]), it
    returns the table of these ports, in order. *)
Theorem coords_of_encoding (ports : list Z) :
  Forall (fun n => 0 <= n < 2 ^ 32) ports ->
  Dissector.coords (flat_map Types.Varu64_MarshalBinary ports)
  = Dissector.Returns ports.
Proof.
  intros Hports. unfold Dissector.coords.
  pose proof (coords_loop_encoding ports [] [] []
                (length (flat_map Types.Varu64_MarshalBinary ports)))
    as Hrun.
  cbn [app] in Hrun. rewrite app_nil_r in Hrun.
  change (zlen (@nil Z)) with 0 in Hrun. rewrite Z.add_0_l in Hrun.
  rewrite Hrun.
  - rewrite coords_loop_at_end. f_equal.
    clear Hrun. induction Hports as [|p ports Hp _ IH]; [reflexivity|].
    cbn [map]. rewrite IH, Z.mod_small by lia. reflexivity.
  - eapply Forall_impl; [|exact Hports]. cbv beta. intros n Hn. lia.
  - apply flat_map_encoding_length.
Qed.

Lemma coords_of_encoding_witness :
  Dissector.coords [1; 2; 3; 4; 167; 8] = Dissector.Returns [1; 2; 3; 4; 5000].
Proof.
  apply (coords_of_encoding [1; 2; 3; 4; 5000]).
  repeat (constructor; [lia|]). constructor.
Defined.

Lemma varu64_cut_short (tail : list Z) :
  Forall is_cont tail -> (length tail < 10)%nat ->
  Dissector.varu64 tail = None.
Proof.
  intros Hcont Hlen. unfold Dissector.varu64.
  replace 10%nat with (length tail + S (9 - length tail))%nat by lia.
  pose proof (varu64_loop_cont tail [] [] (S (9 - length tail)) 0 Hcont
                ltac:(lia)) as Hrun.
  cbn [app] in Hrun. rewrite app_nil_r in Hrun.
  change (0 mod 2 ^ 32) with 0 in Hrun. change (zlen (@nil Z)) with 0 in Hrun.
  rewrite Hrun. cbn [Dissector.varu64_loop]. unfold Dissector.get_index.
  rewrite Z.add_0_l.
  destruct (Z.ltb_spec (zlen tail) 0); [reflexivity|].
  unfold zlen. rewrite Nat2Z.id.
  replace (nth_error tail (length tail)) with (@None Z); [reflexivity|].
  symmetry. apply nth_error_None. lia.
Qed.

(** X26.  On coordinates cut off in the middle of a varint, [coords]
    raises a Lua error instead of returning: after any ports, one to
    nine bytes that all carry the continuation bit make [varu64] index
    past the end of the array. *)
Theorem coords_raises_when_cut_short (ports tail : list Z) :
  Forall (fun n => 0 <= n < 2 ^ 64) ports ->
  Forall is_cont tail -> tail <> [] -> (length tail < 10)%nat ->
  Dissector.coords (flat_map Types.Varu64_MarshalBinary ports ++ tail)
  = Dissector.Raises.
Proof.
  intros Hports Hcont Hne Hlen. unfold Dissector.coords.
  pose proof (coords_loop_encoding ports [] tail []
                (length (flat_map Types.Varu64_MarshalBinary ports ++ tail))
                Hports) as Hrun.
  cbn [app] in Hrun.
  change (zlen (@nil Z)) with 0 in Hrun. rewrite Z.add_0_l in Hrun.
  pose proof (flat_map_encoding_length ports) as Hn.
  assert (Htail : (1 <= length tail)%nat)
    by (destruct tail; [congruence|cbn [length]; lia]).
  rewrite Hrun by (rewrite length_app; lia).
  rewrite length_app.
  replace (length (flat_map Types.Varu64_MarshalBinary ports) + length tail
           - length ports)%nat
    with (S (length (flat_map Types.Varu64_MarshalBinary ports)
             + length tail - length ports - 1)) by lia.
  cbn [Dissector.coords_loop].
  destruct (Z.ltb_spec (zlen (flat_map Types.Varu64_MarshalBinary ports))
              (zlen (flat_map Types.Varu64_MarshalBinary ports ++ tail)))
    as [_|Hge]; [|rewrite zlen_app in Hge; unfold zlen in Hge; lia].
  rewrite subset_rest, varu64_cut_short by assumption. reflexivity.
Qed.

Lemma coords_raises_when_cut_short_witness :
  Dissector.coords [1; 2; 167] = Dissector.Raises.
Proof.
  apply (coords_raises_when_cut_short [1; 2] [167]).
  - repeat (constructor; [lia|]). constructor.
  - repeat (constructor; [unfold is_cont; lia|]). constructor.
  - discriminate.
  - simpl. lia.
Defined.

Lemma subset_from (b : list Z) (o : Z) :
  0 <= o < zlen b ->
  Dissector.subset b o (zlen b - o) = Some (skipn (Z.to_nat o) b).
Proof.
  intros Ho.
  assert (Hpre : zlen (firstn (Z.to_nat o) b) = o).
  { unfold zlen in *. rewrite length_firstn. lia. }
  pose proof (subset_rest (firstn (Z.to_nat o) b) (skipn (Z.to_nat o) b))
    as Hsub.
  rewrite firstn_skipn, Hpre in Hsub. exact Hsub.
Qed.

Lemma coords_loop_ends (fuel : nat) : forall b c o,
  0 <= o -> zlen b - o <= Z.of_nat fuel ->
  match Dissector.coords_loop fuel b c o with
  | Dissector.Returns c' =>
      (length c' <= length c + Z.to_nat (zlen b - o))%nat
  | Dissector.Raises => True
  | Dissector.Unfinished => False
  end.
Proof.
  induction fuel as [|fuel IH]; intros b c o Ho Hfuel;
    cbn [Dissector.coords_loop];
    destruct (Z.ltb_spec o (zlen b)) as [Hlt|Hge]; try lia.
  rewrite subset_from by lia.
  destruct (Dissector.varu64 (skipn (Z.to_nat o) b)) as [[n l]|] eqn:Hrun;
    [|exact I].
  unfold Dissector.varu64 in Hrun.
  apply varu64_loop_bound in Hrun as [_ Hl]; [|lia].
  specialize (Hl ltac:(discriminate)).
  assert (Hrest : zlen (skipn (Z.to_nat o) b) = zlen b - o)
    by (unfold zlen in *; rewrite length_skipn; lia).
  specialize (IH b (c ++ [n]) (o + l) ltac:(lia) ltac:(lia)).
  destruct (Dissector.coords_loop fuel b (c ++ [n]) (o + l)); try exact IH.
  rewrite length_app in IH. cbn [length] in IH. lia.
Qed.

(** X27.  The loop of [coords] ends on every input: each turn moves on
    by the one to ten bytes [varu64] has read, so after at most one turn
    per byte [coords] has returned or raised an error, and a table it
    returns has at most one number per byte. *)
Theorem coords_ends (bytes : list Z) :
  Dissector.coords bytes <> Dissector.Unfinished /\
  forall c, Dissector.coords bytes = Dissector.Returns c ->
            (length c <= length bytes)%nat.
Proof.
  unfold Dissector.coords.
  pose proof (coords_loop_ends (length bytes) bytes [] 0 ltac:(lia)
                ltac:(unfold zlen; lia)) as Hend.
  destruct (Dissector.coords_loop (length bytes) bytes [] 0) as [c'| |];
    [|split; [discriminate|intros c Hc; discriminate]|contradiction].
  split; [discriminate|]. intros c Hc. injection Hc as <-.
  cbn [length] in Hend. unfold zlen in Hend. lia.
Qed.

Lemma BigEndian_Uint16_PutUint16 (n : Z) :
  0 <= n < 2 ^ 16 ->
  match BigEndian_PutUint16 n with
  | [b0; b1] => BigEndian_Uint16 b0 b1 = n
  | _ => False
  end.
Proof.
  intros Hn. pose proof (uint16_roundtrip n [] Hn) as Hread.
  unfold BigEndian_PutUint16 in *. cbn [app Types.read_uint16] in Hread.
  congruence.
Qed.

(** X28.  The dissector takes a marshalled frame for one whole PDU: on
    the bytes that the codec of section 4.1 writes for a frame with its
    two extra bytes, of fewer than 2^16 bytes in all, the heuristic
    claims the packet and [do_pinecone_length] is the length of these
    bytes, header included. *)
Theorem dissector_frame_length (f : Types.Frame) (cap : Z) (bs : list Z) :
  Types.MarshalBinary f cap = Types.Ok bs ->
  zlen (Types.Extra f) = 2 -> zlen bs < 2 ^ 16 ->
  Dissector.dissector bs = Some 1 /\
  Dissector.do_pinecone_length bs = Some (zlen bs).
Proof.
  intros Hm Hextra Hlen. apply MarshalBinary_Ok in Hm as [_ ->].
  destruct (Types.Extra f) as [|e0 [|e1 [|e2 extra]]];
    try (unfold zlen in Hextra; cbn [length] in Hextra; lia).
  set (n := Types.FrameHeaderLength + zlen (Types.frame_body f)) in *.
  assert (Hn : 0 <= n < 2 ^ 16).
  { rewrite !zlen_app in Hlen. unfold BigEndian_PutUint16 in Hlen.
    unfold zlen, Types.FrameMagicBytes in Hlen. cbn [length] in Hlen.
    unfold n, Types.FrameHeaderLength, zlen. lia. }
  pose proof (BigEndian_Uint16_PutUint16 n Hn) as Hput.
  assert (Htotal : zlen (Types.FrameMagicBytes
                         ++ [Types.Version f; Types.Type_ f] ++ [e0; e1]
                         ++ BigEndian_PutUint16 n ++ Types.frame_body f) = n).
  { rewrite !zlen_app. unfold BigEndian_PutUint16.
    unfold n, Types.FrameHeaderLength, zlen, Types.FrameMagicBytes.
    cbn [length]. lia. }
  rewrite Htotal.
  unfold Dissector.dissector, Dissector.do_pinecone_length,
    Dissector.subset, Dissector.header_size.
  rewrite Htotal.
  assert (Hten : 10 <= n)
    by (unfold n, Types.FrameHeaderLength, zlen; lia).
  destruct (Z.ltb_spec n 10); [lia|].
  destruct (Z.ltb_spec n (0 + 4)); [lia|].
  destruct (Z.ltb_spec n (8 + 2)); [lia|].
  unfold BigEndian_PutUint16 in *.
  cbn [orb Z.ltb Z.compare Z.to_nat Pos.to_nat Pos.iter_op Nat.add app skipn
       firstn Types.FrameMagicBytes].
  split; [reflexivity|].
  change (Pos.to_nat 2) with 2%nat. change (Pos.to_nat 8) with 8%nat.
  cbn [skipn firstn]. now rewrite Hput.
Qed.

Lemma dissector_frame_length_witness :
  Dissector.dissector tree_routed_bytes = Some 1 /\
  Dissector.do_pinecone_length tree_routed_bytes = Some 33.
Proof.
  apply (dissector_frame_length tree_routed_frame 65535 tree_routed_bytes).
  - reflexivity.
  - reflexivity.
  - vm_compute. reflexivity.
Defined.

(** X29.  The reader and the dissector do not read the same header.
    Except for the types Teardown, VirtualSnake and VirtualSnakePathfind,
    the reader adds the 16-bit number at offsets 8 and 9, which to the
    dissector is the length of the whole frame, to the 12 or more bytes
    it expects anyway: it always waits for at least 12 bytes more than
    the frame that the dissector sees. *)
Theorem reader_expects_more_than_dissector
        (types : Router.frameTypes) (stream : list Z) :
  bytes_ok stream -> 12 <= zlen stream ->
  nth 5 stream 0 <> Router.TypeVirtualSnakeTeardown types ->
  nth 5 stream 0 <> Router.TypeVirtualSnake types ->
  nth 5 stream 0 <> Router.TypeVirtualSnakePathfind types ->
  exists len,
    Dissector.do_pinecone_length stream = Some len /\
    len + 12 <= Router.expecting types (skipn 4 (firstn 12 stream)).
Proof.
  intros Hok Hlen Ht1 Ht2 Ht3.
  do 12 (destruct stream as [|? stream];
         [unfold zlen in Hlen; cbn [length] in Hlen; lia|]).
  exists (BigEndian_Uint16 z7 z8). split.
  - unfold Dissector.do_pinecone_length, Dissector.subset.
    destruct (Z.ltb_spec
                (zlen (z :: z0 :: z1 :: z2 :: z3 :: z4 :: z5 :: z6 :: z7
                         :: z8 :: z9 :: z10 :: stream)) (8 + 2));
      [lia|reflexivity].
  - cbn [nth] in Ht1, Ht2, Ht3.
    cbn [firstn skipn]. unfold Router.expecting, Router.ed25519_PublicKeySize.
    cbn [nth].
    unfold bytes_ok in Hok.
    repeat match goal with
           | H : Forall _ (_ :: _) |- _ =>
               let Hb := fresh "Hb" in
               inversion H as [|? ? Hb ?]; subst; clear H
           end.
    pose proof (BigEndian_Uint16_bounds z5 z6 ltac:(assumption)
                  ltac:(assumption)).
    pose proof (BigEndian_Uint16_bounds z7 z8 ltac:(assumption)
                  ltac:(assumption)).
    pose proof (BigEndian_Uint16_bounds z9 z10 ltac:(assumption)
                  ltac:(assumption)).
    destruct (Z.eqb_spec z4 (Router.TypeVirtualSnakeBootstrap types)); [lia|].
    destruct (Z.eqb_spec z4 (Router.TypeVirtualSnakeBootstrapACK types));
      [lia|].
    destruct (Z.eqb_spec z4 (Router.TypeVirtualSnakeSetup types)); [lia|].
    destruct (Z.eqb_spec z4 (Router.TypeVirtualSnakeTeardown types));
      [contradiction|].
    destruct (Z.eqb_spec z4 (Router.TypeVirtualSnake types));
      [contradiction|].
    destruct (Z.eqb_spec z4 (Router.TypeVirtualSnakePathfind types));
      [contradiction|].
    cbn [orb]. lia.
Qed.

Lemma reader_expects_more_than_dissector_witness :
  exists len,
    Dissector.do_pinecone_length tree_routed_bytes = Some len /\
    len + 12 <= Router.expecting example_types
                  (skipn 4 (firstn 12 tree_routed_bytes)).
Proof.
  apply (reader_expects_more_than_dissector example_types tree_routed_bytes).
  - unfold bytes_ok, tree_routed_bytes.
    repeat (constructor; [unfold is_byte; lia|]). constructor.
  - vm_compute. discriminate.
  - vm_compute. discriminate.
  - vm_compute. discriminate.
  - vm_compute. discriminate.
Defined.

(** X30.  [peers.Swap] exchanges two peers and nothing else: with both
    indices in range it keeps the length, puts each of the two peers in
    the other's place and leaves every other place alone, so that a
    second [Swap] undoes it and [Less] on the swapped places is [Less]
    the other way round before; with an index out of range it panics. *)
Theorem Swap_exchanges (p : Link.peers) (i j : nat) :
  ((i < length p)%nat /\ (j < length p)%nat ->
   exists p',
     Link.Swap p i j = Some p' /\
     Link.Len p' = Link.Len p /\
     nth_error p' i = nth_error p j /\
     nth_error p' j = nth_error p i /\
     (forall k, k <> i -> k <> j -> nth_error p' k = nth_error p k) /\
     Link.Swap p' i j = Some p /\
     Link.Less p' i j = Link.Less p j i) /\
  (~ ((i < length p)%nat /\ (j < length p)%nat) -> Link.Swap p i j = None).
Proof.
  split.
  - intros [Hi Hj].
    destruct (nth_error p i) as [pi|] eqn:Epi;
      [|apply nth_error_None in Epi; lia].
    destruct (nth_error p j) as [pj|] eqn:Epj;
      [|apply nth_error_None in Epj; lia].
    exists (set_nth j pi (set_nth i pj p)).
    assert (Hat_j : nth_error (set_nth j pi (set_nth i pj p)) j = Some pi).
    { destruct (Nat.eq_dec i j) as [->|Hne].
      - eapply nth_error_set_nth_same.
        eapply nth_error_set_nth_same. exact Epj.
      - eapply nth_error_set_nth_same.
        rewrite nth_error_set_nth_other by assumption. exact Epj. }
    assert (Hat_i : nth_error (set_nth j pi (set_nth i pj p)) i = Some pj).
    { destruct (Nat.eq_dec i j) as [->|Hne].
      - rewrite Hat_j. congruence.
      - rewrite nth_error_set_nth_other by auto.
        eapply nth_error_set_nth_same. exact Epi. }
    assert (Hother : forall k, k <> i -> k <> j ->
              nth_error (set_nth j pi (set_nth i pj p)) k = nth_error p k).
    { intros k Hki Hkj. now rewrite !nth_error_set_nth_other by auto. }
    repeat split.
    + unfold Link.Swap. now rewrite Epi, Epj.
    + unfold Link.Len, zlen. now rewrite !length_set_nth.
    + exact Hat_i.
    + exact Hat_j.
    + exact Hother.
    + unfold Link.Swap. rewrite Hat_i, Hat_j. f_equal.
      apply nth_error_ext. intros k.
      destruct (Nat.eq_dec k j) as [->|Hkj].
      * erewrite nth_error_set_nth_same; [now rewrite Epj|].
        destruct (Nat.eq_dec i j) as [->|Hne].
        -- eapply nth_error_set_nth_same. exact Hat_j.
        -- rewrite nth_error_set_nth_other by assumption. exact Hat_j.
      * rewrite nth_error_set_nth_other by auto.
        destruct (Nat.eq_dec k i) as [->|Hki].
        -- erewrite nth_error_set_nth_same; [now rewrite Epi|exact Hat_i].
        -- rewrite nth_error_set_nth_other by auto. now apply Hother.
    + unfold Link.Less. now rewrite Hat_i, Hat_j, Epi, Epj.
  - intros Hout. unfold Link.Swap.
    destruct (nth_error p i) as [pi|] eqn:Epi; [|reflexivity].
    destruct (nth_error p j) as [pj|] eqn:Epj; [|reflexivity].
    exfalso. apply Hout. split; apply nth_error_Some; congruence.
Qed.

Lemma Swap_exchanges_witness :
  exists p',
    Link.Swap two_peers 0 1 = Some p' /\
    Link.Len p' = Link.Len two_peers /\
    nth_error p' 0%nat = nth_error two_peers 1%nat /\
    nth_error p' 1%nat = nth_error two_peers 0%nat /\
    (forall k, k <> 0%nat -> k <> 1%nat ->
               nth_error p' k = nth_error two_peers k) /\
    Link.Swap p' 0 1 = Some two_peers /\
    Link.Less p' 0 1 = Link.Less two_peers 1 0.
Proof.
  apply (proj1 (Swap_exchanges two_peers 0 1)).
  simpl. lia.
Defined.
